(** * The post-processing pipeline of the DirectX 11 engine

    A shallow embedding of PostProcess.cpp (the effect instance
    [PostProcessEffect_Base] and the orchestrator [PostProcessManager]),
    of the two [ShaderUtils] functions of Shader.cpp it calls, and of the
    declarations of PostProcess.h it relies on (the effect enumeration and
    the parameter block).

    The Direct3D device is an external collaborator.  It is modelled by the
    calls the code makes on it: every creation, release, buffer write and
    draw is appended to a chronological log, the pipeline bindings of the
    immediate context are a record, and the result of each fallible device
    call is read from a list of outcomes, so that every pattern of device
    failure can be replayed.

    Around the pipeline the file embeds its caller, the effect setups of
    [BasicEngineExample], and, in detail, the classes of Shader.cpp that
    the pipeline uses as a black box: [Shader], [ShaderProgram] and the
    [ShaderUtils] factories, on a device that tells the bytecode blob,
    the shader object and the input layout apart. *)

From Stdlib Require Import ZArith QArith List Bool Lia.
From stdpp Require Import base option list gmap.

Local Open Scope Z_scope.

(** ** PostProcess.h: the effect descriptors and the parameter block *)

Inductive PostProcessEffect :=
  | None_ | Grayscale | Sepia | Invert | Blur | GaussianBlur | Bloom
  | ToneMapping | FXAA | Vignette | ColorCorrection | DepthOfField
  | MotionBlur | Count.

(** The enumerators are numbered from [None = 0] in declaration order. *)
Definition effect_index (e : PostProcessEffect) : nat :=
  match e with
  | None_ => 0 | Grayscale => 1 | Sepia => 2 | Invert => 3 | Blur => 4
  | GaussianBlur => 5 | Bloom => 6 | ToneMapping => 7 | FXAA => 8
  | Vignette => 9 | ColorCorrection => 10 | DepthOfField => 11
  | MotionBlur => 12 | Count => 13
  end%nat.

Definition effect_of_index (n : nat) : PostProcessEffect :=
  match n with
  | 0 => None_ | 1 => Grayscale | 2 => Sepia | 3 => Invert | 4 => Blur
  | 5 => GaussianBlur | 6 => Bloom | 7 => ToneMapping | 8 => FXAA
  | 9 => Vignette | 10 => ColorCorrection | 11 => DepthOfField
  | 12 => MotionBlur | _ => Count
  end%nat.

#[global] Instance PostProcessEffect_eq_dec : EqDecision PostProcessEffect.
Proof. solve_decision. Defined.

#[global] Instance PostProcessEffect_countable : Countable PostProcessEffect :=
  inj_countable' effect_index effect_of_index
    (fun e => match e as e0 return effect_of_index (effect_index e0) = e0 with
              | None_ | Grayscale | Sepia | Invert | Blur | GaussianBlur | Bloom
              | ToneMapping | FXAA | Vignette | ColorCorrection | DepthOfField
              | MotionBlur | Count => eq_refl
              end).

(** [XMFLOAT3] and the parameter block.  A [float] field holds the rational
    its initialiser denotes; the parameter values are only carried from the
    manager to the constant buffer, no arithmetic is done on them here. *)
Module DirectX.
Record XMFLOAT3 := mkXMFLOAT3 { x : Q; y : Q; z : Q }.
End DirectX.

Record PostProcessParams := mkPostProcessParams {
  intensity : Q; threshold : Q; radius : Q; sigma : Q;
  colorTint : DirectX.XMFLOAT3;
  contrast : Q; brightness : Q; saturation : Q; gamma : Q;
  bloomThreshold : Q; bloomIntensity : Q; bloomBlurPasses : Z;
  exposure : Q; whitePoint : Q;
  fxaaSpanMax : Q; fxaaReduceMin : Q; fxaaReduceMul : Q;
  vignetteRadius : Q; vignetteSoftness : Q;
  vignetteColor : DirectX.XMFLOAT3
}.

(** The default constructor [PostProcessParams()]. *)
Definition PostProcessParams_default : PostProcessParams :=
  {| intensity := 1; threshold := 1 # 2; radius := 1; sigma := 1;
     colorTint := DirectX.mkXMFLOAT3 1 1 1;
     contrast := 1; brightness := 0; saturation := 1; gamma := 22 # 10;
     bloomThreshold := 1; bloomIntensity := 1; bloomBlurPasses := 3;
     exposure := 1; whitePoint := 1;
     fxaaSpanMax := 8; fxaaReduceMin := 1 # 128; fxaaReduceMul := 1 # 8;
     vignetteRadius := 8 # 10; vignetteSoftness := 2 # 10;
     vignetteColor := DirectX.mkXMFLOAT3 0 0 0 |}%Q.

(** The members of [struct PostProcessParams] in declaration order, by C
    type.  Every member has alignment 4, so the struct has no padding and
    [sizeof] is the sum of the member sizes. *)
Inductive CType := C_float | C_int | C_XMFLOAT3.

Definition sizeof_ctype (t : CType) : Z :=
  match t with C_float => 4 | C_int => 4 | C_XMFLOAT3 => 12 end.

Definition PostProcessParams_layout : list CType :=
  [ C_float; C_float; C_float; C_float;
    C_XMFLOAT3; C_float; C_float; C_float; C_float;
    C_float; C_float; C_int;
    C_float; C_float;
    C_float; C_float; C_float;
    C_float; C_float; C_XMFLOAT3 ].

Definition sizeof_PostProcessParams : Z :=
  foldr (fun t acc => sizeof_ctype t + acc) 0 PostProcessParams_layout.

(** ** The Direct3D 11 device, as the pipeline uses it *)

Module D3D.

(** COM interface pointers are [option handle]; [None] is [nullptr]. *)
Definition handle := positive.

Inductive ID3D11Device := TheDevice.
Inductive ID3D11DeviceContext := ImmediateContext.

Inductive ShaderType := Vertex | Pixel | Geometry | Hull | Domain | Compute.

(** The embedded HLSL sources of [namespace PostProcessShaders]; the
    pipeline treats them as opaque programs chosen by name. *)
Inductive ShaderSource :=
  | FULLSCREEN_QUAD_VS | COPY_PS | GRAYSCALE_PS | BLOOM_PS
  | GAUSSIAN_BLUR_PS | TONE_MAPPING_PS | VIGNETTE_PS.

Inductive DXGI_FORMAT := DXGI_FORMAT_UNKNOWN | DXGI_FORMAT_R8G8B8A8_UNORM.

Inductive D3D11_USAGE :=
  | D3D11_USAGE_DEFAULT | D3D11_USAGE_IMMUTABLE | D3D11_USAGE_DYNAMIC.

Definition D3D11_BIND_VERTEX_BUFFER : Z := 1.
Definition D3D11_BIND_CONSTANT_BUFFER : Z := 4.
Definition D3D11_BIND_SHADER_RESOURCE : Z := 8.
Definition D3D11_BIND_RENDER_TARGET : Z := 32.
Definition D3D11_CPU_ACCESS_WRITE : Z := 65536.

(** Conversion of an [int] or [size_t] value to [UINT]. *)
Definition to_UINT (n : Z) : Z := n mod 2 ^ 32.

Record D3D11_TEXTURE2D_DESC := mkTextureDesc {
  Width : Z; Height : Z; MipLevels : Z; ArraySize : Z;
  Format : DXGI_FORMAT; SampleCount : Z; SampleQuality : Z;
  TexUsage : D3D11_USAGE; TexBindFlags : Z;
  TexCPUAccessFlags : Z; MiscFlags : Z
}.

Record D3D11_BUFFER_DESC := mkBufferDesc {
  BufUsage : D3D11_USAGE; ByteWidth : Z; BufBindFlags : Z;
  BufCPUAccessFlags : Z
}.

Inductive Resource :=
  | Texture2D (desc : D3D11_TEXTURE2D_DESC)
  | RenderTargetView (texture : handle)
  | ShaderResourceView (texture : handle)
  | Buffer (desc : D3D11_BUFFER_DESC)
  | ShaderObject (type : ShaderType) (code : ShaderSource)
  | SamplerState.

Inductive Topology := D3D11_PRIMITIVE_TOPOLOGY_TRIANGLESTRIP.

(** The bindings of the immediate context that the pipeline sets. *)
Record Pipeline := mkPipeline {
  OMRenderTarget : option handle;
  RSViewport : option (Z * Z);
  VSShader : option handle;
  PSShader : option handle;
  PSShaderResource0 : option handle;
  PSConstantBuffer0 : option handle;
  PSSampler0 : option handle;
  IAVertexBuffer0 : option handle;
  IAPrimitiveTopology : option Topology
}.

Definition Pipeline_empty : Pipeline :=
  mkPipeline None None None None None None None None None.

Inductive Event :=
  | Created (h : handle) (r : Resource)
  | Released (h : handle)
  | Written (h : handle) (data : PostProcessParams)
  | Drawn (vertexCount : Z) (bindings : Pipeline).

Record State := mkState {
  next_handle : handle;
  outcomes : list bool;
  pipeline : Pipeline;
  log : list Event
}.

Definition State_initial (script : list bool) : State :=
  mkState 1%positive script Pipeline_empty [].

Definition emit (e : Event) (s : State) : State :=
  mkState (next_handle s) (outcomes s) (pipeline s) (log s ++ [e]).

Definition set_pipeline (p : Pipeline) (s : State) : State :=
  mkState (next_handle s) (outcomes s) p (log s).

(** The result of the next fallible device call ([SUCCEEDED(hr)]); once
    the list is used up the device succeeds. *)
Definition next_outcome (s : State) : bool * State :=
  match outcomes s with
  | [] => (true, s)
  | b :: bs => (b, mkState (next_handle s) bs (pipeline s) (log s))
  end.

(** A creation call: on success a fresh object is returned through the
    out pointer, on failure the out pointer is null. *)
Definition create (r : Resource) (s : State) : option handle * State :=
  let (ok, s1) := next_outcome s in
  if ok then
    let h := next_handle s1 in
    (Some h,
     mkState (Pos.succ h) (outcomes s1) (pipeline s1)
             (log s1 ++ [Created h r]))
  else (None, s1).

Definition CreateTexture2D (desc : D3D11_TEXTURE2D_DESC) := create (Texture2D desc).
Definition CreateRenderTargetView (tex : handle) := create (RenderTargetView tex).
Definition CreateShaderResourceView (tex : handle) := create (ShaderResourceView tex).
Definition CreateBuffer (desc : D3D11_BUFFER_DESC) := create (Buffer desc).
Definition CreateSamplerState := create SamplerState.

Definition Release (h : handle) (s : State) : State := emit (Released h) s.

(** [if (p) { p->Release(); p = nullptr; }] *)
Definition SafeRelease (p : option handle) (s : State) : State :=
  match p with Some h => Release h s | None => s end.

(** [Map] with [D3D11_MAP_WRITE_DISCARD], [memcpy], [Unmap]: the write
    happens only when [Map] succeeds. *)
Definition MapWriteDiscard (h : handle) (data : PostProcessParams)
    (s : State) : State :=
  let (ok, s1) := next_outcome s in
  if ok then emit (Written h data) s1 else s1.

Definition OMSetRenderTargets (rtv : option handle) (s : State) : State :=
  let p := pipeline s in
  set_pipeline
    (mkPipeline rtv (RSViewport p) (VSShader p) (PSShader p)
       (PSShaderResource0 p) (PSConstantBuffer0 p) (PSSampler0 p)
       (IAVertexBuffer0 p) (IAPrimitiveTopology p)) s.

Definition RSSetViewports (w h : Z) (s : State) : State :=
  let p := pipeline s in
  set_pipeline
    (mkPipeline (OMRenderTarget p) (Some (w, h)) (VSShader p) (PSShader p)
       (PSShaderResource0 p) (PSConstantBuffer0 p) (PSSampler0 p)
       (IAVertexBuffer0 p) (IAPrimitiveTopology p)) s.

Definition VSSetShader (sh : option handle) (s : State) : State :=
  let p := pipeline s in
  set_pipeline
    (mkPipeline (OMRenderTarget p) (RSViewport p) sh (PSShader p)
       (PSShaderResource0 p) (PSConstantBuffer0 p) (PSSampler0 p)
       (IAVertexBuffer0 p) (IAPrimitiveTopology p)) s.

Definition PSSetShader (sh : option handle) (s : State) : State :=
  let p := pipeline s in
  set_pipeline
    (mkPipeline (OMRenderTarget p) (RSViewport p) (VSShader p) sh
       (PSShaderResource0 p) (PSConstantBuffer0 p) (PSSampler0 p)
       (IAVertexBuffer0 p) (IAPrimitiveTopology p)) s.

Definition PSSetShaderResources (srv : option handle) (s : State) : State :=
  let p := pipeline s in
  set_pipeline
    (mkPipeline (OMRenderTarget p) (RSViewport p) (VSShader p) (PSShader p)
       srv (PSConstantBuffer0 p) (PSSampler0 p)
       (IAVertexBuffer0 p) (IAPrimitiveTopology p)) s.

Definition PSSetConstantBuffers (cb : option handle) (s : State) : State :=
  let p := pipeline s in
  set_pipeline
    (mkPipeline (OMRenderTarget p) (RSViewport p) (VSShader p) (PSShader p)
       (PSShaderResource0 p) cb (PSSampler0 p)
       (IAVertexBuffer0 p) (IAPrimitiveTopology p)) s.

Definition PSSetSamplers (sm : option handle) (s : State) : State :=
  let p := pipeline s in
  set_pipeline
    (mkPipeline (OMRenderTarget p) (RSViewport p) (VSShader p) (PSShader p)
       (PSShaderResource0 p) (PSConstantBuffer0 p) sm
       (IAVertexBuffer0 p) (IAPrimitiveTopology p)) s.

Definition IASetVertexBuffers (vb : option handle) (s : State) : State :=
  let p := pipeline s in
  set_pipeline
    (mkPipeline (OMRenderTarget p) (RSViewport p) (VSShader p) (PSShader p)
       (PSShaderResource0 p) (PSConstantBuffer0 p) (PSSampler0 p)
       vb (IAPrimitiveTopology p)) s.

Definition IASetPrimitiveTopology (t : Topology) (s : State) : State :=
  let p := pipeline s in
  set_pipeline
    (mkPipeline (OMRenderTarget p) (RSViewport p) (VSShader p) (PSShader p)
       (PSShaderResource0 p) (PSConstantBuffer0 p) (PSSampler0 p)
       (IAVertexBuffer0 p) (Some t)) s.

Definition Draw (vertexCount : Z) (s : State) : State :=
  emit (Drawn vertexCount (pipeline s)) s.

(** The draw calls of a log, in order. *)
Definition draws (l : list Event) : list Pipeline :=
  omap (fun e => match e with Drawn _ p => Some p | _ => None end) l.

(** The resources a log creates, in order. *)
Definition creations (l : list Event) : list (handle * Resource) :=
  omap (fun e => match e with Created h r => Some (h, r) | _ => None end) l.

Definition releases (l : list Event) : list handle :=
  omap (fun e => match e with Released h => Some h | _ => None end) l.

Definition is_texture (hr : handle * Resource) : bool :=
  match hr.2 with Texture2D _ => true | _ => false end.

(** The offscreen surfaces a log allocates. *)
Definition textures_created (l : list Event) : list (handle * Resource) :=
  List.filter is_texture (creations l).

(** No device call of the script fails. *)
Definition reliable (s : State) : Prop := Forall (fun b => b = true) (outcomes s).

End D3D.

(** ** Shader.cpp: [namespace ShaderUtils]

    [Shader::CompileFromString] returns false on a null device before any
    device call; otherwise compilation, shader-object creation and (for a
    vertex shader) input-layout creation succeed or fail as one device
    outcome, and the [Shader] object is one resource.  The returned
    [shared_ptr] is null exactly when compilation failed. *)
Module ShaderUtils.
Import D3D.

Definition CreateShaderFromString (type : ShaderType)
    (device : option ID3D11Device) (code : ShaderSource) (s : State)
    : option handle * State :=
  match device with
  | None => (None, s)
  | Some _ => create (ShaderObject type code) s
  end.

Definition CreateVertexShaderFromString := CreateShaderFromString Vertex.
Definition CreatePixelShaderFromString := CreateShaderFromString Pixel.

(** [shared_ptr<Shader>::reset()] and the destruction of a sole owner:
    [Shader::~Shader] releases the shader object. *)
Definition reset (p : option handle) (s : State) : State := SafeRelease p s.

(** [Shader::Bind] on a compiled shader. *)
Definition Bind (type : ShaderType) (sh : handle) (s : State) : State :=
  match type with
  | Vertex => VSSetShader (Some sh) s
  | Pixel => PSSetShader (Some sh) s
  | _ => s
  end.
End ShaderUtils.

(** ** PostProcess.cpp: [class PostProcessEffect_Base] *)

Module PostProcessEffect_Base.
Import D3D.

(** The members are those the constructor and the member functions of
    PostProcess.cpp use.  [m_width] and [m_height] are not set by the
    constructor: they are indeterminate ([None]) until [Initialize] stores
    them. *)
Record t := mk {
  m_type : PostProcessEffect;
  m_enabled : bool;
  m_vertexShader : option handle;
  m_pixelShader : option handle;
  m_parameterBuffer : option handle;
  m_width : option Z;
  m_height : option Z
}.

Definition new (type : PostProcessEffect) : t :=
  mk type true None None None None None.

Definition IsEnabled (e : t) : bool := m_enabled e.

Definition SetEnabled (enabled : bool) (e : t) : t :=
  mk (m_type e) enabled (m_vertexShader e) (m_pixelShader e)
     (m_parameterBuffer e) (m_width e) (m_height e).

Definition GetPixelShaderCode (e : t) : ShaderSource :=
  match m_type e with
  | Grayscale => GRAYSCALE_PS
  | Bloom => BLOOM_PS
  | GaussianBlur => GAUSSIAN_BLUR_PS
  | ToneMapping => TONE_MAPPING_PS
  | Vignette => VIGNETTE_PS
  | _ => COPY_PS
  end.

(** [((sizeof(PostProcessParams) + 15) / 16) * 16], computed in [size_t]
    (64 bits) and returned as [UINT]. *)
Definition align16 (size : Z) : Z :=
  to_UINT ((((size + 15) mod 2 ^ 64) / 16 * 16) mod 2 ^ 64).

Definition GetParameterBufferSize : Z := align16 sizeof_PostProcessParams.

Definition parameterBufferDesc : D3D11_BUFFER_DESC :=
  mkBufferDesc D3D11_USAGE_DYNAMIC GetParameterBufferSize
               D3D11_BIND_CONSTANT_BUFFER D3D11_CPU_ACCESS_WRITE.

(** [Initialize]: the result, the instance and the device afterwards.
    Assigning a [shared_ptr] member drops the shader it held before. *)
Definition Initialize (device : option ID3D11Device) (width height : Z)
    (e : t) (s : State) : bool * t * State :=
  match device with
  | None => (false, e, s)
  | Some _ =>
    let '(vs, s1) :=
      ShaderUtils.CreateVertexShaderFromString device FULLSCREEN_QUAD_VS s in
    let s1 := ShaderUtils.reset (m_vertexShader e) s1 in
    let e1 := mk (m_type e) (m_enabled e) vs (m_pixelShader e)
                 (m_parameterBuffer e) (Some width) (Some height) in
    match vs with
    | None => (false, e1, s1)
    | Some _ =>
      let '(ps, s2) :=
        ShaderUtils.CreatePixelShaderFromString device (GetPixelShaderCode e1) s1 in
      let s2 := ShaderUtils.reset (m_pixelShader e1) s2 in
      let e2 := mk (m_type e1) (m_enabled e1) vs ps
                   (m_parameterBuffer e1) (Some width) (Some height) in
      match ps with
      | None => (false, e2, s2)
      | Some _ =>
        let '(buf, s3) := CreateBuffer parameterBufferDesc s2 in
        let e3 := mk (m_type e2) (m_enabled e2) vs ps buf
                     (Some width) (Some height) in
        match buf with
        | None => (false, e3, s3)
        | Some _ => (true, e3, s3)
        end
      end
    end
  end.

Definition Shutdown (e : t) (s : State) : t * State :=
  let s1 := SafeRelease (m_parameterBuffer e) s in
  let s2 := ShaderUtils.reset (m_vertexShader e) s1 in
  let s3 := ShaderUtils.reset (m_pixelShader e) s2 in
  (mk (m_type e) (m_enabled e) None None None (m_width e) (m_height e), s3).

Definition UpdateParameterBuffer (params : PostProcessParams) (e : t)
    (s : State) : State :=
  match m_parameterBuffer e with
  | None => s
  | Some b => MapWriteDiscard b params s
  end.

(** [DrawFullscreenQuad] builds the quad's vertex buffer on every call:
    four vertices of an [XMFLOAT3] and an [XMFLOAT2], 20 bytes each. *)
Definition quadBufferDesc : D3D11_BUFFER_DESC :=
  mkBufferDesc D3D11_USAGE_IMMUTABLE (4 * 20) D3D11_BIND_VERTEX_BUFFER 0.

Definition DrawFullscreenQuad (s : State) : State :=
  let '(vb, s1) := CreateBuffer quadBufferDesc s in
  match vb with
  | Some b =>
    let s2 := IASetVertexBuffers (Some b) s1 in
    let s3 := IASetPrimitiveTopology D3D11_PRIMITIVE_TOPOLOGY_TRIANGLESTRIP s2 in
    let s4 := Draw 4 s3 in
    Release b s4
  | None => s1
  end.

(** [Apply].  The result is [None] where the C++ has undefined behaviour:
    reading the indeterminate [m_width] or [m_height], or calling [Bind]
    through a null [shared_ptr]. *)
Definition Apply (context : option ID3D11DeviceContext)
    (inputTexture outputTarget : option handle)
    (params : PostProcessParams) (e : t) (s : State) : option State :=
  match context, inputTexture, outputTarget, m_enabled e with
  | Some _, Some _, Some _, true =>
    let s1 := UpdateParameterBuffer params e s in
    let s2 := OMSetRenderTargets outputTarget s1 in
    w ← m_width e;
    h ← m_height e;
    let s3 := RSSetViewports w h s2 in
    vs ← m_vertexShader e;
    let s4 := ShaderUtils.Bind Vertex vs s3 in
    ps ← m_pixelShader e;
    let s5 := ShaderUtils.Bind Pixel ps s4 in
    let s6 := PSSetShaderResources inputTexture s5 in
    let s7 := PSSetConstantBuffers (m_parameterBuffer e) s6 in
    let s8 := DrawFullscreenQuad s7 in
    Some (PSSetShaderResources None s8)
  | _, _, _, _ => Some s
  end.

(** A fully initialised instance: both shaders and the buffer exist. *)
Definition initialized (e : t) : Prop :=
  is_Some (m_vertexShader e) ∧ is_Some (m_pixelShader e) ∧
  is_Some (m_parameterBuffer e) ∧ is_Some (m_width e) ∧ is_Some (m_height e).

End PostProcessEffect_Base.

(** ** PostProcess.cpp: [class PostProcessManager] *)

Module PostProcessManager.
Import D3D.
Module Effect := PostProcessEffect_Base.

(** [m_effects] is the map from descriptor to owned instance and
    [m_effectOrder] the vector of descriptors in insertion order. *)
Record t := mk {
  m_device : option ID3D11Device;
  m_width : Z;
  m_height : Z;
  m_renderTarget1 : option handle;
  m_renderTarget2 : option handle;
  m_renderTargetView1 : option handle;
  m_renderTargetView2 : option handle;
  m_shaderResourceView1 : option handle;
  m_shaderResourceView2 : option handle;
  m_samplerState : option handle;
  m_effects : gmap PostProcessEffect Effect.t;
  m_effectOrder : list PostProcessEffect;
  m_parameters : PostProcessParams
}.

Definition new : t :=
  mk None 0 0 None None None None None None None ∅ [] PostProcessParams_default.

Definition set_target (dev : option ID3D11Device) (w h : Z) (m : t) : t :=
  mk dev w h (m_renderTarget1 m) (m_renderTarget2 m)
     (m_renderTargetView1 m) (m_renderTargetView2 m)
     (m_shaderResourceView1 m) (m_shaderResourceView2 m) (m_samplerState m)
     (m_effects m) (m_effectOrder m) (m_parameters m).

Definition set_device (dev : option ID3D11Device) (m : t) : t :=
  set_target dev (m_width m) (m_height m) m.

Definition set_renderTarget1 (p : option handle) (m : t) : t :=
  mk (m_device m) (m_width m) (m_height m) p (m_renderTarget2 m)
     (m_renderTargetView1 m) (m_renderTargetView2 m)
     (m_shaderResourceView1 m) (m_shaderResourceView2 m) (m_samplerState m)
     (m_effects m) (m_effectOrder m) (m_parameters m).

Definition set_renderTarget2 (p : option handle) (m : t) : t :=
  mk (m_device m) (m_width m) (m_height m) (m_renderTarget1 m) p
     (m_renderTargetView1 m) (m_renderTargetView2 m)
     (m_shaderResourceView1 m) (m_shaderResourceView2 m) (m_samplerState m)
     (m_effects m) (m_effectOrder m) (m_parameters m).

Definition set_renderTargetView1 (p : option handle) (m : t) : t :=
  mk (m_device m) (m_width m) (m_height m)
     (m_renderTarget1 m) (m_renderTarget2 m) p (m_renderTargetView2 m)
     (m_shaderResourceView1 m) (m_shaderResourceView2 m) (m_samplerState m)
     (m_effects m) (m_effectOrder m) (m_parameters m).

Definition set_renderTargetView2 (p : option handle) (m : t) : t :=
  mk (m_device m) (m_width m) (m_height m)
     (m_renderTarget1 m) (m_renderTarget2 m) (m_renderTargetView1 m) p
     (m_shaderResourceView1 m) (m_shaderResourceView2 m) (m_samplerState m)
     (m_effects m) (m_effectOrder m) (m_parameters m).

Definition set_shaderResourceView1 (p : option handle) (m : t) : t :=
  mk (m_device m) (m_width m) (m_height m)
     (m_renderTarget1 m) (m_renderTarget2 m)
     (m_renderTargetView1 m) (m_renderTargetView2 m)
     p (m_shaderResourceView2 m) (m_samplerState m)
     (m_effects m) (m_effectOrder m) (m_parameters m).

Definition set_shaderResourceView2 (p : option handle) (m : t) : t :=
  mk (m_device m) (m_width m) (m_height m)
     (m_renderTarget1 m) (m_renderTarget2 m)
     (m_renderTargetView1 m) (m_renderTargetView2 m)
     (m_shaderResourceView1 m) p (m_samplerState m)
     (m_effects m) (m_effectOrder m) (m_parameters m).

Definition set_samplerState (p : option handle) (m : t) : t :=
  mk (m_device m) (m_width m) (m_height m)
     (m_renderTarget1 m) (m_renderTarget2 m)
     (m_renderTargetView1 m) (m_renderTargetView2 m)
     (m_shaderResourceView1 m) (m_shaderResourceView2 m) p
     (m_effects m) (m_effectOrder m) (m_parameters m).

Definition set_chain (effects : gmap PostProcessEffect Effect.t)
    (order : list PostProcessEffect) (m : t) : t :=
  mk (m_device m) (m_width m) (m_height m)
     (m_renderTarget1 m) (m_renderTarget2 m)
     (m_renderTargetView1 m) (m_renderTargetView2 m)
     (m_shaderResourceView1 m) (m_shaderResourceView2 m) (m_samplerState m)
     effects order (m_parameters m).

Definition SetEffectParameters (params : PostProcessParams) (m : t) : t :=
  mk (m_device m) (m_width m) (m_height m)
     (m_renderTarget1 m) (m_renderTarget2 m)
     (m_renderTargetView1 m) (m_renderTargetView2 m)
     (m_shaderResourceView1 m) (m_shaderResourceView2 m) (m_samplerState m)
     (m_effects m) (m_effectOrder m) params.

(** The one texture description both render targets are created from. *)
Definition textureDesc (m : t) : D3D11_TEXTURE2D_DESC :=
  mkTextureDesc (to_UINT (m_width m)) (to_UINT (m_height m)) 1 1
    DXGI_FORMAT_R8G8B8A8_UNORM 1 0 D3D11_USAGE_DEFAULT
    (Z.lor D3D11_BIND_RENDER_TARGET D3D11_BIND_SHADER_RESOURCE) 0 0.

Definition CreateRenderTargets (m : t) (s : State) : bool * t * State :=
  match m_device m with
  | None => (false, m, s)
  | Some _ =>
    let '(rt1, s) := CreateTexture2D (textureDesc m) s in
    let m := set_renderTarget1 rt1 m in
    match rt1 with
    | None => (false, m, s)
    | Some t1 =>
      let '(rtv1, s) := CreateRenderTargetView t1 s in
      let m := set_renderTargetView1 rtv1 m in
      match rtv1 with
      | None => (false, m, s)
      | Some _ =>
        let '(srv1, s) := CreateShaderResourceView t1 s in
        let m := set_shaderResourceView1 srv1 m in
        match srv1 with
        | None => (false, m, s)
        | Some _ =>
          let '(rt2, s) := CreateTexture2D (textureDesc m) s in
          let m := set_renderTarget2 rt2 m in
          match rt2 with
          | None => (false, m, s)
          | Some t2 =>
            let '(rtv2, s) := CreateRenderTargetView t2 s in
            let m := set_renderTargetView2 rtv2 m in
            match rtv2 with
            | None => (false, m, s)
            | Some _ =>
              let '(srv2, s) := CreateShaderResourceView t2 s in
              let m := set_shaderResourceView2 srv2 m in
              match srv2 with
              | None => (false, m, s)
              | Some _ => (true, m, s)
              end
            end
          end
        end
      end
    end
  end.

Definition Initialize (device : option ID3D11Device) (width height : Z)
    (m : t) (s : State) : bool * t * State :=
  match device with
  | None => (false, m, s)
  | Some _ =>
    let m := set_target device width height m in
    let '(ok, m, s) := CreateRenderTargets m s in
    if ok then
      let '(sampler, s) := CreateSamplerState s in
      let m := set_samplerState sampler m in
      match sampler with
      | None => (false, m, s)
      | Some _ => (true, m, s)
      end
    else (false, m, s)
  end.

(** [Shutdown] shuts every instance down and clears [m_effects]; it
    releases the sampler, the views and the textures, and forgets the
    device.  It does not touch [m_effectOrder]. *)
Definition Shutdown (m : t) (s : State) : t * State :=
  let s := foldl (fun s e => (Effect.Shutdown e.2 s).2) s
                 (map_to_list (m_effects m)) in
  let s := SafeRelease (m_samplerState m) s in
  let s := SafeRelease (m_shaderResourceView2 m) s in
  let s := SafeRelease (m_shaderResourceView1 m) s in
  let s := SafeRelease (m_renderTargetView2 m) s in
  let s := SafeRelease (m_renderTargetView1 m) s in
  let s := SafeRelease (m_renderTarget2 m) s in
  let s := SafeRelease (m_renderTarget1 m) s in
  (mk None (m_width m) (m_height m) None None None None None None None
      ∅ (m_effectOrder m) (m_parameters m), s).

(** [AddEffect].  A failed instance is destroyed when [effect] goes out
    of scope; its destructor runs [Shutdown]. *)
Definition AddEffect (effectType : PostProcessEffect) (m : t) (s : State)
    : t * State :=
  match m_effects m !! effectType with
  | Some _ => (m, s)
  | None =>
    let '(ok, effect, s) :=
      Effect.Initialize (m_device m) (m_width m) (m_height m)
                        (Effect.new effectType) s in
    if ok then
      (set_chain (<[effectType := effect]> (m_effects m))
                 (m_effectOrder m ++ [effectType]) m, s)
    else (m, (Effect.Shutdown effect s).2)
  end.

(** [std::find] followed by [erase]: the first occurrence is removed. *)
Fixpoint erase_first (d : PostProcessEffect) (l : list PostProcessEffect)
    : list PostProcessEffect :=
  match l with
  | [] => []
  | a :: l' => if decide (a = d) then l' else a :: erase_first d l'
  end.

Definition RemoveEffect (effectType : PostProcessEffect) (m : t) (s : State)
    : t * State :=
  match m_effects m !! effectType with
  | Some e =>
    (set_chain (delete effectType (m_effects m))
               (erase_first effectType (m_effectOrder m)) m,
     (Effect.Shutdown e s).2)
  | None => (m, s)
  end.

Definition SetEffectEnabled (effectType : PostProcessEffect) (enabled : bool)
    (m : t) : t :=
  match m_effects m !! effectType with
  | Some e =>
    set_chain (<[effectType := Effect.SetEnabled enabled e]> (m_effects m))
              (m_effectOrder m) m
  | None => m
  end.

(** The whole program: the device, and the function-local static
    [copyEffect] of [CopyTexture], which belongs to no manager. *)
Record Program := mkProgram {
  device_state : State;
  copyEffect : option Effect.t
}.

Definition CopyTexture (context : option ID3D11DeviceContext)
    (input output : option handle) (m : t) (p : Program) : option Program :=
  match context, input, output with
  | Some _, Some _, Some _ =>
    let '(effect, s) :=
      match copyEffect p with
      | Some e => (e, device_state p)
      | None =>
        let '(_, e, s) :=
          Effect.Initialize (m_device m) (m_width m) (m_height m)
                            (Effect.new None_) (device_state p) in
        (e, s)
      end in
    s' ← Effect.Apply context input output PostProcessParams_default effect s;
    Some (mkProgram s' (Some effect))
  | _, _, _ => Some p
  end.

(** The locals of the loop of [Process] that live across iterations. *)
Record Locals := mkLocals {
  dev : State;
  currentInput : option handle;
  useRT1 : bool
}.

(** The body of [for (size_t i = 0; i < m_effectOrder.size(); ++i)].
    It runs only for [i < size], so [size - 1] does not wrap. *)
Definition Process_body (context : option ID3D11DeviceContext)
    (outputTarget : option handle) (m : t) (i : nat) (st : Locals)
    : option Locals :=
  match m_effectOrder m !! i with
  | None => Some st
  | Some effectType =>
    match m_effects m !! effectType with
    | None => Some st
    | Some e =>
      if negb (Effect.IsEnabled e) then Some st
      else
        let size := length (m_effectOrder m) in
        let currentOutput :=
          if Nat.eqb i (size - 1) then outputTarget
          else if useRT1 st then m_renderTargetView1 m
               else m_renderTargetView2 m in
        s ← Effect.Apply context (currentInput st) currentOutput
                         (m_parameters m) e (dev st);
        if Nat.ltb i (size - 1) then
          Some (mkLocals s
                  (if useRT1 st then m_shaderResourceView1 m
                   else m_shaderResourceView2 m)
                  (negb (useRT1 st)))
        else Some (mkLocals s (currentInput st) (useRT1 st))
    end
  end.

(** [n] iterations of the loop starting at index [i]. *)
Fixpoint Process_loop (context : option ID3D11DeviceContext)
    (outputTarget : option handle) (m : t) (n i : nat) (st : Locals)
    : option Locals :=
  match n with
  | O => Some st
  | S n' =>
    st' ← Process_body context outputTarget m i st;
    Process_loop context outputTarget m n' (S i) st'
  end.

Definition Process (context : option ID3D11DeviceContext)
    (inputTexture outputTarget : option handle) (m : t) (p : Program)
    : option Program :=
  match context, inputTexture, outputTarget, m_effectOrder m with
  | Some _, Some _, Some _, _ :: _ =>
    let s := PSSetSamplers (m_samplerState m) (device_state p) in
    st ← Process_loop context outputTarget m (length (m_effectOrder m)) 0
                      (mkLocals s inputTexture true);
    Some (mkProgram (PSSetSamplers None (dev st)) (copyEffect p))
  | _, _, _, _ => CopyTexture context inputTexture outputTarget m p
  end.

End PostProcessManager.

(** ** The hosting program

    The static [copyEffect] outlives every manager, so claims about it are
    about whole runs of the program: any number of managers over the one
    device, created, initialised, shut down, edited and asked to process
    frames in any order. *)

Module Engine.
Import D3D PostProcessManager.

Record World := mkWorld {
  managers : gmap nat PostProcessManager.t;
  program : Program
}.

Inductive Op :=
  | OpCreate (id : nat)
  | OpInitialize (id : nat) (device : option ID3D11Device) (width height : Z)
  | OpShutdown (id : nat)
  | OpAddEffect (id : nat) (effectType : PostProcessEffect)
  | OpRemoveEffect (id : nat) (effectType : PostProcessEffect)
  | OpSetEffectEnabled (id : nat) (effectType : PostProcessEffect) (enabled : bool)
  | OpProcess (id : nat) (context : option ID3D11DeviceContext)
              (inputTexture outputTarget : option handle).

(** A member function that uses the device but not the static. *)
Definition call (id : nat) (f : PostProcessManager.t → State → PostProcessManager.t * State)
    (w : World) : option World :=
  m ← managers w !! id;
  let '(m', s') := f m (device_state (program w)) in
  Some (mkWorld (<[id := m']> (managers w))
                (mkProgram s' (copyEffect (program w)))).

(** One operation of the program; [None] when the manager does not
    exist or the call has undefined behaviour. *)
Definition step (op : Op) (w : World) : option World :=
  match op with
  | OpCreate id =>
      Some (mkWorld (<[id := PostProcessManager.new]> (managers w)) (program w))
  | OpInitialize id device width height =>
      call id (fun m s =>
        let '(_, m', s') := Initialize device width height m s in (m', s')) w
  | OpShutdown id => call id Shutdown w
  | OpAddEffect id d => call id (AddEffect d) w
  | OpRemoveEffect id d => call id (RemoveEffect d) w
  | OpSetEffectEnabled id d enabled =>
      call id (fun m s => (SetEffectEnabled d enabled m, s)) w
  | OpProcess id context inputTexture outputTarget =>
      m ← managers w !! id;
      p' ← Process context inputTexture outputTarget m (program w);
      Some (mkWorld (managers w) p')
  end.

Fixpoint run (ops : list Op) (w : World) : option World :=
  match ops with
  | [] => Some w
  | op :: ops' => w' ← step op w; run ops' w'
  end.

Definition World_initial (script : list bool) : World :=
  mkWorld ∅ (mkProgram (State_initial script) None).

End Engine.

(** ** A concrete run: the engine's demo chain *)

Module Demo.
Import D3D PostProcessManager.

(** The scene's shader-resource view and the back buffer's render-target
    view belong to the engine, not to the manager. *)
Definition sceneTexture : handle := 1001%positive.
Definition backBuffer : handle := 1002%positive.

(** [Initialize(device, 1280, 720)] followed by the given [AddEffect]
    calls, on a device whose calls succeed or fail as [script] says. *)
Definition startup (script : list bool) (chain : list PostProcessEffect)
    : t * State :=
  let '(_, m, s) :=
    Initialize (Some TheDevice) 1280 720 new (State_initial script) in
  foldl (fun ms d => AddEffect d ms.1 ms.2) (m, s) chain.

Definition frame (ms : t * State) : option Program :=
  Process (Some ImmediateContext) (Some sceneTexture) (Some backBuffer)
          ms.1 (mkProgram ms.2 None).

(** The render targets written by the draws of a run, in order. *)
Definition targets_written (r : option Program) : option (list (option handle)) :=
  p ← r; Some (map OMRenderTarget (draws (log (device_state p)))).

(** The textures read by the draws of a run, in order. *)
Definition textures_read (r : option Program) : option (list (option handle)) :=
  p ← r; Some (map PSShaderResource0 (draws (log (device_state p)))).

Definition disable (d : PostProcessEffect) (ms : t * State) : t * State :=
  (SetEffectEnabled d false ms.1, ms.2).

(** A program with one manager, initialised at 1280 by 720 with an empty
    chain, before any frame was processed. *)
Definition one_manager : Engine.World :=
  Engine.mkWorld {[ 0%nat := (startup [] []).1 ]}
                 (mkProgram (startup [] []).2 None).

(** What the program does after its first frame: a second manager of
    another size is created, the first is shut down and initialised
    again at 1920 by 1080, and both process a frame. *)
Definition later_ops : list Engine.Op :=
  [ Engine.OpCreate 1;
    Engine.OpInitialize 1 (Some TheDevice) 640 480;
    Engine.OpShutdown 0;
    Engine.OpInitialize 0 (Some TheDevice) 1920 1080;
    Engine.OpProcess 0 (Some ImmediateContext) (Some sceneTexture) (Some backBuffer);
    Engine.OpProcess 1 (Some ImmediateContext) (Some sceneTexture) (Some backBuffer) ].

(** The demo chain with its middle effect switched off. *)
Definition chain3 : t * State :=
  disable ToneMapping (startup [] [Bloom; ToneMapping; Vignette]).

(** A program that creates a manager, initialises it, adds Bloom, shuts
    the manager down and initialises it again. *)
Definition restart_ops : list Engine.Op :=
  [ Engine.OpCreate 0;
    Engine.OpInitialize 0 (Some TheDevice) 1280 720;
    Engine.OpAddEffect 0 Bloom;
    Engine.OpShutdown 0;
    Engine.OpInitialize 0 (Some TheDevice) 1280 720 ].

(** The manager of that program, and the device, when it ends. *)
Definition restarted : t * State :=
  let ms := Shutdown (startup [] [Bloom]).1 (startup [] [Bloom]).2 in
  let '(_, m, s) := Initialize (Some TheDevice) 1280 720 ms.1 ms.2 in
  (m, s).

End Demo.

(** ** The demo application: [class BasicEngineExample]

    The members are those that [TogglePostProcessing],
    [NextPostProcessEffect] and [SetupPostProcessing] use.
    [m_postProcessor] is a [unique_ptr], [None] when null. *)

Module BasicEngineExample.
Import D3D PostProcessManager.

Record t := mk {
  m_postProcessor : option PostProcessManager.t;
  m_postProcessingEnabled : bool;
  m_currentEffectSetup : Z
}.

Definition INT_MAX : Z := 2 ^ 31 - 1.

Definition set_postProcessor (m : option PostProcessManager.t) (a : t) : t :=
  mk m (m_postProcessingEnabled a) (m_currentEffectSetup a).

Definition set_currentEffectSetup (k : Z) (a : t) : t :=
  mk (m_postProcessor a) (m_postProcessingEnabled a) k.

Definition TogglePostProcessing (a : t) : t :=
  mk (m_postProcessor a) (negb (m_postProcessingEnabled a))
     (m_currentEffectSetup a).

(** Assignments through [auto& params = GetEffectParameters()]. *)
Definition set_intensity (v : Q) (p : PostProcessParams) : PostProcessParams :=
  mkPostProcessParams v (threshold p) (radius p) (sigma p) (colorTint p)
    (contrast p) (brightness p) (saturation p) (gamma p)
    (bloomThreshold p) (bloomIntensity p) (bloomBlurPasses p)
    (exposure p) (whitePoint p)
    (fxaaSpanMax p) (fxaaReduceMin p) (fxaaReduceMul p)
    (vignetteRadius p) (vignetteSoftness p) (vignetteColor p).

Definition set_bloomThreshold (v : Q) (p : PostProcessParams) : PostProcessParams :=
  mkPostProcessParams (intensity p) (threshold p) (radius p) (sigma p) (colorTint p)
    (contrast p) (brightness p) (saturation p) (gamma p)
    v (bloomIntensity p) (bloomBlurPasses p)
    (exposure p) (whitePoint p)
    (fxaaSpanMax p) (fxaaReduceMin p) (fxaaReduceMul p)
    (vignetteRadius p) (vignetteSoftness p) (vignetteColor p).

Definition set_bloomIntensity (v : Q) (p : PostProcessParams) : PostProcessParams :=
  mkPostProcessParams (intensity p) (threshold p) (radius p) (sigma p) (colorTint p)
    (contrast p) (brightness p) (saturation p) (gamma p)
    (bloomThreshold p) v (bloomBlurPasses p)
    (exposure p) (whitePoint p)
    (fxaaSpanMax p) (fxaaReduceMin p) (fxaaReduceMul p)
    (vignetteRadius p) (vignetteSoftness p) (vignetteColor p).

Definition set_exposure (v : Q) (p : PostProcessParams) : PostProcessParams :=
  mkPostProcessParams (intensity p) (threshold p) (radius p) (sigma p) (colorTint p)
    (contrast p) (brightness p) (saturation p) (gamma p)
    (bloomThreshold p) (bloomIntensity p) (bloomBlurPasses p)
    v (whitePoint p)
    (fxaaSpanMax p) (fxaaReduceMin p) (fxaaReduceMul p)
    (vignetteRadius p) (vignetteSoftness p) (vignetteColor p).

Definition set_whitePoint (v : Q) (p : PostProcessParams) : PostProcessParams :=
  mkPostProcessParams (intensity p) (threshold p) (radius p) (sigma p) (colorTint p)
    (contrast p) (brightness p) (saturation p) (gamma p)
    (bloomThreshold p) (bloomIntensity p) (bloomBlurPasses p)
    (exposure p) v
    (fxaaSpanMax p) (fxaaReduceMin p) (fxaaReduceMul p)
    (vignetteRadius p) (vignetteSoftness p) (vignetteColor p).

Definition set_vignetteRadius (v : Q) (p : PostProcessParams) : PostProcessParams :=
  mkPostProcessParams (intensity p) (threshold p) (radius p) (sigma p) (colorTint p)
    (contrast p) (brightness p) (saturation p) (gamma p)
    (bloomThreshold p) (bloomIntensity p) (bloomBlurPasses p)
    (exposure p) (whitePoint p)
    (fxaaSpanMax p) (fxaaReduceMin p) (fxaaReduceMul p)
    v (vignetteSoftness p) (vignetteColor p).

Definition set_vignetteSoftness (v : Q) (p : PostProcessParams) : PostProcessParams :=
  mkPostProcessParams (intensity p) (threshold p) (radius p) (sigma p) (colorTint p)
    (contrast p) (brightness p) (saturation p) (gamma p)
    (bloomThreshold p) (bloomIntensity p) (bloomBlurPasses p)
    (exposure p) (whitePoint p)
    (fxaaSpanMax p) (fxaaReduceMin p) (fxaaReduceMul p)
    (vignetteRadius p) v (vignetteColor p).

(** The body of [switch (m_currentEffectSetup)]: the effects added and
    the parameters assigned by each case. *)
Definition setup_case (k : Z) (m : PostProcessManager.t) (s : State)
    : PostProcessManager.t * State :=
  match k with
  | 0 => (m, s)
  | 1 =>
    let ms := AddEffect Bloom m s in
    let ms := AddEffect ToneMapping ms.1 ms.2 in
    let ms := AddEffect Vignette ms.1 ms.2 in
    let p := m_parameters ms.1 in
    let p := set_bloomThreshold (12 # 10) p in
    let p := set_bloomIntensity (15 # 10) p in
    let p := set_exposure (18 # 10) p in
    let p := set_vignetteRadius (8 # 10) p in
    let p := set_vignetteSoftness (3 # 10) p in
    (SetEffectParameters p ms.1, ms.2)
  | 2 =>
    let ms := AddEffect Grayscale m s in
    let ms := AddEffect Vignette ms.1 ms.2 in
    let p := m_parameters ms.1 in
    let p := set_intensity (7 # 10) p in
    let p := set_vignetteRadius (6 # 10) p in
    let p := set_vignetteSoftness (4 # 10) p in
    (SetEffectParameters p ms.1, ms.2)
  | 3 =>
    let ms := AddEffect Bloom m s in
    let ms := AddEffect ToneMapping ms.1 ms.2 in
    let p := m_parameters ms.1 in
    let p := set_bloomThreshold (8 # 10) p in
    let p := set_bloomIntensity 2 p in
    let p := set_exposure (22 # 10) p in
    let p := set_whitePoint (12 # 10) p in
    (SetEffectParameters p ms.1, ms.2)
  | _ => (m, s)
  end.

Definition SetupPostProcessing (a : t) (s : State) : t * State :=
  match m_postProcessor a with
  | None => (a, s)
  | Some m =>
    let ms := RemoveEffect Bloom m s in
    let ms := RemoveEffect ToneMapping ms.1 ms.2 in
    let ms := RemoveEffect Vignette ms.1 ms.2 in
    let ms := RemoveEffect Grayscale ms.1 ms.2 in
    let ms := setup_case (m_currentEffectSetup a) ms.1 ms.2 in
    (set_postProcessor (Some ms.1) a, ms.2)
  end.

(** [m_currentEffectSetup = (m_currentEffectSetup + 1) % 4] in [int]:
    the sum must not overflow, and [%] truncates towards zero. *)
Definition NextPostProcessEffect (a : t) (s : State) : option (t * State) :=
  if decide (m_currentEffectSetup a + 1 ≤ INT_MAX) then
    Some (SetupPostProcessing
            (set_currentEffectSetup (Z.rem (m_currentEffectSetup a + 1) 4) a) s)
  else None.

End BasicEngineExample.

(** [std::string] is stdpp's [string]. *)
From stdpp Require Import strings.
Local Open Scope Z_scope.

(** ** Shader.cpp in detail: the compiler and the device calls of
    [class Shader]

    The pipeline above treats a [Shader] as one device object.  Here the
    class is embedded member by member: the bytecode blob of
    [D3DCompile], the shader object and the input layout are separate
    objects, each call succeeds or fails on its own, and the context has
    an input-layout slot. *)

Module ShaderDevice.
Import D3D.

Inductive LayoutFormat :=
  | DXGI_FORMAT_R32G32_FLOAT
  | DXGI_FORMAT_R32G32B32_FLOAT
  | DXGI_FORMAT_R32G32B32A32_FLOAT.

Inductive D3D11_INPUT_CLASSIFICATION :=
  | D3D11_INPUT_PER_VERTEX_DATA | D3D11_INPUT_PER_INSTANCE_DATA.

(** [struct InputLayoutElement] of Shader.h. *)
Record InputLayoutElement := mkInputLayoutElement {
  semanticName : string;
  semanticIndex : Z;
  format : LayoutFormat;
  inputSlot : Z;
  alignedByteOffset : Z;
  inputSlotClass : D3D11_INPUT_CLASSIFICATION;
  instanceDataStepRate : Z
}.

Inductive Object :=
  | Blob (code entryPoint profile : string)
  | VertexShaderObject (bytecode : handle)
  | PixelShaderObject (bytecode : handle)
  | InputLayoutObject (elements : list InputLayoutElement) (bytecode : handle).

Inductive Event :=
  | Created (h : handle) (o : Object)
  | Released (h : handle).

(** The shader stage bindings of the context. *)
Record Bindings := mkBindings {
  VS : option handle;
  PS : option handle;
  IAInputLayout : option handle
}.

Record State := mkState {
  next_handle : handle;
  outcomes : list bool;
  bindings : Bindings;
  log : list Event
}.

Definition State_initial (script : list bool) : State :=
  mkState 1%positive script (mkBindings None None None) [].

(** A call that returns an object through an out pointer: whether it
    succeeds is the next outcome of the script; a script that is used up
    means success. *)
Definition create (o : Object) (s : State) : option handle * State :=
  match outcomes s with
  | [] =>
    (Some (next_handle s),
     mkState (Pos.succ (next_handle s)) [] (bindings s)
             (log s ++ [Created (next_handle s) o]))
  | true :: rest =>
    (Some (next_handle s),
     mkState (Pos.succ (next_handle s)) rest (bindings s)
             (log s ++ [Created (next_handle s) o]))
  | false :: rest => (None, mkState (next_handle s) rest (bindings s) (log s))
  end.

(** [D3DCompile].  An error blob, when one is returned, is released by
    the caller on both paths before anything else happens and is left
    out. *)
Definition D3DCompile (code entryPoint profile : string) :=
  create (Blob code entryPoint profile).

Definition CreateVertexShader (bytecode : handle) :=
  create (VertexShaderObject bytecode).

Definition CreatePixelShader (bytecode : handle) :=
  create (PixelShaderObject bytecode).

Definition CreateInputLayout (elements : list InputLayoutElement)
    (bytecode : handle) :=
  create (InputLayoutObject elements bytecode).

Definition Release (h : handle) (s : State) : State :=
  mkState (next_handle s) (outcomes s) (bindings s) (log s ++ [Released h]).

(** [if (p) { p->Release(); p = nullptr; }] *)
Definition SafeRelease (p : option handle) (s : State) : State :=
  match p with Some h => Release h s | None => s end.

Definition set_bindings (b : Bindings) (s : State) : State :=
  mkState (next_handle s) (outcomes s) b (log s).

Definition VSSetShader (p : option handle) (s : State) : State :=
  set_bindings (mkBindings p (PS (bindings s)) (IAInputLayout (bindings s))) s.

Definition PSSetShader (p : option handle) (s : State) : State :=
  set_bindings (mkBindings (VS (bindings s)) p (IAInputLayout (bindings s))) s.

Definition IASetInputLayout (p : option handle) (s : State) : State :=
  set_bindings (mkBindings (VS (bindings s)) (PS (bindings s)) p) s.

Definition creations (l : list Event) : list (handle * Object) :=
  omap (fun e => match e with Created h o => Some (h, o) | _ => None end) l.

Definition releases (l : list Event) : list handle :=
  omap (fun e => match e with Released h => Some h | _ => None end) l.

End ShaderDevice.

(** ** Shader.cpp: [class Shader] *)

Module Shader.
Import D3D ShaderDevice.

Record t := mk {
  m_type : ShaderType;
  m_entryPoint : string;
  m_filepath : string;
  m_vertexShader : option handle;
  m_pixelShader : option handle;
  m_geometryShader : option handle;
  m_hullShader : option handle;
  m_domainShader : option handle;
  m_computeShader : option handle;
  m_inputLayout : option handle;
  m_shaderBlob : option handle;
  m_isCompiled : bool
}.

(** [Shader::Shader()] *)
Definition new : t :=
  mk Vertex "" "" None None None None None None None None false.

Definition GetShaderProfile (type : ShaderType) : string :=
  match type with
  | Vertex => "vs_5_0"
  | Pixel => "ps_5_0"
  | Geometry => "gs_5_0"
  | Hull => "hs_5_0"
  | Domain => "ds_5_0"
  | Compute => "cs_5_0"
  end.

Definition ReleaseShaderResources (sh : t) (s : State) : t * State :=
  let s := SafeRelease (m_vertexShader sh) s in
  let s := SafeRelease (m_pixelShader sh) s in
  let s := SafeRelease (m_geometryShader sh) s in
  let s := SafeRelease (m_hullShader sh) s in
  let s := SafeRelease (m_domainShader sh) s in
  let s := SafeRelease (m_computeShader sh) s in
  (mk (m_type sh) (m_entryPoint sh) (m_filepath sh)
      None None None None None None
      (m_inputLayout sh) (m_shaderBlob sh) (m_isCompiled sh), s).

Definition Shutdown (sh : t) (s : State) : t * State :=
  let '(sh, s) := ReleaseShaderResources sh s in
  let s := SafeRelease (m_inputLayout sh) s in
  let s := SafeRelease (m_shaderBlob sh) s in
  (mk (m_type sh) "" ""
      (m_vertexShader sh) (m_pixelShader sh) (m_geometryShader sh)
      (m_hullShader sh) (m_domainShader sh) (m_computeShader sh)
      None None false, s).

Definition IsValid (sh : t) : bool :=
  m_isCompiled sh &&
  (bool_decide (m_vertexShader sh ≠ None) ||
   bool_decide (m_pixelShader sh ≠ None) ||
   bool_decide (m_geometryShader sh ≠ None) ||
   bool_decide (m_hullShader sh ≠ None) ||
   bool_decide (m_domainShader sh ≠ None) ||
   bool_decide (m_computeShader sh ≠ None)).

Definition set_compiling (type : ShaderType) (entryPoint : string) (sh : t) : t :=
  mk type entryPoint (m_filepath sh)
     (m_vertexShader sh) (m_pixelShader sh) (m_geometryShader sh)
     (m_hullShader sh) (m_domainShader sh) (m_computeShader sh)
     (m_inputLayout sh) (m_shaderBlob sh) (m_isCompiled sh).

Definition set_shaderBlob (p : option handle) (sh : t) : t :=
  mk (m_type sh) (m_entryPoint sh) (m_filepath sh)
     (m_vertexShader sh) (m_pixelShader sh) (m_geometryShader sh)
     (m_hullShader sh) (m_domainShader sh) (m_computeShader sh)
     (m_inputLayout sh) p (m_isCompiled sh).

Definition set_vertexShader (p : option handle) (sh : t) : t :=
  mk (m_type sh) (m_entryPoint sh) (m_filepath sh)
     p (m_pixelShader sh) (m_geometryShader sh)
     (m_hullShader sh) (m_domainShader sh) (m_computeShader sh)
     (m_inputLayout sh) (m_shaderBlob sh) (m_isCompiled sh).

Definition set_pixelShader (p : option handle) (sh : t) : t :=
  mk (m_type sh) (m_entryPoint sh) (m_filepath sh)
     (m_vertexShader sh) p (m_geometryShader sh)
     (m_hullShader sh) (m_domainShader sh) (m_computeShader sh)
     (m_inputLayout sh) (m_shaderBlob sh) (m_isCompiled sh).

Definition set_inputLayout (p : option handle) (sh : t) : t :=
  mk (m_type sh) (m_entryPoint sh) (m_filepath sh)
     (m_vertexShader sh) (m_pixelShader sh) (m_geometryShader sh)
     (m_hullShader sh) (m_domainShader sh) (m_computeShader sh)
     p (m_shaderBlob sh) (m_isCompiled sh).

Definition set_isCompiled (b : bool) (sh : t) : t :=
  mk (m_type sh) (m_entryPoint sh) (m_filepath sh)
     (m_vertexShader sh) (m_pixelShader sh) (m_geometryShader sh)
     (m_hullShader sh) (m_domainShader sh) (m_computeShader sh)
     (m_inputLayout sh) (m_shaderBlob sh) b.

Definition set_filepath (path : string) (sh : t) : t :=
  mk (m_type sh) (m_entryPoint sh) path
     (m_vertexShader sh) (m_pixelShader sh) (m_geometryShader sh)
     (m_hullShader sh) (m_domainShader sh) (m_computeShader sh)
     (m_inputLayout sh) (m_shaderBlob sh) (m_isCompiled sh).

(** [Shader::CreateInputLayout] (private). *)
Definition CreateInputLayout (device : option ID3D11Device)
    (layoutElements : list InputLayoutElement) (sh : t) (s : State)
    : bool * t * State :=
  match device, layoutElements, m_shaderBlob sh with
  | Some _, _ :: _, Some blob =>
    let '(layout, s) := ShaderDevice.CreateInputLayout layoutElements blob s in
    match layout with
    | Some _ => (true, set_inputLayout layout sh, s)
    | None => (false, sh, s)
    end
  | _, _, _ => (false, sh, s)
  end.

Definition CompileFromString (device : option ID3D11Device)
    (shaderCode entryPoint : string) (type : ShaderType)
    (layoutElements : list InputLayoutElement) (sh : t) (s : State)
    : bool * t * State :=
  if bool_decide (device = None ∨ shaderCode = "" ∨ entryPoint = "")
  then (false, sh, s)
  else
    let '(sh, s) := Shutdown sh s in
    let sh := set_compiling type entryPoint sh in
    let '(blob, s) := D3DCompile shaderCode entryPoint (GetShaderProfile type) s in
    match blob with
    | None => (false, sh, s)
    | Some bytecode =>
      let sh := set_shaderBlob blob sh in
      match type with
      | Vertex =>
        let '(vs, s) := CreateVertexShader bytecode s in
        match vs with
        | Some _ =>
          let sh := set_vertexShader vs sh in
          match layoutElements with
          | _ :: _ =>
            let '(ok, sh, s) := CreateInputLayout device layoutElements sh s in
            if ok then (true, set_isCompiled true sh, s) else (false, sh, s)
          | [] => (true, set_isCompiled true sh, s)
          end
        | None => (false, sh, s)
        end
      | Pixel =>
        let '(ps, s) := CreatePixelShader bytecode s in
        match ps with
        | Some _ => (true, set_isCompiled true (set_pixelShader ps sh), s)
        | None => (false, sh, s)
        end
      | _ => (false, sh, s)
      end
    end.

(** [CompileFromFile]: the file system is the map from the paths that
    can be opened to their contents. *)
Definition CompileFromFile (files : gmap string string)
    (device : option ID3D11Device) (filepath entryPoint : string)
    (type : ShaderType) (layoutElements : list InputLayoutElement)
    (sh : t) (s : State) : bool * t * State :=
  match files !! filepath with
  | None => (false, sh, s)
  | Some content =>
    CompileFromString device content entryPoint type layoutElements
                      (set_filepath filepath sh) s
  end.

Definition Bind (context : option ID3D11DeviceContext) (sh : t) (s : State)
    : State :=
  match context with
  | None => s
  | Some _ =>
    if negb (m_isCompiled sh) then s
    else
      match m_type sh with
      | Vertex =>
        let s := VSSetShader (m_vertexShader sh) s in
        match m_inputLayout sh with
        | Some _ => IASetInputLayout (m_inputLayout sh) s
        | None => s
        end
      | Pixel => PSSetShader (m_pixelShader sh) s
      | _ => s
      end
  end.

Definition Unbind (context : option ID3D11DeviceContext) (sh : t) (s : State)
    : State :=
  match context with
  | None => s
  | Some _ =>
    match m_type sh with
    | Vertex => IASetInputLayout None (VSSetShader None s)
    | Pixel => PSSetShader None s
    | _ => s
    end
  end.

End Shader.

(** ** Shader.cpp: [namespace ShaderUtils], on the detailed device *)

Module ShaderUtilsImpl.
Import D3D ShaderDevice.

Definition CreateBasicInputLayout : list InputLayoutElement :=
  [ mkInputLayoutElement "POSITION" 0 DXGI_FORMAT_R32G32B32_FLOAT 0 0
      D3D11_INPUT_PER_VERTEX_DATA 0;
    mkInputLayoutElement "NORMAL" 0 DXGI_FORMAT_R32G32B32_FLOAT 0 12
      D3D11_INPUT_PER_VERTEX_DATA 0;
    mkInputLayoutElement "TEXCOORD" 0 DXGI_FORMAT_R32G32_FLOAT 0 24
      D3D11_INPUT_PER_VERTEX_DATA 0 ].

Definition CreatePositionColorLayout : list InputLayoutElement :=
  [ mkInputLayoutElement "POSITION" 0 DXGI_FORMAT_R32G32B32_FLOAT 0 0
      D3D11_INPUT_PER_VERTEX_DATA 0;
    mkInputLayoutElement "COLOR" 0 DXGI_FORMAT_R32G32B32A32_FLOAT 0 12
      D3D11_INPUT_PER_VERTEX_DATA 0 ].

(** [make_shared<Shader>()], [CompileFromString], and on failure the
    destruction of the only owner, which runs [Shutdown]. *)
Definition CreateVertexShaderFromString (device : option ID3D11Device)
    (shaderCode : string) (layout : list InputLayoutElement) (s : State)
    : option Shader.t * State :=
  let '(ok, shader, s) :=
    Shader.CompileFromString device shaderCode "main" Vertex layout
                             Shader.new s in
  if ok then (Some shader, s) else (None, (Shader.Shutdown shader s).2).

Definition CreatePixelShaderFromString (device : option ID3D11Device)
    (shaderCode : string) (s : State) : option Shader.t * State :=
  let '(ok, shader, s) :=
    Shader.CompileFromString device shaderCode "main" Pixel [] Shader.new s in
  if ok then (Some shader, s) else (None, (Shader.Shutdown shader s).2).

End ShaderUtilsImpl.

(** ** Shader.cpp: [class ShaderProgram]

    The program owns its two shaders through [std::shared_ptr]s, which
    other parts of the engine may share.  A pointer is null or the
    address of a shader on the heap; the heap keeps with each shader the
    number of pointers that own it.  A pointer that is counted never
    dangles. *)

Module ShaderProgram.
Import D3D ShaderDevice.

Definition ptr := positive.

Record Heap := mkHeap {
  shaders : gmap ptr (Shader.t * nat);
  device : State
}.

(** The copy of a [shared_ptr]: one more owner. *)
Definition share (p : option ptr) (h : Heap) : Heap :=
  match p with
  | None => h
  | Some a =>
    match shaders h !! a with
    | Some (sh, n) => mkHeap (<[a := (sh, S n)]> (shaders h)) (device h)
    | None => h
    end
  end.

(** [reset()], or the destruction of a [shared_ptr]: one owner less.
    The last owner deletes the shader, whose destructor runs
    [Shutdown]. *)
Definition unshare (p : option ptr) (h : Heap) : Heap :=
  match p with
  | None => h
  | Some a =>
    match shaders h !! a with
    | Some (sh, S (S n)) => mkHeap (<[a := (sh, S n)]> (shaders h)) (device h)
    | Some (sh, _) =>
      mkHeap (delete a (shaders h)) (Shader.Shutdown sh (device h)).2
    | None => h
    end
  end.

Record t := mk {
  m_vertexShader : option ptr;
  m_pixelShader : option ptr
}.

(** [ShaderProgram::ShaderProgram()] *)
Definition new : t := mk None None.

(** [m_vertexShader = vertexShader]: the new shader gains an owner
    before the old one loses one.  The by-value parameter is one more
    copy, made and destroyed by the call. *)
Definition SetVertexShader (vertexShader : option ptr) (p : t) (h : Heap)
    : t * Heap :=
  let h := share vertexShader h in
  let h := share vertexShader h in
  let h := unshare (m_vertexShader p) h in
  let h := unshare vertexShader h in
  (mk vertexShader (m_pixelShader p), h).

Definition SetPixelShader (pixelShader : option ptr) (p : t) (h : Heap)
    : t * Heap :=
  let h := share pixelShader h in
  let h := share pixelShader h in
  let h := unshare (m_pixelShader p) h in
  let h := unshare pixelShader h in
  (mk (m_vertexShader p) pixelShader, h).

(** [p->f(context)] through a pointer that may be null. *)
Definition through (f : Shader.t → State → State) (p : option ptr) (h : Heap)
    : Heap :=
  match p with
  | None => h
  | Some a =>
    match shaders h !! a with
    | Some (sh, _) => mkHeap (shaders h) (f sh (device h))
    | None => h
    end
  end.

Definition Bind (context : option ID3D11DeviceContext) (p : t) (h : Heap)
    : Heap :=
  match context with
  | None => h
  | Some _ =>
    let h := through (Shader.Bind context) (m_vertexShader p) h in
    through (Shader.Bind context) (m_pixelShader p) h
  end.

Definition Unbind (context : option ID3D11DeviceContext) (p : t) (h : Heap)
    : Heap :=
  match context with
  | None => h
  | Some _ =>
    let h := through (Shader.Unbind context) (m_vertexShader p) h in
    through (Shader.Unbind context) (m_pixelShader p) h
  end.

Definition valid_at (p : option ptr) (h : Heap) : bool :=
  match p with
  | None => false
  | Some a =>
    match shaders h !! a with
    | Some (sh, _) => Shader.IsValid sh
    | None => false
    end
  end.

Definition IsValid (p : t) (h : Heap) : bool :=
  valid_at (m_vertexShader p) h && valid_at (m_pixelShader p) h.

Definition Shutdown (p : t) (h : Heap) : t * Heap :=
  let h := unshare (m_vertexShader p) h in
  let h := unshare (m_pixelShader p) h in
  (mk None None, h).

End ShaderProgram.

(** ** The vocabulary of the statements *)

Module Spec.
Import D3D PostProcessManager.

(** What a stretch of execution appended to the log. *)
Definition extends (s s' : State) (evs : list Event) : Prop :=
  log s' = log s ++ evs.

(** What a draw issued by [Apply] has bound. *)
Definition pass_of (e : Effect.t) (input output : handle)
    (sampler : option handle) (d : Pipeline) : Prop :=
  OMRenderTarget d = Some output ∧ PSShaderResource0 d = Some input ∧
  VSShader d = Effect.m_vertexShader e ∧ PSShader d = Effect.m_pixelShader e ∧
  PSConstantBuffer0 d = Effect.m_parameterBuffer e ∧ PSSampler0 d = sampler.

(** The events of a successful [Initialize]. *)
Definition init_events (ty : PostProcessEffect) (vs ps buf : handle)
    : list Event :=
  [ Created vs (ShaderObject Vertex FULLSCREEN_QUAD_VS);
    Created ps (ShaderObject Pixel (Effect.GetPixelShaderCode (Effect.new ty)));
    Created buf (Buffer Effect.parameterBufferDesc) ].

(** Every stored instance is fully initialised. *)
Definition all_initialized (m : t) : Prop :=
  ∀ d e, m_effects m !! d = Some e → Effect.initialized e.

(** The order list names exactly the active descriptors, once each. *)
Definition consistent (m : t) : Prop :=
  NoDup (m_effectOrder m) ∧
  ∀ d, d ∈ m_effectOrder m ↔ is_Some (m_effects m !! d).

(** The number of entries of the order list that name [d]. *)
Definition entries (d : PostProcessEffect) (m : t) : nat :=
  length (filter (fun a => a = d) (m_effectOrder m)).

(** One call of [Apply] made by the loop. *)
Record Pass := mkPass {
  pass_effect : Effect.t;
  pass_input : option handle;
  pass_output : option handle
}.

Definition pingRTV (m : t) (rt1 : bool) : option handle :=
  if rt1 then m_renderTargetView1 m else m_renderTargetView2 m.

Definition pingSRV (m : t) (rt1 : bool) : option handle :=
  if rt1 then m_shaderResourceView1 m else m_shaderResourceView2 m.

(** The calls of [Apply] the loop makes over the entries [l] that remain,
    with [cur] and [rt1] the current values of [currentInput] and
    [useRT1].  An entry is at index [size - 1] exactly when no entry
    remains after it. *)
Fixpoint passes (m : t) (output : option handle)
    (l : list PostProcessEffect) (cur : option handle) (rt1 : bool)
    : list Pass :=
  match l with
  | [] => []
  | d :: rest =>
    match m_effects m !! d with
    | Some e =>
      if Effect.m_enabled e then
        match rest with
        | [] => [mkPass e cur output]
        | _ :: _ =>
          mkPass e cur (pingRTV m rt1)
            :: passes m output rest (pingSRV m rt1) (negb rt1)
        end
      else passes m output rest cur rt1
    | None => passes m output rest cur rt1
    end
  end.

Fixpoint run_passes (context : option ID3D11DeviceContext)
    (params : PostProcessParams) (ps : list Pass) (s : State)
    : option State :=
  match ps with
  | [] => Some s
  | p :: ps' =>
    s' ← Effect.Apply context (pass_input p) (pass_output p) params
                      (pass_effect p) s;
    run_passes context params ps' s'
  end.

(** The render targets and their views exist. *)
Definition targets_ready (m : t) : Prop :=
  is_Some (m_renderTargetView1 m) ∧ is_Some (m_renderTargetView2 m) ∧
  is_Some (m_shaderResourceView1 m) ∧ is_Some (m_shaderResourceView2 m).

(** An initialised manager: its targets exist and every instance it
    stores is fully initialised. *)
Definition ready (m : t) : Prop := all_initialized m ∧ targets_ready m.

Definition pass_ok (p : Pass) : Prop :=
  Effect.m_enabled (pass_effect p) = true ∧
  Effect.initialized (pass_effect p) ∧
  is_Some (pass_input p) ∧ is_Some (pass_output p).

(** The entry [d] is applied by the loop: it has an instance, which is
    enabled. *)
Definition runs (m : t) (d : PostProcessEffect) : bool :=
  match m_effects m !! d with
  | Some e => Effect.m_enabled e
  | None => false
  end.

Definition instance_of (m : t) (d : PostProcessEffect) : option Effect.t :=
  e ← m_effects m !! d; if Effect.m_enabled e then Some e else None.

(** The instances the loop applies, in the order of the list. *)
Definition enabled_instances (m : t) : list Effect.t :=
  omap (instance_of m) (m_effectOrder m).

(** The draw [d] was issued by the pass [p]. *)
Definition drawn_by (sampler : option handle) (p : Pass) (d : Pipeline)
    : Prop :=
  OMRenderTarget d = pass_output p ∧ PSShaderResource0 d = pass_input p ∧
  VSShader d = Effect.m_vertexShader (pass_effect p) ∧
  PSShader d = Effect.m_pixelShader (pass_effect p) ∧
  PSConstantBuffer0 d = Effect.m_parameterBuffer (pass_effect p) ∧
  PSSampler0 d = sampler.

(** The handles the manager holds for its two render targets and their
    views. *)
Definition held (m : t) : list (option handle) :=
  [ m_renderTarget1 m; m_renderTargetView1 m; m_shaderResourceView1 m;
    m_renderTarget2 m; m_renderTargetView2 m; m_shaderResourceView2 m ].

(** The events of a successful [CreateRenderTargets]. *)
Definition target_events (m : t) (t1 v1 r1 t2 v2 r2 : handle) : list Event :=
  [ Created t1 (Texture2D (textureDesc m));
    Created v1 (RenderTargetView t1);
    Created r1 (ShaderResourceView t1);
    Created t2 (Texture2D (textureDesc m));
    Created v2 (RenderTargetView t2);
    Created r2 (ShaderResourceView t2) ].

Definition release_events (ps : list (option handle)) : list Event :=
  omap (fun p : option handle => Released <$> p) ps.

End Spec.

(** ** The ledger of device objects *)

Module Ledger.
Import D3D PostProcessManager Engine Spec.

(** The device objects an effect instance holds. *)
Definition effect_objects (e : Effect.t) : list handle :=
  omap id [ Effect.m_vertexShader e; Effect.m_pixelShader e;
            Effect.m_parameterBuffer e ].

(** The device objects a manager holds, its own and its instances'. *)
Definition manager_objects (m : t) : list handle :=
  omap id (held m ++ [m_samplerState m]) ++
  (map_to_list (m_effects m) ≫= fun de => effect_objects de.2).

(** A stretch of the log releases exactly what it creates. *)
Definition balanced (evs : list Event) : Prop :=
  releases evs ≡ₚ map fst (creations evs).

(** The buffer writes of a log, in order. *)
Definition writes (l : list Event) : list (handle * PostProcessParams) :=
  omap (fun e => match e with Written h d => Some (h, d) | _ => None end) l.

(** The calls that edit the chain of a manager. *)
Inductive ChainOp :=
  | DoAddEffect (effectType : PostProcessEffect)
  | DoRemoveEffect (effectType : PostProcessEffect)
  | DoSetEffectEnabled (effectType : PostProcessEffect) (enabled : bool).

Definition edit1 (op : ChainOp) (ms : t * State) : t * State :=
  match op with
  | DoAddEffect d => AddEffect d ms.1 ms.2
  | DoRemoveEffect d => RemoveEffect d ms.1 ms.2
  | DoSetEffectEnabled d b => (SetEffectEnabled d b ms.1, ms.2)
  end.

Definition edit (ops : list ChainOp) (ms : t * State) : t * State :=
  foldl (fun ms op => edit1 op ms) ms ops.

(** What a call did to the ledger: it appended [evs], and what it created
    together with what the manager held before is what it released
    together with what the manager holds now. *)
Definition settles (m : t) (s : State) (m' : t) (s' : State) : Prop :=
  ∃ evs, extends s s' evs ∧ draws evs = [] ∧
    map fst (creations evs) ++ manager_objects m
      ≡ₚ releases evs ++ manager_objects m'.

(** The constant buffer an instance writes its parameters to. *)
Definition parameter_write (params : PostProcessParams) (e : Effect.t)
    : option (handle * PostProcessParams) :=
  b ← Effect.m_parameterBuffer e; Some (b, params).

Definition is_quad_buffer (hr : handle * Resource) : Prop :=
  hr.2 = Buffer Effect.quadBufferDesc.

(** The handles a stretch of execution created were unused before it and
    are used up after it. *)
Definition fresh_in (s s' : State) (evs : list Event) : Prop :=
  (next_handle s ≤ next_handle s')%positive ∧
  Forall (fun hr => (next_handle s ≤ hr.1 < next_handle s')%positive)
         (creations evs).

(** Every manager of the program stores only fully initialised
    instances. *)
Definition instances_initialized (w : World) : Prop :=
  ∀ id m, managers w !! id = Some m → all_initialized m.

(** The effects that [GetPixelShaderCode] has a shader for. *)
Definition own_shader : list PostProcessEffect :=
  [Grayscale; Bloom; GaussianBlur; ToneMapping; Vignette].

End Ledger.

(** ** The vocabulary of the demo application's statements *)

Module ExampleSpec.
Import D3D PostProcessManager Spec BasicEngineExample.

(** The effects the case [k] of [SetupPostProcessing] adds, in order. *)
Definition setup_effects (k : Z) : list PostProcessEffect :=
  match k with
  | 1 => [Bloom; ToneMapping; Vignette]
  | 2 => [Grayscale; Vignette]
  | 3 => [Bloom; ToneMapping]
  | _ => []
  end.

(** The effects [SetupPostProcessing] removes first. *)
Definition cleared_effects : list PostProcessEffect :=
  [Bloom; ToneMapping; Vignette; Grayscale].

(** [n] calls of [NextPostProcessEffect]. *)
Fixpoint presses (n : nat) (a : t) (s : State) : option (t * State) :=
  match n with
  | O => Some (a, s)
  | S n' => as' ← NextPostProcessEffect a s; presses n' as'.1 as'.2
  end.

(** A run of [RemoveEffect] calls, and a run of [AddEffect] calls. *)
Definition removes (l : list PostProcessEffect) (ms : PostProcessManager.t * State)
    : PostProcessManager.t * State :=
  foldl (fun ms d => RemoveEffect d ms.1 ms.2) ms l.

Definition adds (l : list PostProcessEffect) (ms : PostProcessManager.t * State)
    : PostProcessManager.t * State :=
  foldl (fun ms d => AddEffect d ms.1 ms.2) ms l.

(** The invariant of the demo's manager: it exists, it is initialised on
    a device, its order list names exactly its instances, which are
    fully initialised, and the device does not fail. *)
Definition example_ready (a : BasicEngineExample.t) (s : State) : Prop :=
  ∃ m, m_postProcessor a = Some m ∧ consistent m ∧ all_initialized m ∧
       is_Some (m_device m) ∧ reliable s.

End ExampleSpec.

(** ** The vocabulary of the shader statements *)

Module ShaderSpec.
Import D3D ShaderDevice Shader.

(** The device objects a [Shader] holds. *)
Definition shader_objects (sh : Shader.t) : list handle :=
  omap id [ m_vertexShader sh; m_pixelShader sh; m_geometryShader sh;
            m_hullShader sh; m_domainShader sh; m_computeShader sh;
            m_inputLayout sh; m_shaderBlob sh ].

(** What a stretch of execution appended to the log. *)
Definition appended (s s' : State) (evs : list Event) : Prop :=
  log s' = log s ++ evs.

(** What a call did to the objects of a shader: what it created together
    with what the shader held is what it released together with what
    the shader holds now. *)
Definition accounts (sh : Shader.t) (s : State) (sh' : Shader.t) (s' : State)
    : Prop :=
  ∃ evs, appended s s' evs ∧
    map fst (creations evs) ++ shader_objects sh
      ≡ₚ releases evs ++ shader_objects sh'.

(** The calls a client can make on a [Shader]. *)
Inductive ShaderOp :=
  | DoCompileFromString (device : option ID3D11Device)
      (shaderCode entryPoint : string) (type : ShaderType)
      (layoutElements : list InputLayoutElement)
  | DoCompileFromFile (files : gmap string string)
      (device : option ID3D11Device) (filepath entryPoint : string)
      (type : ShaderType) (layoutElements : list InputLayoutElement)
  | DoShutdown.

Definition call (op : ShaderOp) (x : Shader.t * State) : Shader.t * State :=
  match op with
  | DoCompileFromString device code entry type layout =>
    let '(_, sh, s) := CompileFromString device code entry type layout x.1 x.2 in
    (sh, s)
  | DoCompileFromFile files device path entry type layout =>
    let '(_, sh, s) := CompileFromFile files device path entry type layout x.1 x.2 in
    (sh, s)
  | DoShutdown => Shutdown x.1 x.2
  end.

Definition calls (ops : list ShaderOp) (x : Shader.t * State) : Shader.t * State :=
  foldl (fun x op => call op x) x ops.

(** A shader in a state its member functions can produce: the flag
    [m_isCompiled] is set only with the shader object of its own kind,
    and an input layout belongs to a vertex shader. *)
Definition well_formed (sh : Shader.t) : Prop :=
  (m_isCompiled sh = true →
     m_type sh = Vertex ∧ is_Some (m_vertexShader sh) ∨
     m_type sh = Pixel ∧ is_Some (m_pixelShader sh)) ∧
  (is_Some (m_inputLayout sh) → m_type sh = Vertex).

End ShaderSpec.

(** * Properties *)

(** ** The device log *)

Module D3DFacts.
Import D3D Spec.

Lemma draws_app l1 l2 : draws (l1 ++ l2) = draws l1 ++ draws l2.
Proof. apply omap_app. Qed.

Lemma creations_app l1 l2 : creations (l1 ++ l2) = creations l1 ++ creations l2.
Proof. apply omap_app. Qed.

Lemma releases_app l1 l2 : releases (l1 ++ l2) = releases l1 ++ releases l2.
Proof. apply omap_app. Qed.

Lemma textures_created_app l1 l2 :
  textures_created (l1 ++ l2) = textures_created l1 ++ textures_created l2.
Proof. unfold textures_created. by rewrite creations_app, List.filter_app. Qed.

Lemma extends_refl s : extends s s [].
Proof. unfold extends. by rewrite app_nil_r. Qed.

Lemma extends_trans s1 s2 s3 e1 e2 :
  extends s1 s2 e1 → extends s2 s3 e2 → extends s1 s3 (e1 ++ e2).
Proof. unfold extends. intros -> ->. by rewrite app_assoc. Qed.

Lemma next_outcome_reliable s :
  reliable s → (next_outcome s).1 = true ∧ reliable (next_outcome s).2.
Proof.
  unfold reliable, next_outcome. destruct (outcomes s) as [|b bs] eqn:E; simpl.
  - rewrite E. by split.
  - intros H. inversion H; subst. by split.
Qed.

Lemma next_outcome_log s : log (next_outcome s).2 = log s.
Proof. unfold next_outcome. by destruct (outcomes s). Qed.

Lemma next_outcome_pipeline s : pipeline (next_outcome s).2 = pipeline s.
Proof. unfold next_outcome. by destruct (outcomes s). Qed.

Lemma next_outcome_handle s : next_handle (next_outcome s).2 = next_handle s.
Proof. unfold next_outcome. by destruct (outcomes s). Qed.

(** The two results of a creation call. *)
Lemma create_cases r s :
  (∃ h, (create r s).1 = Some h ∧ extends s (create r s).2 [Created h r]) ∨
  ((create r s).1 = None ∧ extends s (create r s).2 []).
Proof.
  unfold create, extends. pose proof (next_outcome_log s) as Hl.
  destruct (next_outcome s) as [[] s1]; simpl in *.
  - left. eexists. split; [done|]. by rewrite Hl.
  - right. by rewrite Hl, app_nil_r.
Qed.

Lemma create_pipeline r s : pipeline (create r s).2 = pipeline s.
Proof.
  unfold create. pose proof (next_outcome_pipeline s).
  by destruct (next_outcome s) as [[] s1].
Qed.

Lemma create_reliable r s :
  reliable s →
  (create r s).1 = Some (next_handle s) ∧ reliable (create r s).2 ∧
  extends s (create r s).2 [Created (next_handle s) r].
Proof.
  intros H. destruct (next_outcome_reliable s H) as [H1 H2].
  unfold create, extends. pose proof (next_outcome_log s) as Hl.
  pose proof (next_outcome_handle s) as Hh.
  destruct (next_outcome s) as [ok s1]; simpl in *; subst ok.
  simpl. by rewrite Hl, Hh.
Qed.

Lemma SafeRelease_extends p s :
  extends s (SafeRelease p s) (match p with Some h => [Released h] | None => [] end).
Proof. destruct p; [done|apply extends_refl]. Qed.

Lemma SafeRelease_pipeline p s : pipeline (SafeRelease p s) = pipeline s.
Proof. by destruct p. Qed.

Lemma SafeRelease_outcomes p s : outcomes (SafeRelease p s) = outcomes s.
Proof. by destruct p. Qed.

End D3DFacts.

(** ** The effect instance *)

Module EffectFacts.
Import D3D Spec D3DFacts PostProcessEffect_Base.

(** [Apply] on an enabled, fully initialised instance: it returns, it
    creates nothing but the quad's vertex buffer, it issues at most one
    draw with the given input and output bound, and exactly one when the
    device does not fail. *)
Lemma Apply_spec ctx input output params e s :
  m_enabled e = true → initialized e →
  ∃ s' evs,
    Apply (Some ctx) (Some input) (Some output) params e s = Some s' ∧
    extends s s' evs ∧
    textures_created evs = [] ∧
    PSSampler0 (pipeline s') = PSSampler0 (pipeline s) ∧
    Forall (pass_of e input output (PSSampler0 (pipeline s))) (draws evs) ∧
    (length (draws evs) ≤ 1)%nat ∧
    (reliable s → reliable s' ∧ length (draws evs) = 1%nat).
Proof.
  destruct e as [ty en vs ps buf w h]. unfold initialized. simpl.
  intros -> ([vs' ->] & [ps' ->] & [buf' ->] & [w' ->] & [h' ->]).
  destruct s as [nh oc pl lg].
  unfold Apply, UpdateParameterBuffer, MapWriteDiscard, DrawFullscreenQuad,
    CreateBuffer, create, next_outcome, extends, reliable, pass_of; simpl.
  destruct oc as [|[] [|[] oc]]; simpl;
    eexists; eexists; (split; [reflexivity|]); simpl;
    (split; [rewrite <- ?app_assoc; simpl; try reflexivity;
             by rewrite ?app_nil_r|]);
    split_and!; simpl; try done; try lia;
    try (repeat constructor; done);
    intros H; repeat match goal with
      | H : Forall _ (_ :: _) |- _ => inversion H; clear H; subst
      end; try done; split; try done; by repeat constructor.
Qed.

Lemma Apply_null_context input output params e s :
  Apply None input output params e s = Some s.
Proof. done. Qed.

Lemma Apply_null_input context output params e s :
  Apply context None output params e s = Some s.
Proof. by destruct context. Qed.

Lemma Apply_null_output context input params e s :
  Apply context input None params e s = Some s.
Proof. by destruct context, input. Qed.

Lemma Apply_disabled context input output params e s :
  m_enabled e = false → Apply context input output params e s = Some s.
Proof. unfold Apply. intros ->. by destruct context, input, output. Qed.

Lemma Initialize_null_device width height e s :
  Initialize None width height e s = (false, e, s).
Proof. done. Qed.

(** [Initialize] of a newly constructed instance on a device. *)
Lemma Initialize_new_spec dev width height ty s :
  ∃ ok e' s' evs,
    Initialize (Some dev) width height (new ty) s = (ok, e', s') ∧
    extends s s' evs ∧ releases evs = [] ∧ textures_created evs = [] ∧
    pipeline s' = pipeline s ∧
    m_type e' = ty ∧ m_enabled e' = true ∧
    m_width e' = Some width ∧ m_height e' = Some height ∧
    (ok = true →
       ∃ vs ps buf, evs = init_events ty vs ps buf ∧
         m_vertexShader e' = Some vs ∧ m_pixelShader e' = Some ps ∧
         m_parameterBuffer e' = Some buf) ∧
    (ok = false → ¬ initialized e') ∧
    (reliable s → ok = true ∧ reliable s').
Proof.
  destruct s as [nh oc pl lg].
  unfold Initialize, ShaderUtils.CreateVertexShaderFromString,
    ShaderUtils.CreatePixelShaderFromString, ShaderUtils.CreateShaderFromString,
    CreateBuffer, create, next_outcome, extends, reliable, initialized,
    init_events; simpl.
  destruct oc as [|[] [|[] [|[] oc]]]; simpl;
    do 4 eexists; (split; [reflexivity|]); simpl;
    (split; [rewrite <- ?app_assoc; simpl; try reflexivity;
             by rewrite ?app_nil_r|]);
    split_and!; simpl; try done;
    try (intros _; do 3 eexists; split_and!; reflexivity);
    try (intros _ (? & ? & ? & ?); by repeat match goal with
           | H : is_Some None |- _ => destruct H as [? H]; discriminate H
           end);
    intros H; repeat match goal with
      | H : Forall _ (_ :: _) |- _ => inversion H; clear H; subst
      end; try done; split; try done; by repeat constructor.
Qed.

End EffectFacts.

(** ** The manager: the active set and the chain order *)

Module ChainFacts.
Import D3D Spec D3DFacts EffectFacts PostProcessManager.

Lemma filter_eq_absent (d : PostProcessEffect) (l : list PostProcessEffect) :
  d ∉ l → filter (fun a => a = d) l = [].
Proof.
  induction l as [|a l IH]; [done|]. intros Hd.
  rewrite not_elem_of_cons in Hd. destruct Hd as [Hne Hd].
  rewrite filter_cons_False by congruence. auto.
Qed.

Lemma filter_eq_once (d : PostProcessEffect) (l : list PostProcessEffect) :
  NoDup l → d ∈ l → length (filter (fun a => a = d) l) = 1%nat.
Proof.
  induction 1 as [|a l Ha Hl IH]; intros Hd; [by apply elem_of_nil in Hd|].
  apply elem_of_cons in Hd. destruct (decide (a = d)) as [->|Hne].
  - rewrite filter_cons_True by done. simpl. by rewrite filter_eq_absent.
  - rewrite filter_cons_False by done. destruct Hd; [congruence|auto].
Qed.

Lemma new_consistent : consistent new.
Proof.
  split; [constructor|]. intros d. simpl. rewrite lookup_empty. split.
  - intros H. by apply elem_of_nil in H.
  - intros [? H]. discriminate H.
Qed.

Lemma AddEffect_active d m s :
  is_Some (m_effects m !! d) → AddEffect d m s = (m, s).
Proof. intros [e He]. unfold AddEffect. by rewrite He. Qed.

(** [AddEffect] of an inactive descriptor, by the result of the new
    instance's [Initialize]. *)
Lemma AddEffect_inactive d m s :
  m_effects m !! d = None →
  ∃ ok e s1,
    Effect.Initialize (m_device m) (m_width m) (m_height m) (Effect.new d) s
      = (ok, e, s1) ∧
    (ok = true → Effect.initialized e) ∧
    (ok = false → ¬ Effect.initialized e) ∧
    (AddEffect d m s).1 =
      if ok then set_chain (<[d := e]> (m_effects m)) (m_effectOrder m ++ [d]) m
      else m.
Proof.
  intros Hd. unfold AddEffect. rewrite Hd. destruct (m_device m) as [dev|].
  - destruct (Initialize_new_spec dev (m_width m) (m_height m) d s)
      as (ok & e & s1 & evs & -> & _ & _ & _ & _ & _ & _ & Hw & Hh & Hok & Hko & _).
    exists ok, e, s1. split_and!; [done| |done|by destruct ok].
    intros H. destruct (Hok H) as (vs & ps & buf & _ & Hvs & Hps & Hbuf).
    unfold Effect.initialized. rewrite Hvs, Hps, Hbuf, Hw, Hh. by split_and!.
  - exists false, (Effect.new d), s. split_and!; try done.
    unfold Effect.initialized. simpl. intros _ ([? H] & _). discriminate H.
Qed.

Lemma AddEffect_consistent d m s :
  consistent m → consistent (AddEffect d m s).1.
Proof.
  intros [Hnd Hin]. destruct (m_effects m !! d) as [e|] eqn:Hd.
  - by rewrite AddEffect_active.
  - destruct (AddEffect_inactive d m s Hd) as (ok & e & s1 & _ & _ & _ & ->).
    destruct ok; [|done]. split; simpl.
    + apply NoDup_app. split_and!; [done| |apply NoDup_singleton].
      intros a Ha Ha'. apply list_elem_of_singleton in Ha'. subst a.
      apply Hin in Ha. rewrite Hd in Ha. by destruct Ha.
    + intros a. rewrite elem_of_app, list_elem_of_singleton, Hin.
      destruct (decide (d = a)) as [->|Hne].
      * rewrite lookup_insert_eq. split; eauto.
      * rewrite lookup_insert_ne by done. split; [|by left].
        intros [H|H]; [done|congruence].
Qed.

Lemma AddEffect_all_initialized d m s :
  all_initialized m → all_initialized (AddEffect d m s).1.
Proof.
  intros Hall. destruct (m_effects m !! d) as [e|] eqn:Hd.
  - by rewrite AddEffect_active.
  - destruct (AddEffect_inactive d m s Hd) as (ok & e & s1 & _ & Hok & _ & ->).
    destruct ok; [|done]. intros a e'. simpl.
    destruct (decide (d = a)) as [->|Hne].
    + rewrite lookup_insert_eq. intros [= <-]. auto.
    + rewrite lookup_insert_ne by done. apply Hall.
Qed.

End ChainFacts.

(** ** The loop of [Process] *)

Module ProcessFacts.
Import D3D Spec D3DFacts EffectFacts PostProcessManager ChainFacts.

(** The loop, from index [i] on, makes exactly the calls of [passes]. *)
Lemma Process_loop_passes context output m n : ∀ i st,
  (i + n = length (m_effectOrder m))%nat →
  dev <$> Process_loop context output m n i st =
  run_passes context (m_parameters m)
    (passes m output (drop i (m_effectOrder m)) (currentInput st) (useRT1 st))
    (dev st).
Proof.
  induction n as [|n IH]; intros i st Hlen.
  - rewrite drop_ge by lia. done.
  - destruct (lookup_lt_is_Some_2 (m_effectOrder m) i) as [d Hd]; [lia|].
    rewrite (drop_S _ _ _ Hd). simpl. unfold Process_body. rewrite Hd.
    destruct (m_effects m !! d) as [e|] eqn:He; simpl;
      [|by rewrite IH by lia].
    unfold Effect.IsEnabled. destruct (Effect.m_enabled e) eqn:Hen; simpl;
      [|by rewrite IH by lia].
    destruct n as [|n].
    + rewrite drop_ge by lia.
      replace (i =? length (m_effectOrder m) - 1)%nat with true
        by (symmetry; apply Nat.eqb_eq; lia).
      replace (i <? length (m_effectOrder m) - 1)%nat with false
        by (symmetry; apply Nat.ltb_ge; lia).
      simpl. by destruct (Effect.Apply _ _ _ _ _ _).
    + destruct (lookup_lt_is_Some_2 (m_effectOrder m) (S i)) as [d' Hd'];
        [lia|].
      rewrite (drop_S _ _ _ Hd').
      replace (i =? length (m_effectOrder m) - 1)%nat with false
        by (symmetry; apply Nat.eqb_neq; lia).
      replace (i <? length (m_effectOrder m) - 1)%nat with true
        by (symmetry; apply Nat.ltb_lt; lia).
      unfold pingRTV. cbn [run_passes pass_effect pass_input pass_output].
      destruct (Effect.Apply _ _ _ _ _ _) as [s'|]; [|done].
      cbn [mbind option_bind fmap option_fmap option_map].
      specialize (IH (S i) (mkLocals s' (pingSRV m (useRT1 st)) (negb (useRT1 st)))).
      rewrite (drop_S _ _ _ Hd') in IH. apply IH. lia.
Qed.

Lemma pingRTV_ready m rt1 : targets_ready m → is_Some (pingRTV m rt1).
Proof. intros (? & ? & ? & ?). by destruct rt1. Qed.

Lemma pingSRV_ready m rt1 : targets_ready m → is_Some (pingSRV m rt1).
Proof. intros (? & ? & ? & ?). by destruct rt1. Qed.

Lemma passes_ok m output l : ∀ cur rt1,
  ready m → is_Some output → is_Some cur →
  Forall pass_ok (passes m output l cur rt1).
Proof.
  induction l as [|d rest IH]; intros cur rt1 Hm Ho Hc; simpl; [constructor|].
  destruct (m_effects m !! d) as [e|] eqn:He; [|by apply IH].
  destruct (Effect.m_enabled e) eqn:Hen; [|by apply IH].
  assert (pass_ok (mkPass e cur output)) as Hlast.
  { split_and!; try done. by apply (proj1 Hm d). }
  destruct rest as [|d' rest]; [by constructor|].
  constructor.
  - split_and!; try done; [by apply (proj1 Hm d)|].
    apply pingRTV_ready, Hm.
  - apply IH; try done. apply pingSRV_ready, Hm.
Qed.

Lemma passes_effects m output l : ∀ cur rt1,
  map pass_effect (passes m output l cur rt1) = omap (instance_of m) l.
Proof.
  induction l as [|d rest IH]; intros cur rt1; [done|].
  cbn [passes omap list_omap]. unfold instance_of at 1.
  destruct (m_effects m !! d) as [e|]; simpl; [|apply IH].
  destruct (Effect.m_enabled e); [|apply IH].
  destruct rest as [|d' rest]; [done|].
  cbn [map]. by rewrite IH.
Qed.

(** Every instance the loop applies is one the manager stores. *)
Lemma passes_from_effects m output l : ∀ cur rt1 p,
  p ∈ passes m output l cur rt1 →
  ∃ d, d ∈ l ∧ m_effects m !! d = Some (pass_effect p).
Proof.
  induction l as [|d rest IH]; intros cur rt1 p; simpl.
  { intros H. by apply elem_of_nil in H. }
  assert (∀ cur rt1, p ∈ passes m output rest cur rt1 →
            ∃ d0, d0 ∈ d :: rest ∧ m_effects m !! d0 = Some (pass_effect p))
    as IH'.
  { intros c r H. destruct (IH c r p H) as (d0 & Hin & He).
    exists d0. split; [by apply elem_of_cons; right|done]. }
  destruct (m_effects m !! d) as [e|] eqn:He; [|apply IH'].
  destruct (Effect.m_enabled e); [|apply IH'].
  assert (p = mkPass e cur output ∨ p = mkPass e cur (pingRTV m rt1) →
          ∃ d0, d0 ∈ d :: rest ∧ m_effects m !! d0 = Some (pass_effect p))
    as Hhere.
  { intros [-> | ->]; exists d; (split; [apply elem_of_cons; by left|done]). }
  destruct rest as [|d' rest].
  - intros H. apply list_elem_of_singleton in H. auto.
  - intros H. apply elem_of_cons in H. destruct H as [H|H]; [auto|].
    by apply IH' in H.
Qed.

Lemma passes_head m output l : ∀ cur rt1 p,
  passes m output l cur rt1 !! 0%nat = Some p → pass_input p = cur.
Proof.
  induction l as [|d rest IH]; intros cur rt1 p; simpl; [done|].
  destruct (m_effects m !! d) as [e|]; [|apply IH].
  destruct (Effect.m_enabled e); [|apply IH].
  destruct rest; by intros [= <-].
Qed.

(** The [k]-th pass that has a successor writes the ping-pong target
    selected by the parity of [k], and its successor reads the view of
    that same target. *)
Lemma passes_chain m output l : ∀ cur rt1 k p p',
  passes m output l cur rt1 !! k = Some p →
  passes m output l cur rt1 !! S k = Some p' →
  pass_output p = pingRTV m (xorb rt1 (Nat.odd k)) ∧
  pass_input p' = pingSRV m (xorb rt1 (Nat.odd k)).
Proof.
  induction l as [|d rest IH]; intros cur rt1 k p p'; simpl; [done|].
  destruct (m_effects m !! d) as [e|]; [|apply IH].
  destruct (Effect.m_enabled e); [|apply IH].
  destruct rest as [|d' rest]; [by destruct k|].
  destruct k as [|k].
  - intros [= <-] Hp'. change (Nat.odd 0) with false.
    rewrite xorb_false_r. split; [done|].
    by apply passes_head in Hp'.
  - intros Hp Hp'. destruct (IH _ _ _ _ _ Hp Hp') as [H1 H2].
    rewrite H1, H2, Nat.odd_succ, <- Nat.negb_odd.
    by destruct rt1, (Nat.odd k).
Qed.

Lemma passes_surfaces m output l : ∀ cur rt1,
  Forall (fun p =>
    (pass_output p = output ∨ pass_output p = m_renderTargetView1 m ∨
     pass_output p = m_renderTargetView2 m) ∧
    (pass_input p = cur ∨ pass_input p = m_shaderResourceView1 m ∨
     pass_input p = m_shaderResourceView2 m))
    (passes m output l cur rt1).
Proof.
  induction l as [|d rest IH]; intros cur rt1; simpl; [constructor|].
  destruct (m_effects m !! d) as [e|]; [|apply IH].
  destruct (Effect.m_enabled e); [|apply IH].
  destruct rest as [|d' rest]; [repeat constructor; by left|].
  constructor.
  - split; [right; by destruct rt1; [left|right]|by left].
  - eapply Forall_impl; [apply IH|]. simpl. intros p [Ho Hi]. split; [done|].
    right. destruct Hi as [->|Hi]; [|done]. by destruct rt1; [left|right].
Qed.

(** The passes depend on the manager only through its instances and
    its targets, not through the order list it stores. *)
Lemma passes_ext m m' output l : ∀ cur rt1,
  m_effects m' = m_effects m →
  (∀ rt1, pingRTV m' rt1 = pingRTV m rt1) →
  (∀ rt1, pingSRV m' rt1 = pingSRV m rt1) →
  passes m' output l cur rt1 = passes m output l cur rt1.
Proof.
  intros cur rt1 He Hr Hs. revert cur rt1.
  induction l as [|d rest IH]; intros cur rt1; [done|].
  cbn [passes]. by rewrite !IH, He, Hr, Hs.
Qed.

(** Entries that are not applied can be dropped from the list as long
    as the last entry is one that is applied. *)
Lemma passes_filter m output l : ∀ cur rt1,
  (l = [] ∨ ∃ d, last l = Some d ∧ runs m d = true) →
  passes m output l cur rt1 = passes m output (filter (fun d => runs m d = true) l) cur rt1.
Proof.
  induction l as [|d rest IH]; intros cur rt1 Hl; [done|].
  destruct Hl as [Hl|(d0 & Hlast & Hruns)]; [done|].
  assert (rest ≠ [] → rest = [] ∨ ∃ d, last rest = Some d ∧ runs m d = true)
    as Hrest.
  { intros Hne. right. exists d0. split; [|done].
    destruct rest; [done|]. by rewrite last_cons_cons in Hlast. }
  destruct (runs m d) eqn:Hd.
  - rewrite filter_cons_True by done. unfold runs in Hd. simpl.
    destruct (m_effects m !! d) as [e|]; [|done]. rewrite Hd.
    destruct rest as [|d' rest]; [done|].
    rewrite <- IH by (by apply Hrest).
    destruct (filter _ (d' :: rest)) as [|d'' rest'] eqn:Hf; [|done].
    exfalso. rewrite last_cons_cons in Hlast.
    apply last_Some_elem_of in Hlast.
    assert (d0 ∈ filter (λ d, runs m d = true) (d' :: rest)) as Hin
      by (by apply list_elem_of_filter).
    rewrite Hf in Hin. by apply elem_of_nil in Hin.
  - rewrite filter_cons_False by (by rewrite Hd).
    assert (rest ≠ []) as Hne.
    { intros ->. simpl in Hlast. congruence. }
    rewrite <- IH by (by apply Hrest).
    unfold runs in Hd. simpl. destruct (m_effects m !! d) as [e|]; [|done].
    by rewrite Hd.
Qed.

Lemma passes_cons_cons m output a b rest cur rt1 :
  passes m output (a :: b :: rest) cur rt1 =
  match m_effects m !! a with
  | Some e =>
    if Effect.m_enabled e then
      mkPass e cur (pingRTV m rt1)
        :: passes m output (b :: rest) (pingSRV m rt1) (negb rt1)
    else passes m output (b :: rest) cur rt1
  | None => passes m output (b :: rest) cur rt1
  end.
Proof. done. Qed.

(** When the last entry of the list is applied, its pass is the last
    one and writes the final output; every pass before it writes one of
    the two intermediate targets. *)
Lemma passes_final m output l : ∀ cur rt1 d,
  last l = Some d → runs m d = true →
  ∃ ps e cur',
    passes m output l cur rt1 = ps ++ [mkPass e cur' output] ∧
    m_effects m !! d = Some e ∧
    Forall (fun p => pass_output p = m_renderTargetView1 m ∨
                     pass_output p = m_renderTargetView2 m) ps.
Proof.
  induction l as [|a rest IH]; intros cur rt1 d Hlast Hd; [done|].
  destruct rest as [|b rest].
  - simpl in Hlast. injection Hlast as ->. unfold runs in Hd. simpl.
    destruct (m_effects m !! d) as [e|]; [|done]. rewrite Hd.
    by exists [], e, cur.
  - rewrite last_cons_cons in Hlast. rewrite passes_cons_cons.
    destruct (m_effects m !! a) as [ea|];
      [destruct (Effect.m_enabled ea)|]; try by apply IH.
    destruct (IH (pingSRV m rt1) (negb rt1) d Hlast Hd)
      as (ps & e & cur' & -> & He & Hps).
    exists (mkPass ea cur (pingRTV m rt1) :: ps), e, cur'.
    split_and!; [done|done|]. constructor; [|done].
    simpl. destruct rt1; [by left|by right].
Qed.

(** When the last entry of the list is not applied, no pass writes the
    final output: every pass writes one of the two intermediate targets. *)
Lemma passes_last_skipped m output l : ∀ cur rt1 d,
  last l = Some d → runs m d = false →
  Forall (fun p => pass_output p = m_renderTargetView1 m ∨
                   pass_output p = m_renderTargetView2 m)
         (passes m output l cur rt1).
Proof.
  induction l as [|a rest IH]; intros cur rt1 d Hlast Hd; [done|].
  destruct rest as [|b rest].
  - simpl in Hlast. injection Hlast as ->. unfold runs in Hd. simpl.
    destruct (m_effects m !! d) as [e|]; [|constructor]. rewrite Hd.
    constructor.
  - rewrite last_cons_cons in Hlast. rewrite passes_cons_cons.
    destruct (m_effects m !! a) as [ea|];
      [destruct (Effect.m_enabled ea)|]; try by eapply IH.
    constructor; [|by eapply IH].
    simpl. destruct rt1; [by left|by right].
Qed.

Lemma Apply_pass ctx params p s :
  pass_ok p →
  ∃ s' evs,
    Effect.Apply (Some ctx) (pass_input p) (pass_output p) params
                 (pass_effect p) s = Some s' ∧
    extends s s' evs ∧ textures_created evs = [] ∧
    PSSampler0 (pipeline s') = PSSampler0 (pipeline s) ∧
    Forall (drawn_by (PSSampler0 (pipeline s)) p) (draws evs) ∧
    (reliable s → reliable s' ∧
       ∃ d, draws evs = [d] ∧ drawn_by (PSSampler0 (pipeline s)) p d).
Proof.
  destruct p as [e input output]. unfold pass_ok. simpl.
  intros (Hen & Hinit & [i ->] & [o ->]).
  destruct (Apply_spec ctx i o params e s Hen Hinit)
    as (s' & evs & HA & Hext & Htex & Hsmp & Hall & Hlen & Hrel).
  exists s', evs. split_and!; try done.
  intros Hr. destruct (Hrel Hr) as [Hr' H1]. split; [done|].
  destruct (draws evs) as [|d [|d' ds]]; simplify_eq/=.
  exists d. split; [done|]. by inversion Hall.
Qed.

(** Running the passes on an initialised manager: every call returns, no
    texture is created, every draw is the draw of one of the passes, and
    on a device that does not fail there is exactly one draw per pass,
    in order. *)
Lemma run_passes_spec ctx params ps : ∀ s,
  Forall pass_ok ps →
  ∃ s' evs,
    run_passes (Some ctx) params ps s = Some s' ∧
    extends s s' evs ∧ textures_created evs = [] ∧
    PSSampler0 (pipeline s') = PSSampler0 (pipeline s) ∧
    Forall (fun d => ∃ p, p ∈ ps ∧ drawn_by (PSSampler0 (pipeline s)) p d)
           (draws evs) ∧
    (reliable s → reliable s' ∧
       Forall2 (drawn_by (PSSampler0 (pipeline s))) ps (draws evs)).
Proof.
  induction ps as [|p ps IH]; intros s Hok.
  - exists s, []. split_and!;
      [done|apply extends_refl|done|done|constructor|].
    intros Hr. split; [done|constructor].
  - inversion Hok as [|? ? Hp Hps]; subst.
    destruct (Apply_pass ctx params p s Hp)
      as (s1 & evs1 & HA & Hext1 & Htex1 & Hsmp1 & Hall1 & Hrel1).
    destruct (IH s1 Hps)
      as (s2 & evs2 & HR & Hext2 & Htex2 & Hsmp2 & Hall2 & Hrel2).
    exists s2, (evs1 ++ evs2). cbn [run_passes]. rewrite HA.
    cbn [mbind option_bind]. split_and!; try done.
    + by eapply extends_trans.
    + by rewrite textures_created_app, Htex1, Htex2.
    + congruence.
    + rewrite draws_app. apply Forall_app. split.
      * eapply Forall_impl; [apply Hall1|]. intros d Hd. exists p.
        split; [apply elem_of_cons; by left|done].
      * eapply Forall_impl; [apply Hall2|]. intros d (q & Hq & Hd).
        exists q. split; [apply elem_of_cons; by right|]. by rewrite <- Hsmp1.
    + intros Hr. destruct (Hrel1 Hr) as (Hr1 & d & Hd & Hby).
      destruct (Hrel2 Hr1) as (Hr2 & Hall). split; [done|].
      rewrite draws_app, Hd. simpl. constructor; [done|]. by rewrite <- Hsmp1.
Qed.

(** [Process] on a non-empty chain, written with the passes. *)
Lemma Process_run ctx input output m p :
  m_effectOrder m ≠ [] →
  Process (Some ctx) (Some input) (Some output) m p =
  s' ← run_passes (Some ctx) (m_parameters m)
         (passes m (Some output) (m_effectOrder m) (Some input) true)
         (PSSetSamplers (m_samplerState m) (device_state p));
  Some (mkProgram (PSSetSamplers None s') (copyEffect p)).
Proof.
  intros Hne. unfold Process.
  destruct (m_effectOrder m) as [|d rest] eqn:Ho; [done|]. rewrite <- Ho.
  pose proof (Process_loop_passes (Some ctx) (Some output) m
    (length (m_effectOrder m)) 0
    (mkLocals (PSSetSamplers (m_samplerState m) (device_state p))
              (Some input) true) eq_refl) as H.
  rewrite drop_0 in H. simpl in H. rewrite <- H.
  by destruct (Process_loop _ _ _ _ _ _).
Qed.

End ProcessFacts.

(** ** The intermediate surface pair *)

Module TargetFacts.
Import D3D Spec D3DFacts PostProcessManager.

Ltac find_held :=
  repeat first [ apply list_elem_of_here | apply list_elem_of_further ].

Lemma CreateRenderTargets_no_device m s :
  m_device m = None → CreateRenderTargets m s = (false, m, s).
Proof. unfold CreateRenderTargets. by intros ->. Qed.

(** [CreateRenderTargets] on a device: whatever the outcome, nothing is
    released and every object created is held by the manager; on success
    the six objects are the two textures, of one description, and a
    render-target view and a shader-resource view of each. *)
Lemma CreateRenderTargets_spec m s :
  is_Some (m_device m) →
  ∃ ok m' s' evs,
    CreateRenderTargets m s = (ok, m', s') ∧
    extends s s' evs ∧ releases evs = [] ∧
    m_width m' = m_width m ∧ m_height m' = m_height m ∧
    m_effects m' = m_effects m ∧ m_effectOrder m' = m_effectOrder m ∧
    m_device m' = m_device m ∧ m_samplerState m' = m_samplerState m ∧
    Forall (fun hr => Some hr.1 ∈ held m') (creations evs) ∧
    (ok = true →
       ∃ t1 v1 r1 t2 v2 r2,
         evs = target_events m t1 v1 r1 t2 v2 r2 ∧
         held m' = [Some t1; Some v1; Some r1; Some t2; Some v2; Some r2]) ∧
    (ok = false → (length (creations evs) < 6)%nat ∧ None ∈ held m') ∧
    (reliable s → ok = true ∧ reliable s').
Proof.
  intros [dev Hdev]. destruct s as [nh oc pl lg]. destruct m. simpl in Hdev.
  subst. unfold CreateRenderTargets, CreateTexture2D, CreateRenderTargetView,
    CreateShaderResourceView, create, next_outcome, extends, reliable,
    target_events, held; simpl.
  destruct oc as [|[] [|[] [|[] [|[] [|[] [|[] oc]]]]]]; simpl;
    do 4 eexists; (split; [reflexivity|]); simpl;
    (split; [rewrite <- ?app_assoc; simpl; try reflexivity;
             by rewrite ?app_nil_r|]);
    (split_and!; simpl;
     [ done | done | done | done | done | done | done
     | repeat constructor; simpl; find_held
     | intros H; first [ discriminate H | do 6 eexists; split; reflexivity ]
     | intros H; first [ discriminate H | split; [lia|find_held] ]
     | intros H; repeat match goal with
         | H : Forall _ (_ :: _) |- _ => inversion H; clear H; subst
         end; try done; split; try done; by repeat constructor ]).
Qed.

Lemma textures_of_target_events m t1 v1 r1 t2 v2 r2 :
  textures_created (target_events m t1 v1 r1 t2 v2 r2) =
  [ (t1, Texture2D (textureDesc m)); (t2, Texture2D (textureDesc m)) ].
Proof. done. Qed.

(** [Initialize] of the manager on a device. *)
Lemma Initialize_spec dev width height m s :
  ∃ ok m' s' evs,
    Initialize (Some dev) width height m s = (ok, m', s') ∧
    extends s s' evs ∧ releases evs = [] ∧
    m_width m' = width ∧ m_height m' = height ∧
    m_effects m' = m_effects m ∧ m_effectOrder m' = m_effectOrder m ∧
    (ok = true →
       ∃ t1 v1 r1 t2 v2 r2 smp,
         evs = target_events m' t1 v1 r1 t2 v2 r2 ++ [Created smp SamplerState] ∧
         held m' = [Some t1; Some v1; Some r1; Some t2; Some v2; Some r2] ∧
         m_samplerState m' = Some smp ∧ m_device m' = Some dev) ∧
    (reliable s → ok = true ∧ reliable s').
Proof.
  unfold Initialize.
  destruct (CreateRenderTargets_spec (set_target (Some dev) width height m) s)
    as (ok & m1 & s1 & evs1 & -> & Hext1 & Hrel1 & Hw & Hh & He & Ho & Hd & _
        & _ & Hok & _ & Hr); [by eexists|].
  destruct ok.
  - destruct (Hok eq_refl) as (t1 & v1 & r1 & t2 & v2 & r2 & -> & Hheld).
    unfold CreateSamplerState.
    destruct (create_cases SamplerState s1) as [(smp & Hsmp & Hext2)|[Hsmp Hext2]];
      pose proof (create_reliable SamplerState s1) as Hr2;
      destruct (create SamplerState s1) as [sampler s2]; simpl in *; subst.
    + exists true, (set_samplerState (Some smp) m1), s2. eexists.
      split_and!; try done.
      * by eapply extends_trans.
      * done.
      * intros _. by exists t1, v1, r1, t2, v2, r2, smp.
      * intros H. split; [done|]. by apply Hr2, Hr.
    + exists false, (set_samplerState None m1), s2. eexists.
      split_and!; try done.
      * by eapply extends_trans.
      * by rewrite app_nil_r.
      * intros H. destruct (Hr2 (proj2 (Hr H))) as [? _]. done.
  - exists false, m1, s1, evs1. by split_and!.
Qed.

Lemma Effect_Shutdown_extends e s :
  ∃ evs, extends s (Effect.Shutdown e s).2 evs ∧ creations evs = [] ∧
         draws evs = [].
Proof.
  unfold Effect.Shutdown, ShaderUtils.reset. simpl. eexists. split.
  - eapply extends_trans; [eapply extends_trans|]; apply SafeRelease_extends.
  - by destruct (Effect.m_parameterBuffer e), (Effect.m_vertexShader e),
      (Effect.m_pixelShader e).
Qed.

Lemma Shutdown_effects_extends (l : list (PostProcessEffect * Effect.t)) : ∀ s,
  ∃ evs, extends s (foldl (fun s e => (Effect.Shutdown e.2 s).2) s l) evs.
Proof.
  induction l as [|e l IH]; intros s; simpl; [exists []; apply extends_refl|].
  destruct (Effect_Shutdown_extends e.2 s) as (evs1 & H1 & _).
  destruct (IH (Effect.Shutdown e.2 s).2) as (evs2 & H2).
  exists (evs1 ++ evs2). by eapply extends_trans.
Qed.

Lemma SafeRelease_log p s :
  log (SafeRelease p s) = log s ++ release_events [p].
Proof. destruct p; simpl; [done|by rewrite app_nil_r]. Qed.

(** What [Shutdown] appends after shutting the instances down. *)
Lemma Shutdown_log m s :
  ∃ evs, log (Shutdown m s).2 =
         (log s ++ evs) ++
         release_events
           [ m_samplerState m; m_shaderResourceView2 m; m_shaderResourceView1 m;
             m_renderTargetView2 m; m_renderTargetView1 m;
             m_renderTarget2 m; m_renderTarget1 m ].
Proof.
  unfold Shutdown. simpl.
  destruct (Shutdown_effects_extends (map_to_list (m_effects m)) s)
    as (evs & Hext).
  exists evs. rewrite <- Hext. rewrite !SafeRelease_log.
  rewrite <- !app_assoc. f_equal.
  unfold release_events. by rewrite <- !omap_app.
Qed.

(** [Shutdown] releases every object the manager holds for its render
    targets. *)
Lemma Shutdown_releases_held m s h :
  Some h ∈ held m → Released h ∈ log (Shutdown m s).2.
Proof.
  intros Hin. destruct (Shutdown_log m s) as (evs & ->).
  apply elem_of_app. right. apply list_elem_of_omap. exists (Some h).
  split; [|done]. unfold held in Hin.
  repeat (apply elem_of_cons in Hin; destruct Hin as [Hin|Hin]);
    try (by apply elem_of_nil in Hin); rewrite Hin; find_held.
Qed.

End TargetFacts.

(** * The properties of the pipeline *)

Module PipelineProperties.
Import D3D Spec D3DFacts EffectFacts PostProcessManager ChainFacts
  ProcessFacts TargetFacts Engine Demo.

Ltac find_event :=
  repeat first [ apply list_elem_of_here | apply list_elem_of_further ].

(** Dropping an entry that is not applied from a three-entry chain. *)
Lemma passes_middle_skipped m output a b c cur rt1 :
  runs m b = false →
  passes m output [a; b; c] cur rt1 = passes m output [a; c] cur rt1.
Proof.
  unfold runs. intros Hb. simpl.
  destruct (m_effects m !! b) as [eb|]; [rewrite Hb|]; done.
Qed.

(** C1, at the chain [Bloom (enabled); Vignette (disabled)] on a device
    that never fails: [Process] returns after a single draw, the draw of
    Bloom into the first intermediate target, so the final output is not
    written by the last enabled effect nor by anything else. *)
Theorem Process_last_entry_disabled :
  let ms := disable Vignette (startup [] [Bloom; Vignette]) in
  targets_written (frame ms) = Some [m_renderTargetView1 ms.1] ∧
  textures_read (frame ms) = Some [Some sceneTexture] ∧
  m_renderTargetView1 ms.1 ≠ Some backBuffer ∧
  runs ms.1 Bloom = true ∧ runs ms.1 Vignette = false.
Proof. vm_compute. split_and!; try reflexivity. discriminate. Qed.

(** Where the last entry of the order list is applied, on an initialised
    manager and a device that does not fail, the last draw of [Process],
    and only it, writes the final output. *)
Lemma Process_writes_final_output ctx input output m p d :
  ready m → reliable (device_state p) →
  last (m_effectOrder m) = Some d → runs m d = true →
  m_renderTargetView1 m ≠ Some output → m_renderTargetView2 m ≠ Some output →
  ∃ p' evs ds dlast,
    Process (Some ctx) (Some input) (Some output) m p = Some p' ∧
    extends (device_state p) (device_state p') evs ∧
    draws evs = ds ++ [dlast] ∧ OMRenderTarget dlast = Some output ∧
    Forall (fun d => OMRenderTarget d ≠ Some output) ds.
Proof.
  intros Hm Hrel Hlast Hd Hn1 Hn2.
  assert (m_effectOrder m ≠ []) as Hne by (by intros H; rewrite H in Hlast).
  pose proof (passes_ok m (Some output) (m_effectOrder m) (Some input) true
                Hm (mk_is_Some _ _ eq_refl) (mk_is_Some _ _ eq_refl)) as Hok.
  destruct (passes_final m (Some output) _ (Some input) true d Hlast Hd)
    as (ps & e & cur' & Hps & _ & Hall).
  rewrite Hps in Hok.
  destruct (run_passes_spec ctx (m_parameters m) _
              (PSSetSamplers (m_samplerState m) (device_state p)) Hok)
    as (s' & evs & Hrun & Hext & _ & _ & _ & Hdraws).
  destruct (Hdraws Hrel) as [_ H2]. clear Hdraws.
  apply Forall2_app_inv_l in H2.
  destruct H2 as (ds & dl & Hds & Hdl & Heq).
  inversion Hdl as [|? dlast ? ? Hby Hrest]; subst. inversion Hrest; subst.
  exists (mkProgram (PSSetSamplers None s') (copyEffect p)), evs, ds, dlast.
  split_and!; [by rewrite Process_run, Hps, Hrun|done|done|apply Hby|].
  clear -Hds Hall Hn1 Hn2.
  induction Hds as [|q d0 ps ds Hq _ IH]; [constructor|].
  inversion Hall as [|? ? Hq' Hall']; subst. constructor; [|by apply IH].
  destruct Hq as [-> _]. by destruct Hq' as [->| ->].
Qed.

(** Where the last entry of the order list is not applied, because it is
    disabled or has no instance, no draw of [Process] writes the final
    output, whatever the other entries are. *)
Lemma Process_never_writes_final_output ctx input output m p d :
  ready m → last (m_effectOrder m) = Some d → runs m d = false →
  m_renderTargetView1 m ≠ Some output → m_renderTargetView2 m ≠ Some output →
  ∃ p' evs,
    Process (Some ctx) (Some input) (Some output) m p = Some p' ∧
    extends (device_state p) (device_state p') evs ∧
    Forall (fun d => OMRenderTarget d ≠ Some output) (draws evs).
Proof.
  intros Hm Hlast Hd Hn1 Hn2.
  assert (m_effectOrder m ≠ []) as Hne by (by intros H; rewrite H in Hlast).
  pose proof (passes_ok m (Some output) (m_effectOrder m) (Some input) true
                Hm (mk_is_Some _ _ eq_refl) (mk_is_Some _ _ eq_refl)) as Hok.
  pose proof (passes_last_skipped m (Some output) _ (Some input) true d
                Hlast Hd) as Hskip.
  destruct (run_passes_spec ctx (m_parameters m) _
              (PSSetSamplers (m_samplerState m) (device_state p)) Hok)
    as (s' & evs & Hrun & Hext & _ & _ & Hall & _).
  exists (mkProgram (PSSetSamplers None s') (copyEffect p)), evs.
  split_and!; [by rewrite Process_run, Hrun|done|].
  eapply Forall_impl; [apply Hall|]. intros d0 (q & Hq & -> & _).
  rewrite Forall_forall in Hskip. by destruct (Hskip _ Hq) as [->| ->].
Qed.

(** C2, at the chain [Grayscale (disabled)] on a device that never
    fails: every listed effect is disabled, [Process] returns without a
    single draw, and no copy of the input reaches the final output. *)
Theorem Process_all_disabled_no_copy :
  let ms := disable Grayscale (startup [] [Grayscale]) in
  m_effectOrder ms.1 = [Grayscale] ∧ runs ms.1 Grayscale = false ∧
  targets_written (frame ms) = Some [] ∧
  (p ← frame ms; Some (log (device_state p))) = Some (log ms.2).
Proof. vm_compute. by split_and!. Qed.

(** C3: on an initialised manager and a device that does not fail,
    [Process] issues one draw per enabled entry, in list order; the
    first draw reads the original input; every later draw reads the
    view of the intermediate target that the draw before it wrote, the
    targets alternating with the number of enabled entries passed, so a
    disabled entry takes no slot; and a chain [a; b; c] whose middle
    entry is not applied runs exactly as the chain [a; c]. *)
Theorem Process_input_chaining ctx input output m p :
  ready m → reliable (device_state p) → m_effectOrder m ≠ [] →
  ∃ p' evs,
    Process (Some ctx) (Some input) (Some output) m p = Some p' ∧
    extends (device_state p) (device_state p') evs ∧
    map PSShader (draws evs) = map Effect.m_pixelShader (enabled_instances m) ∧
    (∀ d, draws evs !! 0%nat = Some d → PSShaderResource0 d = Some input) ∧
    (∀ k d d', draws evs !! k = Some d → draws evs !! S k = Some d' →
       OMRenderTarget d = pingRTV m (Nat.even k) ∧
       PSShaderResource0 d' = pingSRV m (Nat.even k)) ∧
    (∀ a b c, m_effectOrder m = [a; b; c] →
       runs m a = true → runs m b = false → runs m c = true →
       Process (Some ctx) (Some input) (Some output)
               (set_chain (m_effects m) [a; c] m) p = Some p').
Proof.
  intros Hm Hrel Hne.
  pose proof (passes_ok m (Some output) (m_effectOrder m) (Some input) true
                Hm (mk_is_Some _ _ eq_refl) (mk_is_Some _ _ eq_refl)) as Hok.
  set (ps := passes m (Some output) (m_effectOrder m) (Some input) true) in *.
  set (s0 := PSSetSamplers (m_samplerState m) (device_state p)).
  destruct (run_passes_spec ctx (m_parameters m) ps s0 Hok)
    as (s' & evs & Hrun & Hext & _ & _ & _ & Hdraws).
  destruct (Hdraws Hrel) as [_ Hall]. clear Hdraws.
  exists (mkProgram (PSSetSamplers None s') (copyEffect p)), evs.
  assert (Process (Some ctx) (Some input) (Some output) m p =
          Some (mkProgram (PSSetSamplers None s') (copyEffect p))) as HP.
  { rewrite Process_run by done. fold ps s0. by rewrite Hrun. }
  split_and!; [done|done| | | |].
  - unfold enabled_instances.
    rewrite <- (passes_effects m (Some output) _ (Some input) true). fold ps.
    clear -Hall. induction Hall as [|q d ps' ds Hq _ IH]; [done|].
    simpl. rewrite IH. f_equal. apply Hq.
  - intros d Hd.
    destruct (Forall2_lookup_r _ _ _ _ _ Hall Hd) as (q & Hq & Hby).
    apply passes_head in Hq. destruct Hby as (_ & -> & _). done.
  - intros k d d' Hd Hd'.
    destruct (Forall2_lookup_r _ _ _ _ _ Hall Hd) as (q & Hq & Hby).
    destruct (Forall2_lookup_r _ _ _ _ _ Hall Hd') as (q' & Hq' & Hby').
    destruct (passes_chain _ _ _ _ _ _ _ _ Hq Hq') as [Ho Hi].
    destruct Hby as (-> & _). destruct Hby' as (_ & -> & _).
    rewrite Ho, Hi.
    by replace (xorb true (Nat.odd k)) with (Nat.even k)
      by (by rewrite <- Nat.negb_odd).
  - intros a b c Ho Ha Hb Hc. rewrite Process_run by done.
    rewrite (passes_ext m) by done.
    change (m_effectOrder (set_chain (m_effects m) [a; c] m)) with [a; c].
    rewrite <- (passes_middle_skipped m _ a b c) by done.
    rewrite <- Ho. fold ps.
    change (m_parameters (set_chain _ _ m)) with (m_parameters m).
    change (PSSetSamplers (m_samplerState (set_chain _ _ m)) _) with s0.
    by rewrite Hrun.
Qed.

Ltac concrete_ready :=
  split;
  [ intros d e; destruct d; vm_compute; intros H; simplify_eq;
    repeat split; eexists; reflexivity
  | vm_compute; repeat split; eexists; reflexivity ].

Lemma Process_input_chaining_witness :
  ∃ p' evs,
    Process (Some ImmediateContext) (Some sceneTexture) (Some backBuffer)
            chain3.1 (mkProgram chain3.2 None) = Some p' ∧
    extends (device_state (mkProgram chain3.2 None)) (device_state p') evs ∧
    (∀ d, draws evs !! 0%nat = Some d →
          PSShaderResource0 d = Some sceneTexture) ∧
    (∀ d d', draws evs !! 0%nat = Some d → draws evs !! 1%nat = Some d' →
       OMRenderTarget d = pingRTV chain3.1 (Nat.even 0) ∧
       PSShaderResource0 d' = pingSRV chain3.1 (Nat.even 0)).
Proof.
  destruct (Process_input_chaining ImmediateContext sceneTexture backBuffer
              chain3.1 (mkProgram chain3.2 None))
    as (p' & evs & HP & Hext & _ & H0 & Hk & _).
  - concrete_ready.
  - vm_compute. constructor.
  - vm_compute. discriminate.
  - exists p', evs. split_and!; [exact HP|exact Hext|exact H0|].
    intros d d' Hd Hd'. exact (Hk 0%nat d d' Hd Hd').
Defined.

(** The demo chain with tone mapping switched off runs as the chain
    [Bloom; Vignette]. *)
Example chain3_runs_as_two :
  Process (Some ImmediateContext) (Some sceneTexture) (Some backBuffer)
          chain3.1 (mkProgram chain3.2 None)
  = Process (Some ImmediateContext) (Some sceneTexture) (Some backBuffer)
            (set_chain (m_effects chain3.1) [Bloom; Vignette] chain3.1)
            (mkProgram chain3.2 None).
Proof. vm_compute. reflexivity. Qed.

(** C4 as stated fails: [Initialize] of an effect with width 0 and a
    negative height succeeds and creates its three device objects; and
    [Apply] with the shader-resource view and the render-target view of
    one and the same texture as input and output performs the draw. *)
Lemma Effect_misuse_not_rejected :
  (Effect.Initialize (Some TheDevice) 0 (-1) (Effect.new Grayscale)
                     (State_initial [])).1.1 = true ∧
  length (creations (log (Effect.Initialize (Some TheDevice) 0 (-1)
            (Effect.new Grayscale) (State_initial [])).2)) = 3%nat ∧
  ∃ e s',
    m_effects (startup [] [Bloom]).1 !! Bloom = Some e ∧
    m_renderTargetView1 (startup [] [Bloom]).1 = Some 2%positive ∧
    m_shaderResourceView1 (startup [] [Bloom]).1 = Some 3%positive ∧
    Created 2%positive (RenderTargetView 1%positive) ∈ log (startup [] [Bloom]).2 ∧
    Created 3%positive (ShaderResourceView 1%positive) ∈ log (startup [] [Bloom]).2 ∧
    Effect.Apply (Some ImmediateContext) (Some 3%positive) (Some 2%positive)
      PostProcessParams_default e (startup [] [Bloom]).2 = Some s' ∧
    map (fun d => (PSShaderResource0 d, OMRenderTarget d)) (draws (log s'))
      = [(Some 3%positive, Some 2%positive)].
Proof.
  split; [vm_compute; reflexivity|]. split; [vm_compute; reflexivity|].
  eexists. eexists. split; [vm_compute; reflexivity|].
  split; [vm_compute; reflexivity|]. split; [vm_compute; reflexivity|].
  split; [vm_compute; find_event|]. split; [vm_compute; find_event|].
  split; vm_compute; reflexivity.
Qed.

(** C4, amended: [Apply] with a null context, input or output, or on
    a disabled instance, and [Initialize] with a null device, change
    nothing.  The dimensions are
    not checked: on a device that does not fail, [Initialize] succeeds
    and stores them also when one is zero or negative.  Input and output
    are not compared: an enabled, initialised instance draws also when
    they are views of one texture. *)
Theorem Effect_argument_checks :
  (∀ input output params e s,
     Effect.Apply None input output params e s = Some s) ∧
  (∀ context output params e s,
     Effect.Apply context None output params e s = Some s) ∧
  (∀ context input params e s,
     Effect.Apply context input None params e s = Some s) ∧
  (∀ width height e s,
     Effect.Initialize None width height e s = (false, e, s)) ∧
  (∀ dev width height ty s,
     width ≤ 0 ∨ height ≤ 0 → reliable s →
     ∃ e' s', Effect.Initialize (Some dev) width height (Effect.new ty) s
                = (true, e', s') ∧
              Effect.m_width e' = Some width ∧
              Effect.m_height e' = Some height ∧
              length (creations (log s')) = (length (creations (log s)) + 3)%nat) ∧
  (∀ ctx input output texture params e s,
     Created input (ShaderResourceView texture) ∈ log s →
     Created output (RenderTargetView texture) ∈ log s →
     Effect.m_enabled e = true → Effect.initialized e → reliable s →
     ∃ s' evs d,
       Effect.Apply (Some ctx) (Some input) (Some output) params e s = Some s' ∧
       extends s s' evs ∧ draws evs = [d] ∧
       PSShaderResource0 d = Some input ∧ OMRenderTarget d = Some output) ∧
  (∀ context input output params e s,
     Effect.m_enabled e = false →
     Effect.Apply context input output params e s = Some s).
Proof.
  split_and!.
  - apply Apply_null_context.
  - apply Apply_null_input.
  - apply Apply_null_output.
  - apply Initialize_null_device.
  - intros dev width height ty s _ Hrel.
    destruct (Initialize_new_spec dev width height ty s)
      as (ok & e' & s' & evs & HI & Hext & _ & _ & _ & _ & _ & Hw & Hh & Hok
          & _ & Hr).
    destruct (Hr Hrel) as [-> _].
    destruct (Hok eq_refl) as (vs & ps & buf & -> & _).
    exists e', s'. split_and!; try done.
    rewrite Hext, creations_app, length_app. done.
  - intros ctx input output texture params e s _ _ Hen Hinit Hrel.
    destruct (Apply_spec ctx input output params e s Hen Hinit)
      as (s' & evs & HA & Hext & _ & _ & Hall & _ & Hr).
    destruct (Hr Hrel) as [_ Hlen].
    destruct (draws evs) as [|d [|d' ds]] eqn:Hd; simplify_eq/=.
    exists s', evs, d. inversion Hall as [|? ? (Ho & Hi & _) _]; subst.
    by split_and!.
  - apply Apply_disabled.
Qed.

Lemma Effect_argument_checks_witness :
  (∃ e' s',
     Effect.Initialize (Some TheDevice) 0 (-1) (Effect.new Grayscale)
                       (State_initial []) = (true, e', s') ∧
     Effect.m_width e' = Some 0 ∧ Effect.m_height e' = Some (-1) ∧
     length (creations (log s')) = 3%nat) ∧
  Effect.Apply None (Some sceneTexture) (Some backBuffer)
               PostProcessParams_default (Effect.new Grayscale)
               (State_initial []) = Some (State_initial []).
Proof.
  destruct Effect_argument_checks as (H1 & _ & _ & _ & H5 & _).
  split; [|apply H1].
  apply (H5 TheDevice 0 (-1) Grayscale (State_initial [])).
  - left. lia.
  - constructor.
Defined.

(** [AddEffect] of a descriptor that is already active changes
    neither the manager nor the device.  Hence, on a manager whose order
    list names exactly its active effects, once a first [AddEffect d]
    has made [d] active a second one changes nothing, and [d] has one
    instance in the map and one entry in the order list. *)
Theorem AddEffect_idempotent d m s :
  (is_Some (m_effects m !! d) → AddEffect d m s = (m, s)) ∧
  (consistent m →
   is_Some (m_effects (AddEffect d m s).1 !! d) →
   AddEffect d (AddEffect d m s).1 (AddEffect d m s).2 = AddEffect d m s ∧
   entries d (AddEffect d (AddEffect d m s).1 (AddEffect d m s).2).1 = 1%nat ∧
   consistent (AddEffect d (AddEffect d m s).1 (AddEffect d m s).2).1).
Proof.
  split; [apply AddEffect_active|].
  intros Hc Hact. rewrite (AddEffect_active d _ _ Hact).
  pose proof (AddEffect_consistent d m s Hc) as Hc'.
  destruct (AddEffect d m s) as [m1 s1]. simpl in *.
  split_and!; [done| |done].
  destruct Hc' as [Hnd Hin]. apply filter_eq_once; [done|]. by apply Hin.
Qed.

Lemma AddEffect_idempotent_witness :
  AddEffect Bloom (AddEffect Bloom (startup [] []).1 (startup [] []).2).1
                  (AddEffect Bloom (startup [] []).1 (startup [] []).2).2
    = AddEffect Bloom (startup [] []).1 (startup [] []).2 ∧
  entries Bloom
    (AddEffect Bloom (AddEffect Bloom (startup [] []).1 (startup [] []).2).1
                     (AddEffect Bloom (startup [] []).1 (startup [] []).2).2).1
    = 1%nat ∧
  consistent
    (AddEffect Bloom (AddEffect Bloom (startup [] []).1 (startup [] []).2).1
                     (AddEffect Bloom (startup [] []).1 (startup [] []).2).2).1.
Proof.
  apply (AddEffect_idempotent Bloom (startup [] []).1 (startup [] []).2).
  - vm_compute. split; [constructor|]. intros d. split.
    + intros H. by apply elem_of_nil in H.
    + destruct d; vm_compute; intros [? H]; discriminate H.
  - vm_compute. eexists. reflexivity.
Defined.

(** [Shutdown] clears the map but not the order list: on a manager that
    is shut down and initialised again the order list still names Bloom,
    and adding Bloom appends a second entry. *)
Example AddEffect_after_Shutdown :
  let ms := startup [] [Bloom] in
  let ms1 := Shutdown ms.1 ms.2 in
  let r := Initialize (Some TheDevice) 1280 720 ms1.1 ms1.2 in
  m_effectOrder ms1.1 = [Bloom] ∧ m_effects ms1.1 = ∅ ∧
  m_effectOrder (AddEffect Bloom r.1.2 r.2).1 = [Bloom; Bloom].
Proof. vm_compute. by split_and!. Qed.

(** An entry of the order list that has no instance is doubled by the
    next [AddEffect] of its descriptor that succeeds: the guard of
    [AddEffect] looks the descriptor up in the map only. *)
Lemma AddEffect_stale_entry d m s :
  m_effects m !! d = None → is_Some (m_device m) → reliable s →
  AddEffect d (AddEffect d m s).1 (AddEffect d m s).2 = AddEffect d m s ∧
  is_Some (m_effects (AddEffect d m s).1 !! d) ∧
  entries d (AddEffect d m s).1 = S (entries d m).
Proof.
  intros Hd [dev Hdev] Hrel.
  destruct (AddEffect_inactive d m s Hd) as (ok & e & s1 & HI & _ & _ & HA).
  rewrite Hdev in HI.
  destruct (Initialize_new_spec dev (m_width m) (m_height m) d s)
    as (ok' & e' & s1' & evs & HI' & _ & _ & _ & _ & _ & _ & _ & _ & _ & _ & Hr).
  rewrite HI in HI'. simplify_eq. destruct (Hr Hrel) as [-> _].
  assert (is_Some (m_effects (AddEffect d m s).1 !! d)) as Hact.
  { rewrite HA. cbn. rewrite lookup_insert_eq. by eexists. }
  split_and!; [|done|].
  { rewrite (AddEffect_active d _ _ Hact). by destruct (AddEffect d m s). }
  rewrite HA. unfold entries. cbn. rewrite filter_app, length_app. cbn.
  rewrite decide_True by done. cbn. lia.
Qed.

(** C5, at the manager of the program [restart_ops] on a device that
    never fails: the manager was initialised, given Bloom, shut down and
    initialised again.  [Shutdown] has cleared the map but kept the
    order list, so Bloom is not active while the list still names it.
    Of two [AddEffect Bloom] in a row the first stores an instance and
    appends a second entry, the second changes nothing: Bloom has one
    instance and two entries, and the next frame applies that instance
    twice, into the first intermediate target and from it into the back
    buffer. *)
Theorem AddEffect_twice_after_Shutdown :
  let once := AddEffect Bloom restarted.1 restarted.2 in
  let twice := AddEffect Bloom once.1 once.2 in
  Engine.run restart_ops (Engine.World_initial [])
    = Some (Engine.mkWorld {[ 0%nat := restarted.1 ]}
                           (mkProgram restarted.2 None)) ∧
  m_effects restarted.1 = ∅ ∧ m_effectOrder restarted.1 = [Bloom] ∧
  twice = once ∧
  size (m_effects twice.1) = 1%nat ∧ is_Some (m_effects twice.1 !! Bloom) ∧
  m_effectOrder twice.1 = [Bloom; Bloom] ∧ entries Bloom twice.1 = 2%nat ∧
  targets_written (frame twice)
    = Some [m_renderTargetView1 twice.1; Some backBuffer] ∧
  textures_read (frame twice)
    = Some [Some sceneTexture; m_shaderResourceView1 twice.1].
Proof.
  vm_compute. split_and!; try reflexivity. by eexists.
Qed.

(** C6: for a descriptor that is not active, [AddEffect] is decided by
    the result of the new instance's [Initialize].  If it fails, at
    whichever of its three steps, the manager is returned unchanged: the
    descriptor is in neither the order list nor the map.  If it succeeds
    the instance is fully initialised, the descriptor is appended to the
    order list and the instance is stored under it.  [AddEffect] has no
    failing result; a manager that stores only fully initialised
    instances still does so afterwards, and every instance the loop of
    [Process] then applies is fully initialised. *)
Theorem AddEffect_atomic d m s ok e s1 :
  m_effects m !! d = None →
  Effect.Initialize (m_device m) (m_width m) (m_height m) (Effect.new d) s
    = (ok, e, s1) →
  (ok = false →
     ¬ Effect.initialized e ∧ (AddEffect d m s).1 = m ∧
     d ∉ dom (m_effects (AddEffect d m s).1)) ∧
  (ok = true →
     Effect.initialized e ∧
     m_effectOrder (AddEffect d m s).1 = m_effectOrder m ++ [d] ∧
     m_effects (AddEffect d m s).1 = <[d := e]> (m_effects m)) ∧
  (all_initialized m →
     all_initialized (AddEffect d m s).1 ∧
     ∀ output cur rt1 p,
       p ∈ passes (AddEffect d m s).1 output
                  (m_effectOrder (AddEffect d m s).1) cur rt1 →
       Effect.initialized (pass_effect p)).
Proof.
  intros Hd HI.
  destruct (AddEffect_inactive d m s Hd) as (ok' & e' & s1' & HI' & Hok & Hko & HA).
  rewrite HI in HI'. simplify_eq. split_and!.
  - intros ->. rewrite HA. split_and!; [by apply Hko|done|].
    by apply not_elem_of_dom.
  - intros ->. rewrite HA. split_and!; [by apply Hok|done|done].
  - intros Hall. pose proof (AddEffect_all_initialized d m s Hall) as Hall'.
    split; [done|]. intros output cur rt1 p Hp.
    apply passes_from_effects in Hp. destruct Hp as (d0 & _ & He).
    by apply (Hall' d0).
Qed.

(** The pixel-shader step fails on the second device call. *)
Lemma AddEffect_atomic_witness :
  ∃ e s1,
    Effect.Initialize (m_device (startup [] []).1) (m_width (startup [] []).1)
      (m_height (startup [] []).1) (Effect.new Bloom)
      (State_initial [true; false]) = (false, e, s1) ∧
    ¬ Effect.initialized e ∧
    (AddEffect Bloom (startup [] []).1 (State_initial [true; false])).1
      = (startup [] []).1 ∧
    Bloom ∉ dom (m_effects
      (AddEffect Bloom (startup [] []).1 (State_initial [true; false])).1).
Proof.
  eexists. eexists.
  assert (Effect.Initialize (m_device (startup [] []).1)
            (m_width (startup [] []).1) (m_height (startup [] []).1)
            (Effect.new Bloom) (State_initial [true; false])
          = (false,
             Effect.mk Bloom true (Some 1%positive) None None
                       (Some 1280) (Some 720),
             mkState 2%positive [] Pipeline_empty
               [Created 1%positive (ShaderObject Vertex FULLSCREEN_QUAD_VS)]))
    as HI by (vm_compute; reflexivity).
  split; [exact HI|].
  refine (proj1 (AddEffect_atomic Bloom (startup [] []).1
                   (State_initial [true; false]) _ _ _ _ HI) eq_refl).
  vm_compute. reflexivity.
Defined.

(** The three failing steps of [Initialize] seen from [AddEffect]: the
    chain is unchanged and what was created is released again. *)
Example AddEffect_vertex_shader_fails :
  AddEffect Bloom (startup [] []).1 (State_initial [false])
  = ((startup [] []).1, mkState 1%positive [] Pipeline_empty []).
Proof. vm_compute. reflexivity. Qed.

Example AddEffect_pixel_shader_fails :
  AddEffect Bloom (startup [] []).1 (State_initial [true; false])
  = ((startup [] []).1,
     mkState 2%positive [] Pipeline_empty
       [ Created 1%positive (ShaderObject Vertex FULLSCREEN_QUAD_VS);
         Released 1%positive ]).
Proof. vm_compute. reflexivity. Qed.

Example AddEffect_buffer_fails :
  AddEffect Bloom (startup [] []).1 (State_initial [true; true; false])
  = ((startup [] []).1,
     mkState 3%positive [] Pipeline_empty
       [ Created 1%positive (ShaderObject Vertex FULLSCREEN_QUAD_VS);
         Created 2%positive (ShaderObject Pixel BLOOM_PS);
         Released 1%positive; Released 2%positive ]).
Proof. vm_compute. reflexivity. Qed.

(** C7 as stated fails: when the second texture cannot be created,
    [CreateRenderTargets] returns false, the first texture and its two
    views stay in the manager's fields, and nothing has been released. *)
Lemma CreateRenderTargets_failure_keeps_surfaces :
  ∃ m' s',
    CreateRenderTargets (set_target (Some TheDevice) 1280 720 new)
                        (State_initial [true; true; true; false])
      = (false, m', s') ∧
    held m' = [ Some 1%positive; Some 2%positive; Some 3%positive;
                None; None; None ] ∧
    map fst (creations (log s')) = [1%positive; 2%positive; 3%positive] ∧
    releases (log s') = [].
Proof. eexists. eexists. vm_compute. by split_and!. Qed.

(** C7, amended: on a device, [CreateRenderTargets] creates both
    textures from one description, of format R8G8B8A8_UNORM with the
    manager's dimensions, and a render-target view and a shader-resource
    view of each.  When a creation fails it returns false at once and
    releases nothing: every object created so far is still held in the
    manager's fields, where a later [Shutdown] releases it. *)
Theorem CreateRenderTargets_outcome m s :
  is_Some (m_device m) →
  ∃ ok m' s' evs,
    CreateRenderTargets m s = (ok, m', s') ∧
    extends s s' evs ∧ releases evs = [] ∧
    Format (textureDesc m) = DXGI_FORMAT_R8G8B8A8_UNORM ∧
    Width (textureDesc m) = to_UINT (m_width m) ∧
    Height (textureDesc m) = to_UINT (m_height m) ∧
    (ok = true →
       ∃ t1 v1 r1 t2 v2 r2,
         evs = target_events m t1 v1 r1 t2 v2 r2 ∧
         held m' = [Some t1; Some v1; Some r1; Some t2; Some v2; Some r2]) ∧
    (ok = false → (length (creations evs) < 6)%nat ∧ None ∈ held m') ∧
    (∀ h r, (h, r) ∈ creations evs →
       Some h ∈ held m' ∧ ∀ s2, Released h ∈ log (Shutdown m' s2).2).
Proof.
  intros Hdev.
  destruct (CreateRenderTargets_spec m s Hdev)
    as (ok & m' & s' & evs & HC & Hext & Hrel & _ & _ & _ & _ & _ & _ & Hheld
        & Hok & Hko & _).
  exists ok, m', s', evs. split_and!; try done.
  intros h r Hin. rewrite Forall_forall in Hheld.
  specialize (Hheld _ Hin). simpl in Hheld. split; [done|].
  intros s2. by apply Shutdown_releases_held.
Qed.

Lemma CreateRenderTargets_outcome_witness :
  ∃ ok m' s' evs,
    CreateRenderTargets (set_target (Some TheDevice) 1280 720 new)
                        (State_initial [true; true; true; false])
      = (ok, m', s') ∧
    extends (State_initial [true; true; true; false]) s' evs ∧
    releases evs = [].
Proof.
  destruct (CreateRenderTargets_outcome
              (set_target (Some TheDevice) 1280 720 new)
              (State_initial [true; true; true; false]))
    as (ok & m' & s' & evs & HC & Hext & Hrel & _).
  - vm_compute. eexists. reflexivity.
  - exists ok, m', s', evs. split_and!; [exact HC|exact Hext|exact Hrel].
Defined.

Lemma AddEffect_creates_no_texture d m s :
  ∃ evs, extends s (AddEffect d m s).2 evs ∧ textures_created evs = [].
Proof.
  unfold AddEffect. destruct (m_effects m !! d) as [e|].
  { exists []. split; [apply extends_refl|done]. }
  destruct (m_device m) as [dev|].
  - destruct (Initialize_new_spec dev (m_width m) (m_height m) d s)
      as (ok & e & s1 & evs & -> & Hext & _ & Htex & _).
    destruct ok; [by exists evs|].
    destruct (Effect_Shutdown_extends e s1) as (evs2 & Hext2 & Hcr & _).
    exists (evs ++ evs2). split; [by eapply extends_trans|].
    rewrite textures_created_app, Htex. unfold textures_created.
    by rewrite Hcr.
  - simpl. destruct (Effect_Shutdown_extends (Effect.new d) s)
      as (evs2 & Hext2 & Hcr & _).
    exists evs2. split; [done|]. unfold textures_created. by rewrite Hcr.
Qed.

(** C8: a successful [Initialize] creates exactly two textures, the two
    render targets of the manager; [AddEffect] creates none; and
    [Process] on an initialised manager with a chain of two or more
    entries returns having created no texture, every draw of it writing
    the final output or one of the two render-target views and reading
    the input or one of the two shader-resource views. *)
Theorem intermediate_surfaces_constant :
  (∀ dev width height m s m' s',
     Initialize (Some dev) width height m s = (true, m', s') →
     ∃ evs t1 t2,
       extends s s' evs ∧
       textures_created evs =
         [ (t1, Texture2D (textureDesc m')); (t2, Texture2D (textureDesc m')) ] ∧
       m_renderTarget1 m' = Some t1 ∧ m_renderTarget2 m' = Some t2 ∧
       targets_ready m') ∧
  (∀ d m s, ∃ evs,
     extends s (AddEffect d m s).2 evs ∧ textures_created evs = []) ∧
  (∀ ctx input output m p,
     ready m → (2 ≤ length (m_effectOrder m))%nat →
     ∃ p' evs,
       Process (Some ctx) (Some input) (Some output) m p = Some p' ∧
       extends (device_state p) (device_state p') evs ∧
       textures_created evs = [] ∧
       Forall (fun d =>
         OMRenderTarget d ∈
           [Some output; m_renderTargetView1 m; m_renderTargetView2 m] ∧
         PSShaderResource0 d ∈
           [Some input; m_shaderResourceView1 m; m_shaderResourceView2 m])
         (draws evs)).
Proof.
  split_and!.
  - intros dev width height m s m' s' HI.
    destruct (Initialize_spec dev width height m s)
      as (ok & m1 & s1 & evs & HI' & Hext & _ & _ & _ & _ & _ & Hok & _).
    rewrite HI in HI'. injection HI' as <- <- <-.
    destruct (Hok eq_refl) as (t1 & v1 & r1 & t2 & v2 & r2 & smp & -> & Hheld & _).
    exists (target_events m' t1 v1 r1 t2 v2 r2 ++ [Created smp SamplerState]),
      t1, t2.
    unfold held in Hheld. injection Hheld as H1 H2 H3 H4 H5 H6.
    unfold targets_ready. rewrite H1, H2, H3, H4, H5, H6.
    by split_and!.
  - apply AddEffect_creates_no_texture.
  - intros ctx input output m p Hm Hlen.
    assert (m_effectOrder m ≠ []) as Hne.
    { intros H. rewrite H in Hlen. simpl in Hlen. lia. }
    pose proof (passes_ok m (Some output) (m_effectOrder m) (Some input) true
                  Hm (mk_is_Some _ _ eq_refl) (mk_is_Some _ _ eq_refl)) as Hok.
    destruct (run_passes_spec ctx (m_parameters m) _
                (PSSetSamplers (m_samplerState m) (device_state p)) Hok)
      as (s' & evs & Hrun & Hext & Htex & _ & Hall & _).
    exists (mkProgram (PSSetSamplers None s') (copyEffect p)), evs.
    split_and!; [by rewrite Process_run, Hrun|done|done|].
    eapply Forall_impl; [apply Hall|]. intros d (q & Hq & Ho & Hi & _).
    pose proof (passes_surfaces m (Some output) (m_effectOrder m)
                  (Some input) true) as Hs.
    rewrite Forall_forall in Hs. destruct (Hs _ Hq) as [Hqo Hqi].
    rewrite Ho, Hi. split.
    + destruct Hqo as [->| [->| ->]]; find_event.
    + destruct Hqi as [->| [->| ->]]; find_event.
Qed.

Lemma intermediate_surfaces_constant_witness :
  ∃ p' evs,
    Process (Some ImmediateContext) (Some sceneTexture) (Some backBuffer)
            chain3.1 (mkProgram chain3.2 None) = Some p' ∧
    extends (device_state (mkProgram chain3.2 None)) (device_state p') evs ∧
    textures_created evs = [].
Proof.
  destruct (proj2 (proj2 intermediate_surfaces_constant)
              ImmediateContext sceneTexture backBuffer
              chain3.1 (mkProgram chain3.2 None))
    as (p' & evs & HP & Hext & Htex & _).
  - concrete_ready.
  - vm_compute. lia.
  - exists p', evs. split_and!; [exact HP|exact Hext|exact Htex].
Defined.

Lemma align16_spec size :
  0 ≤ size ≤ 2 ^ 32 - 16 →
  Effect.align16 size = (size + 15) / 16 * 16 ∧
  Effect.align16 size mod 16 = 0 ∧
  size ≤ Effect.align16 size < size + 16 ∧
  (∀ k, k mod 16 = 0 → size ≤ k → Effect.align16 size ≤ k).
Proof.
  intros Hsize. unfold Effect.align16, to_UINT.
  assert ((size + 15) mod 2 ^ 64 = size + 15) as -> by (apply Z.mod_small; lia).
  assert (0 ≤ (size + 15) / 16 * 16 ≤ size + 15) as Hq
    by (Z.div_mod_to_equations; lia).
  rewrite (Z.mod_small _ (2 ^ 64)) by lia.
  rewrite (Z.mod_small _ (2 ^ 32)) by lia.
  split_and!; [done| | | |]; try (Z.div_mod_to_equations; lia).
  intros k Hk Hle. Z.div_mod_to_equations. lia.
Qed.

(** C9: the parameter block is 96 bytes; [GetParameterBufferSize] is
    [((sizeof + 15) / 16) * 16], the least multiple of 16 that is at
    least [sizeof], and this holds for every block size the [UINT]
    result can represent; and the constant buffer every instance creates
    in a successful [Initialize] has exactly this [ByteWidth]. *)
Theorem parameter_buffer_size :
  sizeof_PostProcessParams = 96 ∧
  Effect.GetParameterBufferSize = (sizeof_PostProcessParams + 15) / 16 * 16 ∧
  Effect.GetParameterBufferSize mod 16 = 0 ∧
  sizeof_PostProcessParams ≤ Effect.GetParameterBufferSize ∧
  (∀ k, k mod 16 = 0 → sizeof_PostProcessParams ≤ k →
        Effect.GetParameterBufferSize ≤ k) ∧
  (∀ size, 0 ≤ size ≤ 2 ^ 32 - 16 →
     Effect.align16 size = (size + 15) / 16 * 16 ∧
     Effect.align16 size mod 16 = 0 ∧ size ≤ Effect.align16 size ∧
     ∀ k, k mod 16 = 0 → size ≤ k → Effect.align16 size ≤ k) ∧
  (∀ dev width height ty s e' s',
     Effect.Initialize (Some dev) width height (Effect.new ty) s = (true, e', s') →
     ∃ buf desc,
       Effect.m_parameterBuffer e' = Some buf ∧
       last (log s') = Some (Created buf (Buffer desc)) ∧
       ByteWidth desc = Effect.GetParameterBufferSize ∧
       BufBindFlags desc = D3D11_BIND_CONSTANT_BUFFER).
Proof.
  assert (0 ≤ sizeof_PostProcessParams ≤ 2 ^ 32 - 16) as Hs
    by (vm_compute; split; discriminate).
  destruct (align16_spec _ Hs) as (H1 & H2 & H3 & H4).
  change Effect.GetParameterBufferSize
    with (Effect.align16 sizeof_PostProcessParams).
  split_and!; [reflexivity|exact H1|exact H2|lia|exact H4| |].
  - intros size Hsize. destruct (align16_spec _ Hsize) as (? & ? & ? & ?).
    split_and!; try done. lia.
  - intros dev width height ty s e' s' HI.
    destruct (Initialize_new_spec dev width height ty s)
      as (ok & e1 & s1 & evs & HI' & Hext & _ & _ & _ & _ & _ & _ & _ & Hok & _).
    rewrite HI in HI'. injection HI' as <- <- <-.
    destruct (Hok eq_refl) as (vs & ps & buf & -> & _ & _ & Hbuf).
    exists buf, Effect.parameterBufferDesc. split_and!; try done.
    rewrite Hext. unfold init_events.
    by rewrite (last_app_cons _ [_; _]).
Qed.

Lemma parameter_buffer_size_witness :
  ∃ buf desc,
    Effect.m_parameterBuffer
      (Effect.mk Grayscale true (Some 1%positive) (Some 2%positive)
                 (Some 3%positive) (Some 1280) (Some 720)) = Some buf ∧
    last (log (mkState 4%positive [] Pipeline_empty
                 (init_events Grayscale 1%positive 2%positive 3%positive)))
      = Some (Created buf (Buffer desc)) ∧
    ByteWidth desc = Effect.GetParameterBufferSize ∧
    BufBindFlags desc = D3D11_BIND_CONSTANT_BUFFER.
Proof.
  destruct parameter_buffer_size as (_ & _ & _ & _ & _ & _ & H).
  apply (H TheDevice 1280 720 Grayscale (State_initial [])).
  vm_compute. reflexivity.
Defined.

(** The static of [CopyTexture] changes only where it is null. *)
Lemma CopyTexture_copyEffect context input output m p p' :
  CopyTexture context input output m p = Some p' →
  copyEffect p' = copyEffect p ∨
  (copyEffect p = None ∧ is_Some context ∧ is_Some input ∧ is_Some output).
Proof.
  unfold CopyTexture.
  destruct context, input, output; try (intros [= <-]; by left).
  destruct (copyEffect p) as [e|] eqn:He.
  - destruct (Effect.Apply _ _ _ _ _ _); simpl; intros [= <-]. by left.
  - intros _. right. by split_and!.
Qed.

Lemma Process_copyEffect context input output m p p' :
  Process context input output m p = Some p' →
  copyEffect p' = copyEffect p ∨
  (copyEffect p = None ∧ m_effectOrder m = [] ∧
   is_Some context ∧ is_Some input ∧ is_Some output).
Proof.
  unfold Process.
  destruct context as [c|], input as [i|], output as [o|];
    try (intros H; apply CopyTexture_copyEffect in H;
         destruct H as [H|(_ & H1 & H2 & H3)];
         [by left|by (destruct H1 || destruct H2 || destruct H3)]).
  destruct (m_effectOrder m) as [|d rest] eqn:Ho.
  - intros H. apply CopyTexture_copyEffect in H.
    destruct H as [H|(H & _)]; [by left|]. right. by split_and!.
  - destruct (Process_loop _ _ _ _ _ _); simpl; intros [= <-]. by left.
Qed.

Lemma call_copyEffect id f w w' :
  call id f w = Some w' → copyEffect (program w') = copyEffect (program w).
Proof.
  unfold call. destruct (managers w !! id) as [m|]; simpl; [|done].
  destruct (f m _). by intros [= <-].
Qed.

(** The static is constructed only by a copy, that is by a [Process]
    with non-null arguments on a manager whose order list is empty. *)
Lemma step_copyEffect op w w' :
  step op w = Some w' →
  copyEffect (program w') = copyEffect (program w) ∨
  (copyEffect (program w) = None ∧
   ∃ id m ctx input output,
     op = OpProcess id (Some ctx) (Some input) (Some output) ∧
     managers w !! id = Some m ∧ m_effectOrder m = []).
Proof.
  destruct op; simpl; try (intros H; left; by apply call_copyEffect in H).
  - intros [= <-]. by left.
  - destruct (managers w !! id) as [m|] eqn:Hm; simpl; [|done].
    destruct (Process _ _ _ _ _) as [p'|] eqn:HP; simpl; [|done].
    intros [= <-]. simpl. apply Process_copyEffect in HP.
    destruct HP as [HP|(Hnone & Ho & [c ->] & [i ->] & [o ->])]; [by left|].
    right. split; [done|]. by exists id, m, c, i, o.
Qed.

Lemma run_copyEffect ops : ∀ w w' e,
  copyEffect (program w) = Some e → run ops w = Some w' →
  copyEffect (program w') = Some e.
Proof.
  induction ops as [|op ops IH]; intros w w' e He; simpl.
  - by intros [= <-].
  - destruct (step op w) as [w1|] eqn:Hstep; simpl; [|done].
    apply IH. apply step_copyEffect in Hstep.
    destruct Hstep as [->|[Hnone _]]; congruence.
Qed.

(** The first copy on a device that does not fail: the static is
    constructed and initialised with the manager's device and size, and
    one draw copies the input to the output with the COPY pixel shader. *)
Lemma CopyTexture_first ctx input output m p :
  copyEffect p = None → is_Some (m_device m) → reliable (device_state p) →
  ∃ p' e evs d ps,
    CopyTexture (Some ctx) (Some input) (Some output) m p = Some p' ∧
    copyEffect p' = Some e ∧ Effect.initialized e ∧
    Effect.m_width e = Some (m_width m) ∧
    Effect.m_height e = Some (m_height m) ∧
    extends (device_state p) (device_state p') evs ∧
    Effect.m_pixelShader e = Some ps ∧
    Created ps (ShaderObject Pixel COPY_PS) ∈ evs ∧
    draws evs = [d] ∧ OMRenderTarget d = Some output ∧
    PSShaderResource0 d = Some input ∧ PSShader d = Some ps.
Proof.
  intros Hnone [dev Hdev] Hrel. unfold CopyTexture. rewrite Hnone, Hdev.
  destruct (Initialize_new_spec dev (m_width m) (m_height m) None_
              (device_state p))
    as (ok & e & s1 & evs1 & -> & Hext1 & _ & _ & _ & _ & Hen & Hw & Hh & Hok
        & _ & Hr).
  destruct (Hr Hrel) as [-> Hrel1].
  destruct (Hok eq_refl) as (vs & ps & buf & -> & Hvs & Hps & Hbuf).
  assert (Effect.initialized e) as Hinit.
  { unfold Effect.initialized. rewrite Hvs, Hps, Hbuf, Hw, Hh. by split_and!. }
  destruct (Apply_spec ctx input output PostProcessParams_default e s1 Hen Hinit)
    as (s2 & evs2 & -> & Hext2 & _ & _ & Hall & _ & Hr2).
  destruct (Hr2 Hrel1) as [_ Hlen]. simpl.
  destruct (draws evs2) as [|d [|d' ds]] eqn:Hd; simplify_eq/=.
  inversion Hall as [|? ? (Ho & Hi & _ & Hp & _) _]; subst.
  eexists _, e, (init_events None_ vs ps buf ++ evs2), d, ps.
  split_and!; try done.
  - by eapply extends_trans.
  - apply elem_of_app. left. unfold init_events. find_event.
  - congruence.
Qed.

(** On an empty chain [Process] is the copy. *)
Lemma Process_empty_chain context input output m p :
  m_effectOrder m = [] →
  Process context input output m p = CopyTexture context input output m p.
Proof. unfold Process. intros ->. by destruct context, input, output. Qed.

(** A copy made once the static exists: nothing is initialised, the one
    draw uses the instance as it is. *)
Lemma CopyTexture_later ctx input output m p e :
  copyEffect p = Some e → Effect.m_enabled e = true → Effect.initialized e →
  reliable (device_state p) →
  ∃ p' evs d,
    CopyTexture (Some ctx) (Some input) (Some output) m p = Some p' ∧
    copyEffect p' = Some e ∧
    extends (device_state p) (device_state p') evs ∧
    draws evs = [d] ∧ OMRenderTarget d = Some output ∧
    PSShaderResource0 d = Some input ∧ PSShader d = Effect.m_pixelShader e.
Proof.
  intros He Hen Hinit Hrel. unfold CopyTexture. rewrite He.
  destruct (Apply_spec ctx input output PostProcessParams_default e
              (device_state p) Hen Hinit)
    as (s' & evs & -> & Hext & _ & _ & Hall & _ & Hr).
  destruct (Hr Hrel) as [_ Hlen].
  destruct (draws evs) as [|d [|d' ds]] eqn:Hd; simplify_eq/=.
  inversion Hall as [|? ? (Ho & Hi & _ & Hp & _) _]; subst.
  exists (mkProgram s' (Some e)), evs, d. by split_and!.
Qed.

(** C10: the first copy, a [Process] with non-null arguments on a
    manager with an empty order list and a device, while the static is
    still null and the device does not fail, returns with the static
    constructed and initialised at that manager's width and height; no
    operation other than such a copy ever constructs the static; and
    whatever the program does afterwards, with this or any other manager,
    the static stays the very same instance: same shaders, same buffer,
    same stored width and height. *)
Theorem copyEffect_initialized_once w id m ctx input output :
  managers w !! id = Some m → m_effectOrder m = [] →
  is_Some (m_device m) → copyEffect (program w) = None →
  reliable (device_state (program w)) →
  ∃ w1 e,
    step (OpProcess id (Some ctx) (Some input) (Some output)) w = Some w1 ∧
    copyEffect (program w1) = Some e ∧ Effect.initialized e ∧
    Effect.m_width e = Some (m_width m) ∧
    Effect.m_height e = Some (m_height m) ∧
    (∀ ops w2, run ops w1 = Some w2 → copyEffect (program w2) = Some e) ∧
    (∀ op w0 w0',
       step op w0 = Some w0' → copyEffect (program w0) = None →
       is_Some (copyEffect (program w0')) →
       ∃ id0 m0 ctx0 input0 output0,
         op = OpProcess id0 (Some ctx0) (Some input0) (Some output0) ∧
         managers w0 !! id0 = Some m0 ∧ m_effectOrder m0 = []).
Proof.
  intros Hm Ho Hdev Hnone Hrel.
  destruct (CopyTexture_first ctx input output m (program w) Hnone Hdev Hrel)
    as (p' & e & evs & d & ps & HC & He & Hinit & Hw & Hh & _).
  exists (mkWorld (managers w) p'), e. split_and!; try done.
  - cbn [step]. rewrite Hm. cbn [mbind option_bind].
    by rewrite Process_empty_chain, HC.
  - intros ops w2. by apply run_copyEffect.
  - intros op w0 w0' Hstep Hnone0 [e0 He0].
    apply step_copyEffect in Hstep. destruct Hstep as [Heq|[_ H]]; [|done].
    congruence.
Qed.

Lemma copyEffect_initialized_once_witness :
  ∃ w1 e,
    step (OpProcess 0 (Some ImmediateContext) (Some sceneTexture)
                    (Some backBuffer)) one_manager = Some w1 ∧
    copyEffect (program w1) = Some e ∧ Effect.initialized e ∧
    Effect.m_width e = Some (m_width (startup [] []).1) ∧
    Effect.m_height e = Some (m_height (startup [] []).1) ∧
    (∀ ops w2, run ops w1 = Some w2 → copyEffect (program w2) = Some e).
Proof.
  destruct (copyEffect_initialized_once one_manager 0 (startup [] []).1
              ImmediateContext sceneTexture backBuffer)
    as (w1 & e & H1 & H2 & H3 & H4 & H5 & H6 & _).
  - vm_compute. reflexivity.
  - vm_compute. reflexivity.
  - vm_compute. eexists. reflexivity.
  - vm_compute. reflexivity.
  - vm_compute. constructor.
  - exists w1, e. split_and!;
      [exact H1|exact H2|exact H3|exact H4|exact H5|exact H6].
Defined.

(** The result of the static's [Initialize] is not looked at: when its
    vertex shader cannot be created on the first copy, [Apply] is still
    called on it and binds through a null [shared_ptr]. *)
Example CopyTexture_applies_failed_copyEffect :
  CopyTexture (Some ImmediateContext) (Some sceneTexture) (Some backBuffer)
              (startup [] []).1 (mkProgram (State_initial [false]) None)
  = None.
Proof. vm_compute. reflexivity. Qed.

(** The run of [later_ops] after the first frame: the copies made at
    1920 by 1080 and at 640 by 480 still draw with the viewport of the
    first manager's first size. *)
Example copyEffect_keeps_first_size :
  (w1 ← step (OpProcess 0 (Some ImmediateContext) (Some sceneTexture)
                        (Some backBuffer)) one_manager;
   w2 ← run later_ops w1;
   Some (Effect.m_width <$> copyEffect (program w2),
         Effect.m_height <$> copyEffect (program w2),
         map RSViewport (draws (log (device_state (program w2))))))
  = Some (Some (Some 1280), Some (Some 720),
          [Some (1280, 720); Some (1280, 720); Some (1280, 720)]).
Proof. vm_compute. reflexivity. Qed.

End PipelineProperties.

(** ** Editing the chain: [RemoveEffect] and [SetEffectEnabled] *)

Module ChainEditing.
Import D3D Spec D3DFacts EffectFacts PostProcessManager ChainFacts
  ProcessFacts TargetFacts Demo.

Lemma erase_first_absent d (l : list PostProcessEffect) :
  d ∉ l → erase_first d l = l.
Proof.
  induction l as [|a l IH]; [done|]. intros Hd.
  apply not_elem_of_cons in Hd. destruct Hd as [Hne Hd]. simpl.
  rewrite decide_False by congruence. by rewrite IH.
Qed.

Lemma erase_first_snoc d (l : list PostProcessEffect) :
  d ∉ l → erase_first d (l ++ [d]) = l.
Proof.
  induction l as [|a l IH]; intros Hd; simpl.
  - by rewrite decide_True.
  - apply not_elem_of_cons in Hd. destruct Hd as [Hne Hd].
    rewrite decide_False by congruence. by rewrite IH.
Qed.

(** Without duplicates, erasing the first occurrence erases them all and
    keeps the other entries in their order. *)
Lemma erase_first_NoDup d (l : list PostProcessEffect) :
  NoDup l → erase_first d l = filter (fun a => a ≠ d) l.
Proof.
  induction 1 as [|a l Ha Hl IH]; [done|]. simpl.
  destruct (decide (a = d)) as [->|Hne].
  - rewrite filter_cons_False by (intros H; by apply H).
    rewrite <- IH. symmetry. by apply erase_first_absent.
  - rewrite filter_cons_True by done. by rewrite IH.
Qed.

Lemma set_chain_id m : set_chain (m_effects m) (m_effectOrder m) m = m.
Proof. by destruct m. Qed.

(** [RemoveEffect] on a manager whose order list names exactly its active
    effects: a descriptor that is not active leaves manager and device
    untouched; otherwise the descriptor is gone from the map and from the
    order list, every other descriptor keeps its instance and its place,
    and the order list still names exactly the active effects. *)
Theorem RemoveEffect_removes d m s :
  consistent m →
  (m_effects m !! d = None → RemoveEffect d m s = (m, s)) ∧
  (m_effects (RemoveEffect d m s).1 !! d = None) ∧
  (d ∉ m_effectOrder (RemoveEffect d m s).1) ∧
  (m_effectOrder (RemoveEffect d m s).1
    = filter (fun a => a ≠ d) (m_effectOrder m)) ∧
  (∀ d', d' ≠ d →
     m_effects (RemoveEffect d m s).1 !! d' = m_effects m !! d') ∧
  consistent (RemoveEffect d m s).1.
Proof.
  intros [Hnd Hin]. unfold RemoveEffect.
  destruct (m_effects m !! d) as [e|] eqn:Hd; simpl.
  - rewrite erase_first_NoDup by done. split_and!.
    + done.
    + apply lookup_delete_eq.
    + rewrite list_elem_of_filter. intros [H _]. by apply H.
    + done.
    + intros d' Hne. by apply lookup_delete_ne.
    + split; simpl; [by apply NoDup_filter|].
      intros a. rewrite list_elem_of_filter, Hin.
      destruct (decide (a = d)) as [->|Hne].
      * rewrite lookup_delete_eq. split; [by intros [H _]|by intros [? H]].
      * rewrite lookup_delete_ne by done. split; [by intros [_ H]|done].
  - assert (d ∉ m_effectOrder m) as Hout.
    { intros H. apply Hin in H. rewrite Hd in H. by destruct H. }
    split_and!; try done.
    + symmetry. rewrite <- (erase_first_NoDup d) by done.
      by apply erase_first_absent.
Qed.

(** The managers of the demo runs are consistent and store only fully
    initialised instances. *)
Lemma consistent_ext m m' :
  m_effects m' = m_effects m → m_effectOrder m' = m_effectOrder m →
  consistent m → consistent m'.
Proof. unfold consistent. by intros -> ->. Qed.

Lemma AddEffects_consistent chain : ∀ ms,
  consistent ms.1 →
  consistent (foldl (fun ms d => AddEffect d ms.1 ms.2) ms chain).1.
Proof.
  induction chain as [|d chain IH]; intros ms Hc; [done|].
  simpl. apply IH. by apply AddEffect_consistent.
Qed.

Lemma startup_consistent script chain : consistent (startup script chain).1.
Proof.
  unfold startup.
  destruct (Initialize_spec TheDevice 1280 720 new (State_initial script))
    as (ok & m & s & evs & -> & _ & _ & _ & _ & He & Ho & _).
  apply (AddEffects_consistent chain (m, s)). simpl.
  by apply (consistent_ext new), new_consistent.
Qed.

Lemma RemoveEffect_removes_witness :
  (m_effectOrder (RemoveEffect Bloom (startup [] [Bloom; Vignette]).1
                               (startup [] [Bloom; Vignette]).2).1
   = filter (fun a => a ≠ Bloom) (m_effectOrder (startup [] [Bloom; Vignette]).1)).
Proof.
  apply (RemoveEffect_removes Bloom (startup [] [Bloom; Vignette]).1
           (startup [] [Bloom; Vignette]).2).
  apply startup_consistent.
Defined.

End ChainEditing.

(** ** What is created and what is released *)

Module LedgerFacts.
Import D3D Spec Ledger D3DFacts EffectFacts PostProcessManager ChainFacts
  ProcessFacts TargetFacts ChainEditing Demo.

Lemma writes_app l1 l2 : writes (l1 ++ l2) = writes l1 ++ writes l2.
Proof. apply omap_app. Qed.

(** [Initialize] of a new instance, whatever its outcome: nothing is
    released, and what was created is what the instance now holds. *)
Lemma Effect_Initialize_objects device width height ty s :
  ∃ ok e' s' evs,
    Effect.Initialize device width height (Effect.new ty) s = (ok, e', s') ∧
    extends s s' evs ∧ releases evs = [] ∧ draws evs = [] ∧
    map fst (creations evs) = effect_objects e'.
Proof.
  destruct device as [dev|].
  2:{ exists false, (Effect.new ty), s, []. split_and!; try done.
      apply extends_refl. }
  destruct s as [nh oc pl lg].
  unfold Effect.Initialize, ShaderUtils.CreateVertexShaderFromString,
    ShaderUtils.CreatePixelShaderFromString, ShaderUtils.CreateShaderFromString,
    CreateBuffer, create, next_outcome, extends, effect_objects; simpl.
  destruct oc as [|[] [|[] [|[] oc]]]; simpl;
    do 4 eexists; (split; [reflexivity|]); simpl;
    (split; [rewrite <- ?app_assoc; simpl; try reflexivity;
             by rewrite ?app_nil_r|]); by split_and!.
Qed.

(** [Shutdown] of an instance releases what the instance holds, creates
    nothing, and leaves an instance that holds nothing. *)
Lemma Effect_Shutdown_objects e s :
  ∃ evs,
    extends s (Effect.Shutdown e s).2 evs ∧ creations evs = [] ∧
    draws evs = [] ∧ releases evs ≡ₚ effect_objects e ∧
    effect_objects (Effect.Shutdown e s).1 = [].
Proof.
  unfold Effect.Shutdown, ShaderUtils.reset, effect_objects. simpl.
  eexists. split.
  - eapply extends_trans; [eapply extends_trans|]; apply SafeRelease_extends.
  - destruct (Effect.m_parameterBuffer e) as [b|],
      (Effect.m_vertexShader e) as [v|], (Effect.m_pixelShader e) as [p|];
      simpl; split_and!; try done.
    all: try (by apply Permutation_swap).
    + change [b; v; p] with ([b] ++ [v; p]).
      change [v; p; b] with ([v; p] ++ [b]). apply Permutation_app_comm.
Qed.

Lemma effect_objects_SetEnabled b e :
  effect_objects (Effect.SetEnabled b e) = effect_objects e.
Proof. done. Qed.

(** [CreateRenderTargets] on a manager that holds no target, whatever the
    outcome: nothing is released and what was created is what the manager
    now holds. *)
Lemma CreateRenderTargets_objects m s :
  is_Some (m_device m) → held m = [None; None; None; None; None; None] →
  ∃ ok m' s' evs,
    CreateRenderTargets m s = (ok, m', s') ∧
    extends s s' evs ∧ releases evs = [] ∧ draws evs = [] ∧
    map fst (creations evs) = omap id (held m') ∧
    m_effects m' = m_effects m ∧ m_effectOrder m' = m_effectOrder m ∧
    m_samplerState m' = m_samplerState m.
Proof.
  intros [dev Hdev] Hheld. destruct s as [nh oc pl lg]. destruct m.
  unfold held in Hheld. simpl in *. simplify_eq.
  unfold CreateRenderTargets, CreateTexture2D, CreateRenderTargetView,
    CreateShaderResourceView, create, next_outcome, extends, held; simpl.
  destruct oc as [|[] [|[] [|[] [|[] [|[] [|[] oc]]]]]]; simpl;
    do 4 eexists; (split; [reflexivity|]); simpl;
    (split; [rewrite <- ?app_assoc; simpl; try reflexivity;
             by rewrite ?app_nil_r|]); by split_and!.
Qed.

(** The manager's own [Initialize], on a manager that holds nothing. *)
Lemma Initialize_objects device width height m s :
  held m = [None; None; None; None; None; None] → m_samplerState m = None →
  ∃ ok m' s' evs,
    Initialize device width height m s = (ok, m', s') ∧
    extends s s' evs ∧ releases evs = [] ∧ draws evs = [] ∧
    map fst (creations evs) = omap id (held m' ++ [m_samplerState m']) ∧
    m_effects m' = m_effects m ∧ m_effectOrder m' = m_effectOrder m.
Proof.
  intros Hheld Hsmp. unfold Initialize. destruct device as [dev|].
  2:{ exists false, m, s, []. rewrite Hheld, Hsmp.
      split_and!; try done. apply extends_refl. }
  destruct (CreateRenderTargets_objects (set_target (Some dev) width height m) s)
    as (ok & m1 & s1 & evs1 & -> & Hext1 & Hrel1 & Hdr1 & Hcr1 & He & Ho & Hs);
    [by eexists|done|].
  simpl in Hs. rewrite Hsmp in Hs. destruct ok.
  - unfold CreateSamplerState.
    destruct (create_cases SamplerState s1) as [(smp & Hc & Hext2)|[Hc Hext2]];
      destruct (create SamplerState s1) as [sampler s2];
      cbn [fst snd] in Hc, Hext2; subst sampler.
    + exists true, (set_samplerState (Some smp) m1), s2. eexists.
      split_and!; [done|by eapply extends_trans| | | |done|done].
      * by rewrite releases_app, Hrel1.
      * by rewrite draws_app, Hdr1.
      * rewrite creations_app, map_app, Hcr1, omap_app. done.
    + exists false, (set_samplerState None m1), s2. eexists.
      split_and!; [done|by eapply extends_trans| | | |done|done].
      * by rewrite releases_app, Hrel1.
      * by rewrite draws_app, Hdr1.
      * rewrite creations_app, map_app, Hcr1, omap_app. done.
  - exists false, m1, s1, evs1. rewrite omap_app, Hs, <- Hcr1.
    split_and!; try done. by rewrite app_nil_r.
Qed.


Lemma settles_refl m s : settles m s m s.
Proof. exists []. split_and!; [apply extends_refl|done|done]. Qed.

Lemma settles_trans m1 s1 m2 s2 m3 s3 :
  settles m1 s1 m2 s2 → settles m2 s2 m3 s3 → settles m1 s1 m3 s3.
Proof.
  intros (e1 & H1 & Hd1 & P1) (e2 & H2 & Hd2 & P2). exists (e1 ++ e2).
  split_and!; [by eapply extends_trans|by rewrite draws_app, Hd1, Hd2|].
  rewrite creations_app, releases_app, map_app.
  rewrite <- (assoc (++)), (comm (++) (map fst (creations e2))).
  rewrite (assoc (++)), P1. rewrite <- (assoc (++)).
  rewrite (comm (++) (manager_objects m2)), P2. solve_Permutation.
Qed.

Lemma manager_objects_insert_new m d e order :
  m_effects m !! d = None →
  manager_objects (set_chain (<[d := e]> (m_effects m)) order m)
    ≡ₚ effect_objects e ++ manager_objects m.
Proof.
  intros Hd. unfold manager_objects. simpl.
  rewrite (map_to_list_insert _ _ _ Hd). simpl.
  change (held (set_chain _ _ m)) with (held m). solve_Permutation.
Qed.

Lemma manager_objects_delete m d e order :
  m_effects m !! d = Some e →
  effect_objects e ++
    manager_objects (set_chain (delete d (m_effects m)) order m)
    ≡ₚ manager_objects m.
Proof.
  intros Hd. unfold manager_objects. simpl.
  rewrite <- (map_to_list_delete _ _ _ Hd). simpl.
  change (held (set_chain _ _ m)) with (held m). solve_Permutation.
Qed.

Lemma AddEffect_settles d m s :
  settles m s (AddEffect d m s).1 (AddEffect d m s).2.
Proof.
  unfold AddEffect. destruct (m_effects m !! d) as [e0|] eqn:Hd.
  { apply settles_refl. }
  destruct (Effect_Initialize_objects (m_device m) (m_width m) (m_height m) d s)
    as (ok & e & s1 & evs & -> & Hext & Hrel & Hdr & Hcr).
  destruct ok; simpl.
  - exists evs. split_and!; [done|done|].
    rewrite Hrel, Hcr, manager_objects_insert_new by done. done.
  - destruct (Effect_Shutdown_objects e s1) as (evs2 & Hext2 & Hcr2 & Hdr2 & Hrel2 & _).
    exists (evs ++ evs2).
    split_and!; [by eapply extends_trans|by rewrite draws_app, Hdr, Hdr2|].
    rewrite creations_app, releases_app, Hcr2, app_nil_r, Hrel, Hcr, Hrel2.
    done.
Qed.

Lemma RemoveEffect_settles d m s :
  settles m s (RemoveEffect d m s).1 (RemoveEffect d m s).2.
Proof.
  unfold RemoveEffect. destruct (m_effects m !! d) as [e|] eqn:Hd.
  2:{ apply settles_refl. }
  simpl. destruct (Effect_Shutdown_objects e s) as (evs & Hext & Hcr & Hdr & Hrel & _).
  exists evs. split_and!; [done|done|].
  by rewrite Hcr, Hrel, manager_objects_delete.
Qed.

Lemma SetEffectEnabled_objects d b m :
  manager_objects (SetEffectEnabled d b m) ≡ₚ manager_objects m.
Proof.
  unfold SetEffectEnabled. destruct (m_effects m !! d) as [e|] eqn:Hd; [|done].
  rewrite <- (manager_objects_delete m d e (m_effectOrder m) Hd).
  rewrite <- (insert_delete_eq (m_effects m)).
  rewrite <- (manager_objects_insert_new
                (set_chain (delete d (m_effects m)) (m_effectOrder m) m) d
                (Effect.SetEnabled b e) (m_effectOrder m))
    by apply lookup_delete_eq.
  done.
Qed.

Lemma edit1_settles op ms : settles ms.1 ms.2 (edit1 op ms).1 (edit1 op ms).2.
Proof.
  destruct op; simpl.
  - apply AddEffect_settles.
  - apply RemoveEffect_settles.
  - exists []. split_and!; [apply extends_refl|done|].
    simpl. by rewrite SetEffectEnabled_objects.
Qed.

Lemma edit_settles ops : ∀ ms, settles ms.1 ms.2 (edit ops ms).1 (edit ops ms).2.
Proof.
  induction ops as [|op ops IH]; intros ms; [apply settles_refl|].
  simpl. eapply settles_trans; [apply edit1_settles|apply IH].
Qed.

Lemma release_events_ledger (ps : list (option handle)) :
  creations (release_events ps) = [] ∧ draws (release_events ps) = [] ∧
  releases (release_events ps) = omap id ps.
Proof.
  induction ps as [|[h|] ps (IH1 & IH2 & IH3)]; [done| |done].
  change (release_events (Some h :: ps)) with ([Released h] ++ release_events ps).
  by rewrite creations_app, draws_app, releases_app, IH1, IH2, IH3.
Qed.

Lemma Shutdown_effects_objects (l : list (PostProcessEffect * Effect.t)) : ∀ s,
  ∃ evs,
    extends s (foldl (fun s e => (Effect.Shutdown e.2 s).2) s l) evs ∧
    creations evs = [] ∧ draws evs = [] ∧
    releases evs ≡ₚ l ≫= fun de => effect_objects de.2.
Proof.
  induction l as [|de l IH]; intros s; simpl.
  { exists []. split_and!; [apply extends_refl|done|done|done]. }
  destruct (Effect_Shutdown_objects de.2 s) as (e1 & H1 & C1 & D1 & R1 & _).
  destruct (IH (Effect.Shutdown de.2 s).2) as (e2 & H2 & C2 & D2 & R2).
  exists (e1 ++ e2).
  split_and!; [by eapply extends_trans| | |].
  - by rewrite creations_app, C1, C2.
  - by rewrite draws_app, D1, D2.
  - by rewrite releases_app, R1, R2.
Qed.

(** [Shutdown] releases what the manager holds, creates and draws
    nothing, and leaves a manager that holds nothing. *)
Lemma Shutdown_releases m s :
  ∃ evs,
    extends s (Shutdown m s).2 evs ∧ creations evs = [] ∧ draws evs = [] ∧
    releases evs ≡ₚ manager_objects m.
Proof.
  destruct (Shutdown_effects_objects (map_to_list (m_effects m)) s)
    as (evs & Hext & Hcr & Hdr & Hrel).
  pose (rel :=
         [ m_samplerState m; m_shaderResourceView2 m; m_shaderResourceView1 m;
           m_renderTargetView2 m; m_renderTargetView1 m;
           m_renderTarget2 m; m_renderTarget1 m ]).
  destruct (release_events_ledger
         [ m_samplerState m; m_shaderResourceView2 m; m_shaderResourceView1 m;
           m_renderTargetView2 m; m_renderTargetView1 m;
           m_renderTarget2 m; m_renderTarget1 m ]) as (C2 & D2 & R2).
  exists (evs ++ release_events rel). subst rel. split_and!.
  - unfold extends, Shutdown. simpl. rewrite !SafeRelease_log.
    rewrite Hext, <- !app_assoc. do 2 f_equal.
    unfold release_events. by rewrite <- !omap_app.
  - by rewrite creations_app, Hcr, C2.
  - by rewrite draws_app, Hdr, D2.
  - rewrite releases_app, Hrel, R2. unfold manager_objects, held.
    etrans; [apply Permutation_app_comm|].
    apply Permutation_app; [|done].
    apply omap_Permutation. solve_Permutation.
Qed.

Lemma Shutdown_settles m s :
  settles m s (Shutdown m s).1 (Shutdown m s).2 ∧
  manager_objects (Shutdown m s).1 = [].
Proof.
  split; [|done].
  destruct (Shutdown_releases m s) as (evs & Hext & Hcr & Hdr & Hrel).
  exists evs. split_and!; [done|done|].
  change (manager_objects (Shutdown m s).1) with (@nil handle).
  by rewrite Hcr, Hrel, app_nil_r.
Qed.

(** From [Initialize] of a new manager through any editing of the chain
    to [Shutdown], whatever the device lets succeed: every object that
    was created has been released, once, and nothing else was released. *)
Theorem lifecycle_balanced device width height ops s :
  ∃ evs,
    extends s
      (Shutdown
         (edit ops ((Initialize device width height new s).1.2,
                    (Initialize device width height new s).2)).1
         (edit ops ((Initialize device width height new s).1.2,
                    (Initialize device width height new s).2)).2).2
      evs ∧
    balanced evs ∧ draws evs = [].
Proof.
  destruct (Initialize_objects device width height new s eq_refl eq_refl)
    as (ok & m0 & s0 & evs0 & -> & Hext0 & Hrel0 & Hdr0 & Hcr0 & He0 & _).
  cbn [fst snd].
  pose proof (edit_settles ops (m0, s0)) as Hedit. cbn [fst snd] in Hedit.
  destruct (edit ops (m0, s0)) as [m1 s1]. cbn [fst snd] in *.
  destruct (Shutdown_settles m1 s1) as [Hshut Hnil].
  destruct (settles_trans _ _ _ _ _ _ Hedit Hshut) as (evs & Hext & Hdr & Hperm).
  exists (evs0 ++ evs).
  split_and!; [by eapply extends_trans| |by rewrite draws_app, Hdr0, Hdr].
  unfold balanced. rewrite releases_app, creations_app, map_app, Hrel0.
  rewrite Hnil, app_nil_r in Hperm. rewrite <- Hperm. cbn [app].
  etrans; [|apply Permutation_app_comm].
  apply Permutation_app; [done|].
  unfold manager_objects. rewrite He0. change (m_effects new) with (∅ : gmap PostProcessEffect Effect.t).
  rewrite map_to_list_empty. cbn [mbind list_bind].
  by rewrite app_nil_r, Hcr0.
Qed.

End LedgerFacts.

(** ** Round trips of the chain *)

Module ChainRoundTrips.
Import D3D Spec Ledger D3DFacts EffectFacts PostProcessManager ChainFacts
  ProcessFacts TargetFacts ChainEditing LedgerFacts Demo.

(** [AddEffect] followed by [RemoveEffect] of a descriptor that was not
    in the chain gives the manager back as it was, whether the effect
    could be initialised or not, and every device object created on the
    way has been released. *)
Theorem AddEffect_RemoveEffect_roundtrip d m s :
  m_effects m !! d = None → d ∉ m_effectOrder m →
  (RemoveEffect d (AddEffect d m s).1 (AddEffect d m s).2).1 = m ∧
  ∃ evs,
    extends s (RemoveEffect d (AddEffect d m s).1 (AddEffect d m s).2).2 evs ∧
    balanced evs ∧ draws evs = [].
Proof.
  intros Hd Hout. unfold AddEffect. rewrite Hd.
  destruct (Effect_Initialize_objects (m_device m) (m_width m) (m_height m) d s)
    as (ok & e & s1 & evs & -> & Hext & Hrel & Hdr & Hcr).
  destruct (Effect_Shutdown_objects e s1)
    as (evs2 & Hext2 & Hcr2 & Hdr2 & Hrel2 & _).
  assert (balanced (evs ++ evs2)) as Hbal.
  { unfold balanced.
    by rewrite releases_app, creations_app, Hrel, Hcr2, app_nil_r, Hcr, Hrel2. }
  destruct ok; cbn [fst snd].
  - unfold RemoveEffect. cbn [m_effects m_effectOrder set_chain].
    rewrite lookup_insert_eq. cbn [fst snd]. split.
    + rewrite delete_insert_id by done. rewrite erase_first_snoc by done.
      by destruct m.
    + exists (evs ++ evs2).
      split_and!; [by eapply extends_trans|done|by rewrite draws_app, Hdr, Hdr2].
  - unfold RemoveEffect. rewrite Hd. cbn [fst snd]. split; [done|].
    exists (evs ++ evs2).
    split_and!; [by eapply extends_trans|done|by rewrite draws_app, Hdr, Hdr2].
Qed.

Lemma AddEffect_RemoveEffect_roundtrip_witness :
  (RemoveEffect Grayscale
     (AddEffect Grayscale (startup [] [Bloom]).1 (startup [] [Bloom]).2).1
     (AddEffect Grayscale (startup [] [Bloom]).1 (startup [] [Bloom]).2).2).1
  = (startup [] [Bloom]).1.
Proof.
  apply (AddEffect_RemoveEffect_roundtrip Grayscale
           (startup [] [Bloom]).1 (startup [] [Bloom]).2).
  - vm_compute. reflexivity.
  - vm_compute. intros H. inversion H as [|? ? ? H']; inversion H'.
Defined.


(** [SetEffectEnabled] changes the flag of the named instance and nothing
    else: a descriptor without instance leaves the manager as it is; the
    order list, the device, the size, the targets, the sampler, the
    parameters and every other instance are kept; the named instance
    keeps its shaders and its buffer; and setting the flag back to its
    former value gives the manager back exactly. *)
Theorem SetEffectEnabled_only_flag d b m :
  (m_effects m !! d = None → SetEffectEnabled d b m = m) ∧
  (∀ e, m_effects m !! d = Some e →
     m_effects (SetEffectEnabled d b m) !! d = Some (Effect.SetEnabled b e) ∧
     SetEffectEnabled d (Effect.m_enabled e) (SetEffectEnabled d b m) = m) ∧
  (∀ d', d' ≠ d →
     m_effects (SetEffectEnabled d b m) !! d' = m_effects m !! d') ∧
  m_effectOrder (SetEffectEnabled d b m) = m_effectOrder m ∧
  set_chain (m_effects m) (m_effectOrder m) (SetEffectEnabled d b m) = m ∧
  (∀ d', runs (SetEffectEnabled d b m) d' =
         if decide (d' = d) then b && bool_decide (is_Some (m_effects m !! d))
         else runs m d').
Proof.
  unfold SetEffectEnabled. destruct (m_effects m !! d) as [e|] eqn:Hd.
  - split_and!.
    + done.
    + intros e' [= <-]. cbn [m_effects set_chain].
      rewrite lookup_insert_eq. split; [done|]. cbn [m_effects m_effectOrder set_chain].
      rewrite insert_insert_eq.
      replace (Effect.SetEnabled (Effect.m_enabled e) (Effect.SetEnabled b e))
        with e by (by destruct e).
      rewrite insert_id by done. by destruct m.
    + intros d' Hne. cbn [m_effects set_chain]. by rewrite lookup_insert_ne.
    + done.
    + by destruct m.
    + intros d'. unfold runs. cbn [m_effects set_chain].
      destruct (decide (d' = d)) as [->|Hne].
      * rewrite lookup_insert_eq. cbn [Effect.m_enabled Effect.SetEnabled].
        rewrite bool_decide_eq_true_2 by (by eexists).
        by rewrite andb_true_r.
      * by rewrite lookup_insert_ne.
  - split_and!; try done.
    + by destruct m.
    + intros d'. destruct (decide (d' = d)) as [->|Hne]; [|done].
      unfold runs. rewrite Hd. rewrite bool_decide_eq_false_2; [by rewrite andb_false_r|].
      by intros [? ?].
Qed.

Lemma erase_first_middle d (l1 l2 : list PostProcessEffect) :
  d ∉ l1 → erase_first d (l1 ++ d :: l2) = l1 ++ l2.
Proof.
  induction l1 as [|a l1 IH]; intros Hd; simpl.
  - by rewrite decide_True.
  - apply not_elem_of_cons in Hd. destruct Hd as [Hne Hd].
    rewrite decide_False by congruence. by rewrite IH.
Qed.

(** The calls of the loop depend on the manager through the instances of
    the entries that remain and through the targets. *)
Lemma passes_agree m m' output l : ∀ cur rt1,
  (∀ d, d ∈ l → m_effects m' !! d = m_effects m !! d) →
  (∀ rt1, pingRTV m' rt1 = pingRTV m rt1) →
  (∀ rt1, pingSRV m' rt1 = pingSRV m rt1) →
  passes m' output l cur rt1 = passes m output l cur rt1.
Proof.
  induction l as [|d l IH]; intros cur rt1 Hl Hv Hr; [done|].
  cbn [passes]. rewrite (Hl d) by apply list_elem_of_here.
  assert (∀ cur rt1, passes m' output l cur rt1 = passes m output l cur rt1)
    as IH'.
  { intros. apply IH; try done. intros a Ha. apply Hl. by apply list_elem_of_further. }
  destruct (m_effects m !! d) as [e|]; [|apply IH'].
  destruct (Effect.m_enabled e); [|apply IH'].
  destruct l; [done|]. by rewrite Hv, Hr, IH'.
Qed.

(** An entry that is not applied and is not the last one can be dropped
    from the list. *)
Lemma passes_skip m output d l2 : ∀ l1 cur rt1,
  runs m d = false → l2 ≠ [] →
  passes m output (l1 ++ d :: l2) cur rt1 = passes m output (l1 ++ l2) cur rt1.
Proof.
  intros l1 cur rt1 Hd Hl2. revert cur rt1.
  induction l1 as [|a l1 IH]; intros cur rt1.
  - cbn [app passes]. unfold runs in Hd.
    destruct (m_effects m !! d) as [e|]; [|done]. by rewrite Hd.
  - cbn [app].
    destruct (l1 ++ d :: l2) as [|x xs] eqn:E1; [by destruct l1|].
    destruct (l1 ++ l2) as [|y ys] eqn:E2; [by destruct l1, l2|].
    rewrite !passes_cons_cons.
    destruct (m_effects m !! a) as [e|]; [|apply IH].
    destruct (Effect.m_enabled e); [|apply IH]. by rewrite IH.
Qed.

Lemma passes_none m output l : ∀ cur rt1,
  (∀ d, d ∈ l → runs m d = false) → passes m output l cur rt1 = [].
Proof.
  induction l as [|d l IH]; intros cur rt1 Hl; [done|].
  assert (passes m output l cur rt1 = []) as IH'.
  { apply IH. intros a Ha. apply Hl. by apply list_elem_of_further. }
  cbn [passes]. pose proof (Hl d (list_elem_of_here _ _)) as Hd.
  unfold runs in Hd. destruct (m_effects m !! d) as [e|]; [|done].
  by rewrite Hd.
Qed.

(** Disabling an effect that is not the last entry of the order list
    has, for every later [Process], the effect of removing it: whatever
    the arguments and the state of the program, the two managers make
    the same calls on the device. *)
Theorem Process_disabled_as_removed d m s ctx input output p :
  consistent m → last (m_effectOrder m) ≠ Some d →
  Process ctx input output (RemoveEffect d m s).1 p =
  Process ctx input output (SetEffectEnabled d false m) p.
Proof.
  intros [Hnd Hin] Hlast.
  unfold RemoveEffect, SetEffectEnabled.
  destruct (m_effects m !! d) as [e|] eqn:Hd; [|done]. cbn [fst].
  assert (d ∈ m_effectOrder m) as Hmem by (apply Hin; by eexists).
  apply list_elem_of_split in Hmem. destruct Hmem as (l1 & l2 & Ho).
  rewrite Ho in Hnd. apply NoDup_app in Hnd. destruct Hnd as (_ & Hl1 & Hl2).
  assert (d ∉ l1) as Hd1.
  { intros H. apply (Hl1 d H). apply list_elem_of_here. }
  apply NoDup_cons in Hl2. destruct Hl2 as [Hd2 _].
  assert (l2 ≠ []) as Hne.
  { intros ->. apply Hlast. rewrite Ho. apply last_snoc. }
  rewrite Ho, erase_first_middle by done.
  destruct ctx as [c|], input as [i|], output as [o|]; try done;
    try (unfold Process; by destruct (l1 ++ l2), (l1 ++ d :: l2)).
  rewrite !Process_run by (cbn; by destruct l1, l2).
  cbn [m_effectOrder m_parameters m_samplerState set_chain].
  rewrite (passes_skip _ _ d l2 l1).
  - f_equal. f_equal. apply passes_agree; [|done|done].
    intros a Ha. cbn [m_effects set_chain].
    assert (a ≠ d) as Hne'.
    { intros ->. apply elem_of_app in Ha. by destruct Ha. }
    by rewrite lookup_delete_ne, lookup_insert_ne.
  - unfold runs. cbn [m_effects set_chain]. by rewrite lookup_insert_eq.
  - done.
Qed.

Lemma Process_disabled_as_removed_witness :
  Process (Some ImmediateContext) (Some sceneTexture) (Some backBuffer)
    (RemoveEffect ToneMapping (startup [] [Bloom; ToneMapping; Vignette]).1
                  (startup [] [Bloom; ToneMapping; Vignette]).2).1
    (mkProgram (startup [] [Bloom; ToneMapping; Vignette]).2 None) =
  Process (Some ImmediateContext) (Some sceneTexture) (Some backBuffer)
    (SetEffectEnabled ToneMapping false
       (startup [] [Bloom; ToneMapping; Vignette]).1)
    (mkProgram (startup [] [Bloom; ToneMapping; Vignette]).2 None).
Proof.
  apply (Process_disabled_as_removed ToneMapping
           (startup [] [Bloom; ToneMapping; Vignette]).1
           (startup [] [Bloom; ToneMapping; Vignette]).2).
  - apply startup_consistent.
  - vm_compute. discriminate.
Defined.


(** When no entry of a non-empty order list is applied, [Process] does
    not touch the final output: it returns without a draw, a creation or
    a write, and does not fall back to the copy. *)
Theorem Process_nothing_applied ctx input output m p :
  m_effectOrder m ≠ [] → (∀ d, d ∈ m_effectOrder m → runs m d = false) →
  ∃ p', Process ctx input output m p = Some p' ∧
        log (device_state p') = log (device_state p) ∧
        outcomes (device_state p') = outcomes (device_state p) ∧
        copyEffect p' = copyEffect p.
Proof.
  intros Hne Hall.
  destruct ctx as [c|], input as [i|], output as [o|];
    try (exists p; unfold Process; by destruct (m_effectOrder m)).
  rewrite Process_run by done. rewrite passes_none by done.
  eexists. by split_and!.
Qed.

Lemma Process_nothing_applied_witness :
  ∃ p', Process (Some ImmediateContext) (Some sceneTexture) (Some backBuffer)
          (disable Grayscale (startup [] [Grayscale])).1
          (mkProgram (disable Grayscale (startup [] [Grayscale])).2 None)
          = Some p' ∧
        log (device_state p') =
        log (device_state
               (mkProgram (disable Grayscale (startup [] [Grayscale])).2 None)).
Proof.
  destruct (Process_nothing_applied (Some ImmediateContext) (Some sceneTexture)
              (Some backBuffer) (disable Grayscale (startup [] [Grayscale])).1
              (mkProgram (disable Grayscale (startup [] [Grayscale])).2 None))
    as (p' & HP & Hlog & _).
  - vm_compute. discriminate.
  - intros d Hd. vm_compute in Hd.
    apply list_elem_of_singleton in Hd. subst d. vm_compute. reflexivity.
  - exists p'. split; [exact HP|exact Hlog].
Defined.

(** A manager that was shut down is inert.  A second [Shutdown],
    [AddEffect], [RemoveEffect] and [SetEffectEnabled] change neither
    the manager nor the device, so no effect can be added before the
    next [Initialize].  The order list survives [Shutdown], and where it
    is not empty [Process] draws nothing and does not copy either. *)
Theorem Shutdown_inert m s :
  m_effectOrder (Shutdown m s).1 = m_effectOrder m ∧
  m_effects (Shutdown m s).1 = ∅ ∧
  manager_objects (Shutdown m s).1 = [] ∧
  ∀ s',
    Shutdown (Shutdown m s).1 s' = ((Shutdown m s).1, s') ∧
    (∀ d, AddEffect d (Shutdown m s).1 s' = ((Shutdown m s).1, s')) ∧
    (∀ d, RemoveEffect d (Shutdown m s).1 s' = ((Shutdown m s).1, s')) ∧
    (∀ d b, SetEffectEnabled d b (Shutdown m s).1 = (Shutdown m s).1) ∧
    (∀ ctx input output copy,
       m_effectOrder m ≠ [] →
       ∃ p', Process ctx input output (Shutdown m s).1 (mkProgram s' copy)
               = Some p' ∧
             log (device_state p') = log s' ∧ copyEffect p' = copy).
Proof.
  split_and!; try done. intros s'. split_and!.
  - unfold Shutdown at 1. cbn [fst m_effects Shutdown].
    by rewrite map_to_list_empty.
  - intros d. unfold AddEffect. cbn [fst m_effects m_device Shutdown].
    by rewrite lookup_empty.
  - intros d. unfold RemoveEffect. cbn [fst m_effects Shutdown].
    by rewrite lookup_empty.
  - intros d b. unfold SetEffectEnabled. cbn [fst m_effects Shutdown].
    by rewrite lookup_empty.
  - intros ctx input output copy Hne.
    destruct ctx as [c|], input as [i|], output as [o|];
      try (exists (mkProgram s' copy); unfold Process; cbn [fst m_effectOrder Shutdown];
           by destruct (m_effectOrder m)).
    rewrite Process_run by done. rewrite passes_none.
    + eexists. by split_and!.
    + intros d _. unfold runs. cbn [fst m_effects Shutdown]. by rewrite lookup_empty.
Qed.

(** [AddEffect] accepts every descriptor, also [None], [Count] and the
    effects that have no shader of their own.  On a manager with a
    device and a device that does not fail, any descriptor without
    instance is added with an enabled instance at the end of the order
    list, and exactly when the descriptor is not one of the five that
    [GetPixelShaderCode] knows, the pixel shader of the instance is
    compiled from the copy shader: the effect leaves the image as it
    is. *)
Theorem AddEffect_without_own_shader d m s :
  m_effects m !! d = None → is_Some (m_device m) → reliable s →
  ∃ e vs ps buf code,
    (AddEffect d m s).1
      = set_chain (<[d := e]> (m_effects m)) (m_effectOrder m ++ [d]) m ∧
    Effect.m_enabled e = true ∧ Effect.m_pixelShader e = Some ps ∧
    extends s (AddEffect d m s).2
      [ Created vs (ShaderObject Vertex FULLSCREEN_QUAD_VS);
        Created ps (ShaderObject Pixel code);
        Created buf (Buffer Effect.parameterBufferDesc) ] ∧
    (code = COPY_PS ↔ d ∉ own_shader).
Proof.
  intros Hd [dev Hdev] Hrel. unfold AddEffect. rewrite Hd, Hdev.
  destruct (Initialize_new_spec dev (m_width m) (m_height m) d s)
    as (ok & e & s1 & evs & -> & Hext & _ & _ & _ & _ & Hen & _ & _ & Hok & _ & Hr).
  destruct (Hr Hrel) as [-> _].
  destruct (Hok eq_refl) as (vs & ps & buf & -> & _ & Hps & _).
  exists e, vs, ps, buf, (Effect.GetPixelShaderCode (Effect.new d)).
  cbn [fst snd]. split_and!; try done.
  unfold own_shader.
  destruct d; cbn; split; try done;
    try (intros _ H; repeat (apply elem_of_cons in H; destruct H as [H|H];
                             [discriminate H|]); by apply elem_of_nil in H);
    intros H; exfalso; apply H;
    repeat first [apply list_elem_of_here|apply list_elem_of_further].
Qed.

Lemma AddEffect_without_own_shader_witness :
  ∃ e vs ps buf code,
    (AddEffect Count (startup [] []).1 (startup [] []).2).1
      = set_chain (<[Count := e]> (m_effects (startup [] []).1))
                  (m_effectOrder (startup [] []).1 ++ [Count])
                  (startup [] []).1 ∧
    Effect.m_enabled e = true ∧ Effect.m_pixelShader e = Some ps ∧
    extends (startup [] []).2
      (AddEffect Count (startup [] []).1 (startup [] []).2).2
      [ Created vs (ShaderObject Vertex FULLSCREEN_QUAD_VS);
        Created ps (ShaderObject Pixel code);
        Created buf (Buffer Effect.parameterBufferDesc) ] ∧
    (code = COPY_PS ↔ Count ∉ own_shader).
Proof.
  apply (AddEffect_without_own_shader Count (startup [] []).1 (startup [] []).2).
  - vm_compute. reflexivity.
  - vm_compute. eexists. reflexivity.
  - vm_compute. constructor.
Defined.

End ChainRoundTrips.

(** ** What a frame does to the device *)

Module FrameFacts.
Import D3D Spec Ledger D3DFacts EffectFacts PostProcessManager ChainFacts
  ProcessFacts TargetFacts ChainEditing LedgerFacts
  ChainRoundTrips Engine Demo PipelineProperties.

(** One [Apply] on an enabled, fully initialised instance: the only
    object it creates is the quad's vertex buffer, which it releases
    again; it draws exactly when that buffer could be created; and it
    writes the parameters to the instance's buffer when the buffer could
    be mapped. *)
Lemma Apply_ledger ctx input output params e s :
  Effect.m_enabled e = true → Effect.initialized e →
  ∃ s' evs,
    Effect.Apply (Some ctx) (Some input) (Some output) params e s = Some s' ∧
    extends s s' evs ∧ balanced evs ∧
    Forall is_quad_buffer (creations evs) ∧
    length (creations evs) = length (draws evs) ∧
    (length (draws evs) ≤ 1)%nat ∧
    sublist (writes evs) (omap (parameter_write params) [e]) ∧
    PSShaderResource0 (pipeline s') = None ∧
    PSSampler0 (pipeline s') = PSSampler0 (pipeline s) ∧
    (reliable s →
       reliable s' ∧ writes evs = omap (parameter_write params) [e]).
Proof.
  destruct e as [ty en vs ps buf w h]. unfold Effect.initialized. simpl.
  intros -> ([vs' ->] & [ps' ->] & [buf' ->] & [w' ->] & [h' ->]).
  destruct s as [nh oc pl lg].
  unfold Effect.Apply, Effect.UpdateParameterBuffer, MapWriteDiscard,
    Effect.DrawFullscreenQuad, CreateBuffer, create, next_outcome, extends,
    reliable, balanced, is_quad_buffer, parameter_write; simpl.
  destruct oc as [|[] [|[] oc]]; simpl;
    eexists; eexists; (split; [reflexivity|]); simpl;
    (split; [rewrite <- ?app_assoc; simpl; try reflexivity;
             by rewrite ?app_nil_r|]);
    split_and!; simpl; try done; try lia;
    try (repeat constructor; done);
    try (apply sublist_nil_l);
    intros H; repeat match goal with
      | H : Forall _ (_ :: _) |- _ => inversion H; clear H; subst
      end; try done; split; try done; by repeat constructor.
Qed.

Lemma balanced_app e1 e2 : balanced e1 → balanced e2 → balanced (e1 ++ e2).
Proof.
  unfold balanced. intros H1 H2.
  by rewrite releases_app, creations_app, map_app, H1, H2.
Qed.

Lemma run_passes_ledger ctx params ps : ∀ s,
  Forall pass_ok ps →
  ∃ s' evs,
    run_passes (Some ctx) params ps s = Some s' ∧
    extends s s' evs ∧ balanced evs ∧
    Forall is_quad_buffer (creations evs) ∧
    length (creations evs) = length (draws evs) ∧
    (length (draws evs) ≤ length ps)%nat ∧
    sublist (writes evs) (omap (parameter_write params) (map pass_effect ps)) ∧
    (ps ≠ [] → PSShaderResource0 (pipeline s') = None) ∧
    PSSampler0 (pipeline s') = PSSampler0 (pipeline s) ∧
    (reliable s →
       reliable s' ∧
       writes evs = omap (parameter_write params) (map pass_effect ps)).
Proof.
  induction ps as [|q ps IH]; intros s Hok.
  - exists s, []. split_and!; try done; [apply extends_refl|by constructor].
  - apply Forall_cons in Hok. destruct Hok as [(Hen & Hinit & [i Hi] & [o Ho]) Hok].
    destruct (Apply_ledger ctx i o params (pass_effect q) s Hen Hinit)
      as (s1 & e1 & HA & Hext1 & Hb1 & Hq1 & Hl1 & Hd1 & Hw1 & Hr1 & Hs1 & Hrel1).
    destruct (IH s1 Hok)
      as (s2 & e2 & HR & Hext2 & Hb2 & Hq2 & Hl2 & Hd2 & Hw2 & Hr2 & Hs2 & Hrel2).
    exists s2, (e1 ++ e2). cbn [run_passes]. rewrite Hi, Ho, HA.
    cbn [mbind option_bind]. rewrite HR.
    split_and!.
    + done.
    + by eapply extends_trans.
    + by apply balanced_app.
    + rewrite creations_app. by apply Forall_app.
    + rewrite creations_app, draws_app, !length_app. lia.
    + rewrite draws_app, length_app. cbn [length]. lia.
    + rewrite writes_app.
      change (map pass_effect (q :: ps)) with ([pass_effect q] ++ map pass_effect ps).
      rewrite omap_app. by apply sublist_app.
    + intros _. destruct ps as [|q' ps'].
      * cbn [run_passes] in HR. by simplify_eq.
      * by apply Hr2.
    + by rewrite Hs2.
    + intros Hrel. destruct (Hrel1 Hrel) as [Hrel' Hw1'].
      destruct (Hrel2 Hrel') as [Hrel'' Hw2']. split; [done|].
      rewrite writes_app, Hw1', Hw2'.
      change (map pass_effect (q :: ps)) with ([pass_effect q] ++ map pass_effect ps).
      by rewrite omap_app.
Qed.


Lemma enabled_instances_passes m output cur rt1 :
  map pass_effect (passes m output (m_effectOrder m) cur rt1)
  = enabled_instances m.
Proof. apply passes_effects. Qed.

(** A frame on an initialised manager with a non-empty order list,
    whatever the device lets succeed: [Process] returns; the only objects
    it creates are quad vertex buffers, one for each draw, and each is
    released before [Process] returns, so a frame leaves no object
    behind; and there is at most one draw for each enabled entry. *)
Theorem Process_releases_quad_buffers ctx input output m p :
  ready m → m_effectOrder m ≠ [] →
  ∃ p' evs,
    Process (Some ctx) (Some input) (Some output) m p = Some p' ∧
    extends (device_state p) (device_state p') evs ∧
    balanced evs ∧
    Forall is_quad_buffer (creations evs) ∧
    length (creations evs) = length (draws evs) ∧
    (length (draws evs) ≤ length (enabled_instances m))%nat.
Proof.
  intros Hm Hne.
  pose proof (passes_ok m (Some output) (m_effectOrder m) (Some input) true
                Hm (mk_is_Some _ _ eq_refl) (mk_is_Some _ _ eq_refl)) as Hok.
  destruct (run_passes_ledger ctx (m_parameters m) _
              (PSSetSamplers (m_samplerState m) (device_state p)) Hok)
    as (s' & evs & Hrun & Hext & Hbal & Hq & Hlen & Hle & _).
  rewrite Process_run by done. rewrite Hrun. cbn [mbind option_bind].
  eexists _, evs. split_and!; try done.
  rewrite <- (enabled_instances_passes m (Some output) (Some input) true).
  by rewrite length_map.
Qed.

Lemma Process_releases_quad_buffers_witness :
  ∃ p' evs,
    Process (Some ImmediateContext) (Some sceneTexture) (Some backBuffer)
            chain3.1 (mkProgram chain3.2 None) = Some p' ∧
    extends (device_state (mkProgram chain3.2 None)) (device_state p') evs ∧
    balanced evs.
Proof.
  destruct (Process_releases_quad_buffers ImmediateContext sceneTexture
              backBuffer chain3.1 (mkProgram chain3.2 None))
    as (p' & evs & HP & Hext & Hbal & _).
  - concrete_ready.
  - vm_compute. discriminate.
  - exists p', evs. split_and!; [exact HP|exact Hext|exact Hbal].
Defined.

(** The parameters given to [SetEffectParameters] reach the shaders: in
    the next frame each enabled instance, in list order, has them written
    to its own constant buffer, once, when the device does not fail; on a
    device that fails some of these writes are missing, but no other
    write is made. *)
Theorem Process_writes_parameters ctx input output params m p :
  ready m → m_effectOrder m ≠ [] →
  ∃ p' evs,
    Process (Some ctx) (Some input) (Some output)
            (SetEffectParameters params m) p = Some p' ∧
    extends (device_state p) (device_state p') evs ∧
    sublist (writes evs)
            (omap (parameter_write params) (enabled_instances m)) ∧
    (reliable (device_state p) →
       writes evs = omap (parameter_write params) (enabled_instances m)).
Proof.
  intros Hm Hne.
  assert (ready (SetEffectParameters params m)) as Hm' by done.
  pose proof (passes_ok _ (Some output) (m_effectOrder m) (Some input) true
                Hm' (mk_is_Some _ _ eq_refl) (mk_is_Some _ _ eq_refl)) as Hok.
  destruct (run_passes_ledger ctx params _
              (PSSetSamplers (m_samplerState m) (device_state p)) Hok)
    as (s' & evs & Hrun & Hext & _ & _ & _ & _ & Hsub & _ & _ & Hrel).
  rewrite Process_run by done.
  cbn [m_effectOrder m_parameters m_samplerState SetEffectParameters].
  rewrite Hrun. cbn [mbind option_bind].
  rewrite (enabled_instances_passes (SetEffectParameters params m)) in Hsub, Hrel.
  eexists _, evs. split_and!; [done|done|done|].
  intros H. by apply Hrel.
Qed.

Lemma Process_writes_parameters_witness :
  ∃ p' evs,
    Process (Some ImmediateContext) (Some sceneTexture) (Some backBuffer)
            (SetEffectParameters PostProcessParams_default chain3.1)
            (mkProgram chain3.2 None) = Some p' ∧
    extends (device_state (mkProgram chain3.2 None)) (device_state p') evs ∧
    sublist (writes evs)
            (omap (parameter_write PostProcessParams_default)
                  (enabled_instances chain3.1)).
Proof.
  destruct (Process_writes_parameters ImmediateContext sceneTexture
              backBuffer PostProcessParams_default chain3.1
              (mkProgram chain3.2 None))
    as (p' & evs & HP & Hext & Hsub & _).
  - concrete_ready.
  - vm_compute. discriminate.
  - exists p', evs. split_and!; [exact HP|exact Hext|exact Hsub].
Defined.

(** The sampler of a frame: every draw of the loop is made with the
    manager's sampler bound, and when [Process] returns the sampler slot
    is cleared; where a draw was made the texture slot is cleared too. *)
Theorem Process_binds_sampler ctx input output m p :
  ready m → m_effectOrder m ≠ [] →
  ∃ p' evs,
    Process (Some ctx) (Some input) (Some output) m p = Some p' ∧
    extends (device_state p) (device_state p') evs ∧
    Forall (fun d => PSSampler0 d = m_samplerState m) (draws evs) ∧
    PSSampler0 (pipeline (device_state p')) = None ∧
    (enabled_instances m ≠ [] →
       PSShaderResource0 (pipeline (device_state p')) = None).
Proof.
  intros Hm Hne.
  pose proof (passes_ok m (Some output) (m_effectOrder m) (Some input) true
                Hm (mk_is_Some _ _ eq_refl) (mk_is_Some _ _ eq_refl)) as Hok.
  destruct (run_passes_spec ctx (m_parameters m) _
              (PSSetSamplers (m_samplerState m) (device_state p)) Hok)
    as (s' & evs & Hrun & Hext & _ & _ & Hall & _).
  destruct (run_passes_ledger ctx (m_parameters m) _
              (PSSetSamplers (m_samplerState m) (device_state p)) Hok)
    as (s'' & evs' & Hrun' & _ & _ & _ & _ & _ & _ & Hsrv & _).
  rewrite Hrun in Hrun'. injection Hrun' as <-.
  rewrite Process_run by done. rewrite Hrun. cbn [mbind option_bind].
  eexists _, evs. split_and!; [done|done| |done|].
  - eapply Forall_impl; [exact Hall|].
    intros d (q & _ & Hby). apply Hby.
  - intros Hen. cbn. apply Hsrv. intros Hnil. apply Hen.
    rewrite <- (enabled_instances_passes m (Some output) (Some input) true).
    by rewrite Hnil.
Qed.

Lemma Process_binds_sampler_witness :
  ∃ p' evs,
    Process (Some ImmediateContext) (Some sceneTexture) (Some backBuffer)
            chain3.1 (mkProgram chain3.2 None) = Some p' ∧
    extends (device_state (mkProgram chain3.2 None)) (device_state p') evs ∧
    Forall (fun d => PSSampler0 d = m_samplerState chain3.1) (draws evs) ∧
    PSSampler0 (pipeline (device_state p')) = None.
Proof.
  destruct (Process_binds_sampler ImmediateContext sceneTexture
              backBuffer chain3.1 (mkProgram chain3.2 None))
    as (p' & evs & HP & Hext & Hall & Hs & _).
  - concrete_ready.
  - vm_compute. discriminate.
  - exists p', evs. split_and!; [exact HP|exact Hext|exact Hall|exact Hs].
Defined.


Lemma extends_inj s s' e1 e2 : extends s s' e1 → extends s s' e2 → e1 = e2.
Proof. unfold extends. intros -> H. by apply app_inv_head in H. Qed.

(** The copy made for an empty order list uses neither the sampler nor
    the parameters of the manager: its draw is made with whatever sampler
    was bound before the call, which [Process] leaves bound, and the
    buffer of the static receives default parameters. *)
Theorem copy_uses_no_manager_state ctx input output m p e :
  m_effectOrder m = [] → copyEffect p = Some e →
  Effect.m_enabled e = true → Effect.initialized e →
  ∃ p' evs,
    Process (Some ctx) (Some input) (Some output) m p = Some p' ∧
    extends (device_state p) (device_state p') evs ∧
    Forall (fun d => PSSampler0 d = PSSampler0 (pipeline (device_state p)))
           (draws evs) ∧
    PSSampler0 (pipeline (device_state p'))
      = PSSampler0 (pipeline (device_state p)) ∧
    sublist (writes evs)
            (omap (parameter_write PostProcessParams_default) [e]) ∧
    (reliable (device_state p) →
       length (draws evs) = 1%nat ∧
       writes evs = omap (parameter_write PostProcessParams_default) [e]).
Proof.
  intros Ho He Hen Hinit. rewrite Process_empty_chain by done.
  unfold CopyTexture. rewrite He.
  destruct (Apply_spec ctx input output PostProcessParams_default e
              (device_state p) Hen Hinit)
    as (s' & evs & HA & Hext & _ & Hs & Hall & _ & Hr).
  destruct (Apply_ledger ctx input output PostProcessParams_default e
              (device_state p) Hen Hinit)
    as (s'' & evs' & HA' & Hext' & _ & _ & _ & _ & Hw & _ & _ & Hr').
  rewrite HA in HA'. injection HA' as <-.
  rewrite <- (extends_inj _ _ _ _ Hext Hext') in Hw, Hr'.
  rewrite HA. cbn [mbind option_bind].
  eexists _, evs. split_and!; [done|done| |done|done|].
  - eapply Forall_impl; [exact Hall|]. intros d Hd. apply Hd.
  - intros Hrel. split; [by apply Hr|by apply Hr'].
Qed.

Lemma copy_uses_no_manager_state_witness :
  ∃ p' evs,
    Process (Some ImmediateContext) (Some sceneTexture) (Some backBuffer)
            (startup [] []).1
            (mkProgram (State_initial [])
               (Some (Effect.mk None_ true (Some 1%positive) (Some 2%positive)
                                (Some 3%positive) (Some 1280) (Some 720))))
      = Some p' ∧
    extends (State_initial []) (device_state p') evs ∧
    Forall (fun d => PSSampler0 d = None) (draws evs).
Proof.
  destruct (copy_uses_no_manager_state ImmediateContext sceneTexture backBuffer
              (startup [] []).1
              (mkProgram (State_initial [])
                 (Some (Effect.mk None_ true (Some 1%positive) (Some 2%positive)
                                  (Some 3%positive) (Some 1280) (Some 720))))
              (Effect.mk None_ true (Some 1%positive) (Some 2%positive)
                         (Some 3%positive) (Some 1280) (Some 720)))
    as (p' & evs & HP & Hext & Hall & _).
  - vm_compute. reflexivity.
  - reflexivity.
  - reflexivity.
  - repeat split; eexists; reflexivity.
  - exists p', evs. split_and!; [exact HP|exact Hext|exact Hall].
Defined.

(** The two cases of the final output, on the demo chain. *)
Lemma Process_writes_final_output_witness :
  ∃ p' evs ds dlast,
    Process (Some ImmediateContext) (Some sceneTexture) (Some backBuffer)
            (startup [] [Bloom; Vignette]).1
            (mkProgram (startup [] [Bloom; Vignette]).2 None) = Some p' ∧
    extends (device_state (mkProgram (startup [] [Bloom; Vignette]).2 None))
            (device_state p') evs ∧
    draws evs = ds ++ [dlast] ∧ OMRenderTarget dlast = Some backBuffer ∧
    Forall (fun d => OMRenderTarget d ≠ Some backBuffer) ds.
Proof.
  apply (Process_writes_final_output ImmediateContext sceneTexture backBuffer
           (startup [] [Bloom; Vignette]).1
           (mkProgram (startup [] [Bloom; Vignette]).2 None) Vignette).
  - concrete_ready.
  - vm_compute. constructor.
  - vm_compute. reflexivity.
  - vm_compute. reflexivity.
  - vm_compute. discriminate.
  - vm_compute. discriminate.
Defined.

Lemma Process_never_writes_final_output_witness :
  ∃ p' evs,
    Process (Some ImmediateContext) (Some sceneTexture) (Some backBuffer)
            (disable Vignette (startup [] [Bloom; Vignette])).1
            (mkProgram (disable Vignette (startup [] [Bloom; Vignette])).2 None)
      = Some p' ∧
    extends (device_state
               (mkProgram (disable Vignette (startup [] [Bloom; Vignette])).2 None))
            (device_state p') evs ∧
    Forall (fun d => OMRenderTarget d ≠ Some backBuffer) (draws evs).
Proof.
  apply (Process_never_writes_final_output ImmediateContext sceneTexture
           backBuffer (disable Vignette (startup [] [Bloom; Vignette])).1
           (mkProgram (disable Vignette (startup [] [Bloom; Vignette])).2 None)
           Vignette).
  - concrete_ready.
  - vm_compute. reflexivity.
  - vm_compute. reflexivity.
  - vm_compute. discriminate.
  - vm_compute. discriminate.
Defined.

End FrameFacts.

(** ** Whole runs of the program *)

Module RunFacts.
Import D3D Spec Ledger D3DFacts EffectFacts PostProcessManager ChainFacts
  ProcessFacts TargetFacts ChainEditing LedgerFacts
  ChainRoundTrips FrameFacts Engine Demo PipelineProperties.

Lemma Apply_defined context input output params e s :
  Effect.initialized e →
  is_Some (Effect.Apply context input output params e s).
Proof.
  intros Hinit. destruct (Effect.m_enabled e) eqn:Hen.
  - destruct context as [c|], input as [i|], output as [o|]; try by eexists.
    destruct (Apply_spec c i o params e s Hen Hinit) as (s' & evs & -> & _).
    by eexists.
  - rewrite Apply_disabled by done. by eexists.
Qed.

Lemma run_passes_defined context params ps : ∀ s,
  Forall (fun q => Effect.initialized (pass_effect q)) ps →
  is_Some (run_passes context params ps s).
Proof.
  induction ps as [|q ps IH]; intros s Hall; [by eexists|].
  apply Forall_cons in Hall. destruct Hall as [Hq Hall]. cbn [run_passes].
  destruct (Apply_defined context (pass_input q) (pass_output q) params
              (pass_effect q) s Hq) as [s1 ->].
  apply IH, Hall.
Qed.

(** The loop of [Process] never binds through a null shader: on a
    manager whose instances are fully initialised it returns, whether
    the targets exist or not. *)
Lemma Process_loop_defined context input output m p :
  all_initialized m → m_effectOrder m ≠ [] →
  is_Some (Process context input output m p).
Proof.
  intros Hall Hne.
  destruct context as [c|], input as [i|], output as [o|];
    try (unfold Process; destruct (m_effectOrder m); by eexists).
  rewrite Process_run by done.
  destruct (run_passes_defined (Some c) (m_parameters m)
              (passes m (Some o) (m_effectOrder m) (Some i) true)
              (PSSetSamplers (m_samplerState m) (device_state p))) as [s' ->].
  - apply Forall_forall. intros q Hq.
    apply passes_from_effects in Hq. destruct Hq as (d & _ & Hd).
    by apply (Hall d).
  - by eexists.
Qed.

Lemma RemoveEffect_all_initialized d m s :
  all_initialized m → all_initialized (RemoveEffect d m s).1.
Proof.
  intros Hall. unfold RemoveEffect.
  destruct (m_effects m !! d) as [e|] eqn:Hd; [|done].
  intros a e'. cbn [fst m_effects set_chain]. intros H.
  apply lookup_delete_Some in H. destruct H as [_ H]. by apply (Hall a).
Qed.

Lemma SetEffectEnabled_all_initialized d b m :
  all_initialized m → all_initialized (SetEffectEnabled d b m).
Proof.
  intros Hall. unfold SetEffectEnabled.
  destruct (m_effects m !! d) as [e|] eqn:Hd; [|done].
  intros a e'. cbn [m_effects set_chain]. intros H.
  apply lookup_insert_Some in H. destruct H as [[<- <-]|[_ H]].
  - apply (Hall d e Hd).
  - by apply (Hall a).
Qed.

Lemma Initialize_effects device width height m s :
  m_effects (Initialize device width height m s).1.2 = m_effects m.
Proof.
  destruct device as [dev|]; [|done].
  by destruct (Initialize_spec dev width height m s)
    as (ok & m' & s' & evs & -> & _ & _ & _ & _ & He & _).
Qed.

Lemma call_instances_initialized id f w w' :
  (∀ m s, all_initialized m → all_initialized (f m s).1) →
  call id f w = Some w' →
  instances_initialized w → instances_initialized w'.
Proof.
  intros Hf. unfold call.
  destruct (managers w !! id) as [m|] eqn:Hm; [|done]. cbn [mbind option_bind].
  pose proof (Hf m (device_state (program w))) as Hf'.
  destruct (f m (device_state (program w))) as [m' s']. intros [= <-] Hw id' m''.
  cbn [managers]. intros H. apply lookup_insert_Some in H.
  destruct H as [[_ <-]|[_ H]]; [|by apply (Hw id')].
  apply Hf'. by apply (Hw id).
Qed.

Lemma step_instances_initialized op w w' :
  step op w = Some w' → instances_initialized w → instances_initialized w'.
Proof.
  destruct op; cbn [step].
  - intros [= <-] Hw id' m. cbn [managers]. intros H.
    apply lookup_insert_Some in H. destruct H as [[_ <-]|[_ H]].
    + intros d e. cbn. by rewrite lookup_empty.
    + by apply (Hw id').
  - apply call_instances_initialized. intros m s Hall.
    pose proof (Initialize_effects device width height m s) as He.
    destruct (Initialize device width height m s) as [[ok m'] s'].
    cbn [fst snd] in *. intros d e. rewrite He. apply Hall.
  - apply call_instances_initialized. intros m s _ d e. cbn.
    by rewrite lookup_empty.
  - apply call_instances_initialized. intros m s. apply AddEffect_all_initialized.
  - apply call_instances_initialized. intros m s.
    apply RemoveEffect_all_initialized.
  - apply call_instances_initialized. intros m s.
    apply SetEffectEnabled_all_initialized.
  - destruct (managers w !! id) as [m|]; [|done]. cbn [mbind option_bind].
    destruct (Process _ _ _ _ _) as [p'|]; [|done]. by intros [= <-].
Qed.

Lemma run_instances_initialized ops : ∀ w w',
  run ops w = Some w' → instances_initialized w → instances_initialized w'.
Proof.
  induction ops as [|op ops IH]; intros w w'; cbn [run].
  - by intros [= <-].
  - destruct (step op w) as [w1|] eqn:Hs; [|done]. cbn [mbind option_bind].
    intros Hr Hw. eapply IH; [done|]. by eapply step_instances_initialized.
Qed.

(** In no run of the program does the loop of [Process] dereference a
    null pointer.  Whatever managers were created, initialised (with
    success or not), edited, shut down and initialised again, and
    whatever the device let fail, on a manager whose order list is not
    empty [Process] returns, for any arguments. *)
Theorem Process_chain_never_undefined script ops w id m ctx input output :
  run ops (World_initial script) = Some w →
  managers w !! id = Some m → m_effectOrder m ≠ [] →
  is_Some (step (OpProcess id ctx input output) w).
Proof.
  intros Hrun Hm Hne. cbn [step]. rewrite Hm. cbn [mbind option_bind].
  assert (instances_initialized w) as Hw.
  { eapply run_instances_initialized; [done|].
    intros id' m'. cbn. by rewrite lookup_empty. }
  destruct (Process_loop_defined ctx input output m (program w)
              (Hw id m Hm) Hne) as [p' ->].
  by eexists.
Qed.

Lemma Process_chain_never_undefined_witness :
  is_Some (step (OpProcess 0 (Some ImmediateContext) (Some sceneTexture)
                           (Some backBuffer))
             (mkWorld {[ 0%nat := (startup [false] [Bloom]).1 ]}
                      (mkProgram (startup [false] [Bloom]).2 None))).
Proof.
  apply (Process_chain_never_undefined [false]
           [OpCreate 0; OpInitialize 0 (Some TheDevice) 1280 720;
            OpAddEffect 0 Bloom]
           _ 0%nat (startup [false] [Bloom]).1).
  - vm_compute. reflexivity.
  - vm_compute. reflexivity.
  - vm_compute. discriminate.
Defined.


(** The cases of a script of outcomes: used up, or a failure, or a
    success followed by the cases of the rest. *)
Ltac script_cases oc n :=
  lazymatch n with
  | O => idtac
  | S ?k => destruct oc as [|[] oc]; [|script_cases oc k|]
  end.

Lemma Initialize_fresh dev width height m s :
  ∃ ok m' s' evs,
    Initialize (Some dev) width height m s = (ok, m', s') ∧
    extends s s' evs ∧ fresh_in s s' evs.
Proof.
  destruct s as [nh oc pl lg].
  unfold Initialize, CreateRenderTargets, CreateTexture2D,
    CreateRenderTargetView, CreateShaderResourceView, CreateSamplerState,
    create, next_outcome, extends, fresh_in.
  cbn [m_device set_target outcomes next_handle pipeline log].
  script_cases oc 7%nat;
    cbn -[textureDesc];
    do 4 eexists; (split; [reflexivity|]);
    (split; [rewrite <- ?app_assoc; cbn [app]; try reflexivity;
             by rewrite ?app_nil_r|]);
    cbn -[textureDesc];
    (split; [lia|]); repeat constructor; cbn [fst]; lia.
Qed.

(** [Initialize] does not release what an earlier [Initialize] created:
    a manager that is initialised a second time without [Shutdown] in
    between overwrites its seven handles, and the later [Shutdown]
    releases the seven objects of the second [Initialize] and none of
    the first. *)
Theorem Initialize_twice_leaks dev width height width' height' s :
  reliable s →
  ∃ m1 s1 m2 s2 evs1 evs2 evs3,
    Initialize (Some dev) width height new s = (true, m1, s1) ∧
    extends s s1 evs1 ∧
    Initialize (Some dev) width' height' m1 s1 = (true, m2, s2) ∧
    extends s1 s2 evs2 ∧
    extends s2 (Shutdown m2 s2).2 evs3 ∧
    map fst (creations evs1) = omap id (held m1 ++ [m_samplerState m1]) ∧
    length (creations evs1) = 7%nat ∧
    releases evs3 ≡ₚ map fst (creations evs2) ∧
    ∀ h, h ∈ map fst (creations evs1) → h ∉ releases evs3.
Proof.
  intros Hrel.
  destruct (Initialize_spec dev width height new s)
    as (ok1 & m1 & s1 & evs1 & HI1 & Hext1 & _ & _ & _ & He1 & _ & Hok1 & Hr1).
  destruct (Hr1 Hrel) as [-> Hrel1].
  destruct (Hok1 eq_refl) as (t1 & v1 & r1 & t2 & v2 & r2 & smp & Hev1 & Hh1 & Hs1 & _).
  destruct (Initialize_spec dev width' height' m1 s1)
    as (ok2 & m2 & s2 & evs2 & HI2 & Hext2 & _ & _ & _ & He2 & _ & Hok2 & Hr2).
  destruct (Hr2 Hrel1) as [-> Hrel2].
  destruct (Hok2 eq_refl)
    as (t1' & v1' & r1' & t2' & v2' & r2' & smp' & Hev2 & Hh2 & Hs2 & _).
  destruct (Initialize_fresh dev width height new s)
    as (? & ? & ? & evs1' & HI1' & Hext1' & _ & Hf1).
  rewrite HI1 in HI1'. injection HI1' as <- <- <-.
  assert (evs1' = evs1) as ->.
  { unfold extends in *. rewrite Hext1 in Hext1'. by apply app_inv_head in Hext1'. }
  destruct (Initialize_fresh dev width' height' m1 s1)
    as (? & ? & ? & evs2' & HI2' & Hext2' & _ & Hf2).
  rewrite HI2 in HI2'. injection HI2' as <- <- <-.
  assert (evs2' = evs2) as ->.
  { unfold extends in *. rewrite Hext2 in Hext2'. by apply app_inv_head in Hext2'. }
  destruct (Shutdown_releases m2 s2) as (evs3 & Hext3 & _ & _ & Hrel3).
  assert (map fst (creations evs2) = manager_objects m2) as Hobj2.
  { unfold manager_objects. rewrite He2, He1, Hh2, Hs2.
    change (m_effects new) with (∅ : gmap PostProcessEffect Effect.t).
    rewrite map_to_list_empty, Hev2. by rewrite app_nil_r. }
  exists m1, s1, m2, s2, evs1, evs2, evs3.
  split_and!; try done.
  - by rewrite Hh1, Hs1, Hev1.
  - by rewrite Hev1.
  - by rewrite Hrel3, Hobj2.
  - intros h Hh Hh'. rewrite Hrel3, <- Hobj2 in Hh'.
    apply list_elem_of_fmap in Hh. destruct Hh as (hr & -> & Hhr).
    apply list_elem_of_fmap in Hh'. destruct Hh' as (hr' & Heq & Hhr').
    rewrite Forall_forall in Hf1, Hf2.
    assert (hr.1 < next_handle s1)%positive as Hlt by apply (Hf1 hr Hhr).
    assert (next_handle s1 ≤ hr'.1)%positive as Hle by apply (Hf2 hr' Hhr').
    rewrite Heq in Hlt. apply (Pos.lt_irrefl hr'.1).
    by eapply Pos.lt_le_trans.
Qed.

Lemma Initialize_twice_leaks_witness :
  ∃ m1 s1 m2 s2 evs1 evs2 evs3,
    Initialize (Some TheDevice) 1280 720 new (State_initial [])
      = (true, m1, s1) ∧
    extends (State_initial []) s1 evs1 ∧
    Initialize (Some TheDevice) 1920 1080 m1 s1 = (true, m2, s2) ∧
    extends s1 s2 evs2 ∧
    extends s2 (Shutdown m2 s2).2 evs3 ∧
    map fst (creations evs1) = omap id (held m1 ++ [m_samplerState m1]) ∧
    length (creations evs1) = 7%nat ∧
    releases evs3 ≡ₚ map fst (creations evs2) ∧
    ∀ h, h ∈ map fst (creations evs1) → h ∉ releases evs3.
Proof.
  apply (Initialize_twice_leaks TheDevice 1280 720 1920 1080 (State_initial [])).
  vm_compute. constructor.
Defined.

(** [Apply] with non-null arguments on an enabled instance is defined
    exactly when the instance has its size and both its shaders; the
    parameter buffer may be missing. *)
Lemma Apply_defined_iff ctx input output params e s :
  Effect.m_enabled e = true →
  is_Some (Effect.Apply (Some ctx) (Some input) (Some output) params e s) ↔
  is_Some (Effect.m_width e) ∧ is_Some (Effect.m_height e) ∧
  is_Some (Effect.m_vertexShader e) ∧ is_Some (Effect.m_pixelShader e).
Proof.
  intros Hen. unfold Effect.Apply. rewrite Hen.
  destruct (Effect.m_width e), (Effect.m_height e),
    (Effect.m_vertexShader e), (Effect.m_pixelShader e); cbn;
    split; try (intros _; by split_and!; eexists);
    try (intros [? H]; discriminate H);
    intros (H1 & H2 & H3 & H4);
    first [by destruct H1 | by destruct H2 | by destruct H3 | by destruct H4].
Qed.

(** The copy path is not protected like the loop.  The first copy, a
    [Process] with non-null arguments on an empty order list while the
    static does not exist, ignores the result of the static's
    [Initialize]: it is defined exactly when the manager has a device
    and the two shader creations succeed.  On a manager that was never
    initialised or was shut down, or when a shader cannot be created,
    [Apply] reads the size that was never stored or binds through a null
    shader. *)
Theorem first_copy_defined_iff ctx input output m p :
  m_effectOrder m = [] → copyEffect p = None →
  is_Some (Process (Some ctx) (Some input) (Some output) m p) ↔
  is_Some (m_device m) ∧
  Forall (fun b => b = true) (take 2 (outcomes (device_state p))).
Proof.
  intros Ho Hnone. rewrite Process_empty_chain by done.
  unfold CopyTexture. rewrite Hnone.
  destruct (m_device m) as [dev|].
  2:{ cbn. split; [intros [? H]; discriminate H|intros [[? H] _]; discriminate H]. }
  destruct (Initialize_new_spec dev (m_width m) (m_height m) None_ (device_state p))
    as (ok & e & s1 & evs & HI & _ & _ & _ & _ & _ & Hen & Hw & Hh & _).
  assert (is_Some (Effect.m_vertexShader e) ∧ is_Some (Effect.m_pixelShader e) ↔
          Forall (fun b => b = true) (take 2 (outcomes (device_state p)))) as Hsh.
  { clear Hen Hw Hh. revert HI. destruct (device_state p) as [nh oc pl lg].
    unfold Effect.Initialize, ShaderUtils.CreateVertexShaderFromString,
      ShaderUtils.CreatePixelShaderFromString, ShaderUtils.CreateShaderFromString,
      CreateBuffer, create, next_outcome. cbn [outcomes].
    script_cases oc 3%nat; cbn; intros [= <- <- <-]; cbn; split;
      try (intros _; by repeat constructor);
      try (intros _; split; by eexists);
      try (intros [[? H] [? H']]; discriminate);
      try (intros H; repeat match goal with
             | H : Forall _ (_ :: _) |- _ => inversion H; clear H; subst
             end; discriminate). }
  rewrite HI.
  destruct (Effect.Apply (Some ctx) (Some input) (Some output)
              PostProcessParams_default e s1) as [s'|] eqn:HA; cbn [mbind option_bind].
  - assert (is_Some (Effect.Apply (Some ctx) (Some input) (Some output)
              PostProcessParams_default e s1)) as HS by (rewrite HA; by eexists).
    apply Apply_defined_iff in HS; [|done]. destruct HS as (_ & _ & Hv & Hp).
    split; [|by eexists]. intros _. split; [by eexists|]. by apply Hsh.
  - split; [intros [? H]; discriminate H|]. intros [_ Hall].
    apply Hsh in Hall. destruct Hall as [Hv Hp].
    assert (is_Some (Effect.Apply (Some ctx) (Some input) (Some output)
              PostProcessParams_default e s1)) as HS.
    { apply Apply_defined_iff; [done|]. rewrite Hw, Hh. by split_and!. }
    rewrite HA in HS. by destruct HS.
Qed.

Lemma first_copy_defined_iff_witness :
  is_Some (Process (Some ImmediateContext) (Some sceneTexture) (Some backBuffer)
             PostProcessManager.new (mkProgram (State_initial []) None)) ↔
  is_Some (m_device PostProcessManager.new) ∧
  Forall (fun b => b = true)
         (take 2 (outcomes (device_state (mkProgram (State_initial []) None)))).
Proof.
  apply (first_copy_defined_iff ImmediateContext sceneTexture backBuffer
           PostProcessManager.new (mkProgram (State_initial []) None)).
  - reflexivity.
  - reflexivity.
Defined.

End RunFacts.

(** ** The demo application's effect setups *)

Module ExampleFacts.
Import D3D Spec Ledger D3DFacts EffectFacts PostProcessManager ChainFacts
  ProcessFacts TargetFacts ChainEditing LedgerFacts
  ChainRoundTrips FrameFacts RunFacts Engine Demo BasicEngineExample
  ExampleSpec.

Lemma filter_all {A} (P : A → Prop) `{∀ x, Decision (P x)} (l : list A) :
  (∀ a, a ∈ l → P a) → filter P l = l.
Proof.
  induction l as [|a l IH]; intros Hl; [done|].
  rewrite filter_cons_True by apply Hl, list_elem_of_here.
  rewrite IH; [done|]. intros b Hb. by apply Hl, list_elem_of_further.
Qed.

Lemma filter_none {A} (P : A → Prop) `{∀ x, Decision (P x)} (l : list A) :
  (∀ a, a ∈ l → ¬ P a) → filter P l = [].
Proof.
  induction l as [|a l IH]; intros Hl; [done|].
  rewrite filter_cons_False by apply Hl, list_elem_of_here.
  apply IH. intros b Hb. by apply Hl, list_elem_of_further.
Qed.

Lemma RemoveEffect_spec d m s :
  consistent m →
  m_effectOrder (RemoveEffect d m s).1 = filter (fun a => a ≠ d) (m_effectOrder m) ∧
  consistent (RemoveEffect d m s).1 ∧
  (∀ d', m_effects (RemoveEffect d m s).1 !! d' =
         if decide (d' = d) then None else m_effects m !! d') ∧
  m_device (RemoveEffect d m s).1 = m_device m ∧
  outcomes (RemoveEffect d m s).2 = outcomes s.
Proof.
  intros [Hnd Hin]. unfold RemoveEffect.
  destruct (m_effects m !! d) as [e|] eqn:Hd; cbn [fst snd].
  - cbn [m_effectOrder m_effects m_device set_chain].
    rewrite erase_first_NoDup by done. split_and!.
    + done.
    + split; cbn [m_effectOrder m_effects set_chain]; [by apply NoDup_filter|].
      intros a. rewrite list_elem_of_filter, Hin.
      destruct (decide (a = d)) as [->|Hne].
      * rewrite lookup_delete_eq. split; [by intros [H _]|by intros [? H]].
      * rewrite lookup_delete_ne by done. split; [by intros [_ H]|done].
    + intros d'. destruct (decide (d' = d)) as [->|Hne].
      * apply lookup_delete_eq.
      * by apply lookup_delete_ne.
    + done.
    + unfold Effect.Shutdown, ShaderUtils.reset. cbn [snd].
      by rewrite !SafeRelease_outcomes.
  - assert (d ∉ m_effectOrder m) as Hout.
    { intros H. apply Hin in H. rewrite Hd in H. by destruct H. }
    split_and!; try done.
    + symmetry. rewrite <- (erase_first_NoDup d) by done.
      by apply erase_first_absent.
    + intros d'. destruct (decide (d' = d)) as [->|Hne]; done.
Qed.

Lemma removes_spec l : ∀ m s,
  consistent m →
  m_effectOrder (removes l (m, s)).1
    = filter (fun a => a ∉ l) (m_effectOrder m) ∧
  consistent (removes l (m, s)).1 ∧
  (∀ d, m_effects (removes l (m, s)).1 !! d =
        if decide (d ∈ l) then None else m_effects m !! d) ∧
  m_device (removes l (m, s)).1 = m_device m ∧
  m_parameters (removes l (m, s)).1 = m_parameters m ∧
  outcomes (removes l (m, s)).2 = outcomes s.
Proof.
  induction l as [|d l IH]; intros m s Hc.
  - cbn. split_and!; try done.
    symmetry. apply filter_all. intros a _ H. by apply elem_of_nil in H.
  - destruct (RemoveEffect_spec d m s Hc) as (Ho & Hc' & Hl & Hd & Hout).
    assert (m_parameters (RemoveEffect d m s).1 = m_parameters m) as Hp.
    { unfold RemoveEffect. by destruct (m_effects m !! d). }
    change (removes (d :: l) (m, s)) with (removes l (RemoveEffect d m s)).
    destruct (RemoveEffect d m s) as [m1 s1]. cbn [fst snd] in *.
    destruct (IH m1 s1 Hc') as (Ho' & Hc'' & Hl' & Hd' & Hp' & Hout').
    split_and!; try congruence.
    + rewrite Ho', Ho, list_filter_filter. apply list_filter_iff.
      intros a. rewrite not_elem_of_cons. tauto.
    + intros a. rewrite Hl', Hl.
      destruct (decide (a ∈ l)) as [Hal|Hal].
      * rewrite decide_True; [done|by apply list_elem_of_further].
      * destruct (decide (a = d)) as [->|Hne].
        -- rewrite decide_True; [done|apply list_elem_of_here].
        -- rewrite decide_False; [done|]. rewrite not_elem_of_cons. tauto.
Qed.

(** [AddEffect] of a descriptor without instance, on a manager with a
    device and a device that does not fail. *)
Lemma AddEffect_reliable d m s :
  is_Some (m_device m) → m_effects m !! d = None → reliable s →
  ∃ e,
    (AddEffect d m s).1
      = set_chain (<[d := e]> (m_effects m)) (m_effectOrder m ++ [d]) m ∧
    Effect.initialized e ∧ Effect.m_enabled e = true ∧
    reliable (AddEffect d m s).2.
Proof.
  intros [dev Hdev] Hd Hrel. unfold AddEffect. rewrite Hd, Hdev.
  destruct (Initialize_new_spec dev (m_width m) (m_height m) d s)
    as (ok & e & s1 & evs & -> & _ & _ & _ & _ & _ & Hen & Hw & Hh & Hok & _ & Hr).
  destruct (Hr Hrel) as [-> Hrel1]. exists e. cbn [fst snd].
  split_and!; try done.
  destruct (Hok eq_refl) as (vs & ps & buf & _ & Hvs & Hps & Hbuf).
  unfold Effect.initialized. rewrite Hvs, Hps, Hbuf, Hw, Hh. by split_and!.
Qed.

Lemma adds_spec l : ∀ m s,
  NoDup l → (∀ d, d ∈ l → m_effects m !! d = None) →
  consistent m → all_initialized m → is_Some (m_device m) → reliable s →
  m_effectOrder (adds l (m, s)).1 = m_effectOrder m ++ l ∧
  consistent (adds l (m, s)).1 ∧ all_initialized (adds l (m, s)).1 ∧
  (∀ d, d ∈ l → runs (adds l (m, s)).1 d = true) ∧
  (∀ d, d ∉ l → m_effects (adds l (m, s)).1 !! d = m_effects m !! d) ∧
  m_device (adds l (m, s)).1 = m_device m ∧
  m_parameters (adds l (m, s)).1 = m_parameters m ∧
  reliable (adds l (m, s)).2.
Proof.
  induction l as [|d l IH]; intros m s Hnd Hnone Hc Hall Hdev Hrel.
  - cbn. rewrite app_nil_r. split_and!; try done.
    intros d H. by apply elem_of_nil in H.
  - apply NoDup_cons in Hnd. destruct Hnd as [Hdl Hnd].
    destruct (AddEffect_reliable d m s Hdev) as (e & Hm1 & Hinit & Hen & Hrel1);
      [apply Hnone, list_elem_of_here|done|].
    pose proof (AddEffect_consistent d m s Hc) as Hc1.
    pose proof (AddEffect_all_initialized d m s Hall) as Hall1.
    change (adds (d :: l) (m, s)) with (adds l (AddEffect d m s)).
    destruct (AddEffect d m s) as [m1 s1]. cbn [fst snd] in *.
    assert (m_device m1 = m_device m) as Hdev1 by (by rewrite Hm1).
    assert (m_parameters m1 = m_parameters m) as Hp1 by (by rewrite Hm1).
    assert (m_effectOrder m1 = m_effectOrder m ++ [d]) as Ho1 by (by rewrite Hm1).
    assert (∀ a, m_effects m1 !! a = <[d := e]> (m_effects m) !! a) as Hl1
      by (by rewrite Hm1).
    clear Hm1.
    destruct (IH m1 s1 Hnd) as (Ho & Hc' & Hall' & Hruns & Hl & Hd' & Hp & Hr');
      try done.
    { intros a Ha. rewrite Hl1, lookup_insert_ne.
      - apply Hnone. by apply list_elem_of_further.
      - by intros ->. }
    { by rewrite Hdev1. }
    split_and!; try done; try congruence.
    + rewrite Ho, Ho1. by rewrite <- app_assoc.
    + intros a Ha. apply elem_of_cons in Ha. destruct Ha as [->|Ha]; [|by apply Hruns].
      unfold runs. rewrite (Hl d Hdl), Hl1. by rewrite lookup_insert_eq.
    + intros a Ha. apply not_elem_of_cons in Ha. destruct Ha as [Hne Ha].
      rewrite (Hl a Ha), Hl1. by rewrite lookup_insert_ne.
Qed.

Lemma setup_case_adds k m s :
  (setup_case k m s).2 = (adds (setup_effects k) (m, s)).2 ∧
  SetEffectParameters (m_parameters (adds (setup_effects k) (m, s)).1)
                      (setup_case k m s).1
    = (adds (setup_effects k) (m, s)).1.
Proof.
  assert (∀ x p, SetEffectParameters (m_parameters x) (SetEffectParameters p x) = x)
    as Hset by (by intros []).
  destruct k as [|p|p]; [by destruct m| |by destruct m].
  destruct p as [[p|p|]|[p|p|]|]; try (by destruct m);
    cbn [setup_case setup_effects fst snd]; split; try done; apply Hset.
Qed.

Lemma setup_effects_cleared k :
  NoDup (setup_effects k) ∧ ∀ d, d ∈ setup_effects k → d ∈ cleared_effects.
Proof.
  assert (∀ l : list PostProcessEffect,
            bool_decide (NoDup l ∧ Forall (fun d => d ∈ cleared_effects) l) →
            NoDup l ∧ ∀ d, d ∈ l → d ∈ cleared_effects) as Hdec.
  { intros l H. apply bool_decide_unpack in H. destruct H as [H1 H2].
    split; [done|]. by apply Forall_forall. }
  destruct k as [|p|p]; [by apply Hdec| |by apply Hdec].
  destruct p as [[p|p|]|[p|p|]|]; apply Hdec; vm_compute; exact I.
Qed.

Lemma removes_settles l : ∀ ms,
  settles ms.1 ms.2 (removes l ms).1 (removes l ms).2.
Proof.
  induction l as [|d l IH]; intros ms; [apply settles_refl|].
  eapply settles_trans; [apply (RemoveEffect_settles d)|apply IH].
Qed.

Lemma adds_settles l : ∀ ms,
  settles ms.1 ms.2 (adds l ms).1 (adds l ms).2.
Proof.
  induction l as [|d l IH]; intros ms; [apply settles_refl|].
  eapply settles_trans; [apply (AddEffect_settles d)|apply IH].
Qed.

Lemma SetupPostProcessing_spec a m s :
  m_postProcessor a = Some m → consistent m → all_initialized m →
  is_Some (m_device m) → reliable s →
  ∃ m',
    m_postProcessor (SetupPostProcessing a s).1 = Some m' ∧
    m_currentEffectSetup (SetupPostProcessing a s).1 = m_currentEffectSetup a ∧
    m_postProcessingEnabled (SetupPostProcessing a s).1
      = m_postProcessingEnabled a ∧
    m_effectOrder m'
      = filter (fun d => d ∉ cleared_effects) (m_effectOrder m)
        ++ setup_effects (m_currentEffectSetup a) ∧
    (∀ d, d ∈ setup_effects (m_currentEffectSetup a) → runs m' d = true) ∧
    (∀ d, d ∉ cleared_effects → m_effects m' !! d = m_effects m !! d) ∧
    example_ready (SetupPostProcessing a s).1 (SetupPostProcessing a s).2 ∧
    settles m s m' (SetupPostProcessing a s).2.
Proof.
  intros Hm Hc Hall Hdev Hrel. unfold SetupPostProcessing. rewrite Hm.
  change (RemoveEffect Grayscale _ _) with (removes cleared_effects (m, s)).
  destruct (removes_spec cleared_effects m s Hc)
    as (Ho1 & Hc1 & Hl1 & Hd1 & _ & Hout1).
  pose proof (removes_settles cleared_effects (m, s)) as Hs1.
  assert (all_initialized (removes cleared_effects (m, s)).1) as Hall1.
  { intros d e. rewrite Hl1. destruct (decide _); [done|apply Hall]. }
  destruct (removes cleared_effects (m, s)) as [m1 s1]. cbn [fst snd] in *.
  set (k := m_currentEffectSetup a).
  destruct (setup_effects_cleared k) as [Hnd Hsub].
  assert (reliable s1) as Hrel1 by (unfold reliable; by rewrite Hout1).
  destruct (adds_spec (setup_effects k) m1 s1 Hnd)
    as (Ho2 & Hc2 & Hall2 & Hruns & Hl2 & Hd2 & _ & Hrel2); try done.
  { intros d Hd. rewrite Hl1. rewrite decide_True; [done|by apply Hsub]. }
  { by rewrite Hd1. }
  pose proof (adds_settles (setup_effects k) (m1, s1)) as Hs2.
  destruct (setup_case_adds k m1 s1) as [Hst Hmg].
  destruct (adds (setup_effects k) (m1, s1)) as [m2 s2]. cbn [fst snd] in *.
  destruct (setup_case k m1 s1) as [m3 s3]. cbn [fst snd] in *. subst s3.
  assert (m_effects m3 = m_effects m2) as He by (by rewrite <- Hmg).
  assert (m_effectOrder m3 = m_effectOrder m2) as Ho3 by (by rewrite <- Hmg).
  assert (m_device m3 = m_device m2) as Hd3 by (by rewrite <- Hmg).
  assert (manager_objects m3 = manager_objects m2) as Hobj by (by rewrite <- Hmg).
  exists m3. split_and!; try done.
  - by rewrite Ho3, Ho2, Ho1.
  - intros d Hd. unfold runs. rewrite He. by apply Hruns.
  - intros d Hd. rewrite He, Hl2, Hl1.
    + by rewrite decide_False.
    + intros H. by apply Hd, Hsub.
  - exists m3. split_and!; try done.
    + by apply (consistent_ext m2).
    + intros d e. rewrite He. apply Hall2.
    + by rewrite Hd3, Hd2, Hd1.
  - destruct (settles_trans _ _ _ _ _ _ Hs1 Hs2) as (evs & Hext & Hdr & Hperm).
    exists evs. by rewrite Hobj.
Qed.

(** [SetupPostProcessing] on a device that does not fail: the four
    effects of the demo are removed, whichever were in the chain, and
    released; the effects of the current setup are appended in the order
    of the case, each with an enabled, fully initialised instance;
    effects of other kinds keep their instances and their places; and
    nothing is left on the device but what the manager holds. *)
Theorem SetupPostProcessing_chain a m s :
  m_postProcessor a = Some m → consistent m → all_initialized m →
  is_Some (m_device m) → reliable s →
  ∃ m' evs,
    m_postProcessor (SetupPostProcessing a s).1 = Some m' ∧
    m_currentEffectSetup (SetupPostProcessing a s).1 = m_currentEffectSetup a ∧
    m_effectOrder m'
      = filter (fun d => d ∉ cleared_effects) (m_effectOrder m)
        ++ setup_effects (m_currentEffectSetup a) ∧
    (∀ d, d ∈ setup_effects (m_currentEffectSetup a) → runs m' d = true) ∧
    (∀ d, d ∉ cleared_effects → m_effects m' !! d = m_effects m !! d) ∧
    consistent m' ∧ all_initialized m' ∧
    reliable (SetupPostProcessing a s).2 ∧
    extends s (SetupPostProcessing a s).2 evs ∧ draws evs = [] ∧
    map fst (creations evs) ++ manager_objects m
      ≡ₚ releases evs ++ manager_objects m'.
Proof.
  intros Hm Hc Hall Hdev Hrel.
  destruct (SetupPostProcessing_spec a m s Hm Hc Hall Hdev Hrel)
    as (m' & Hm' & Hk & _ & Ho & Hruns & Hl & (m'' & Hm'' & Hc' & Hall' & _ & Hrel')
        & (evs & Hext & Hdr & Hperm)).
  rewrite Hm' in Hm''. injection Hm'' as <-.
  exists m', evs. by split_and!.
Qed.

Lemma SetupPostProcessing_chain_witness :
  ∃ m' evs,
    m_postProcessor
      (SetupPostProcessing (BasicEngineExample.mk (Some (startup [] [Sepia]).1) true 1)
                           (startup [] [Sepia]).2).1 = Some m' ∧
    m_currentEffectSetup
      (SetupPostProcessing (BasicEngineExample.mk (Some (startup [] [Sepia]).1) true 1)
                           (startup [] [Sepia]).2).1
      = m_currentEffectSetup
          (BasicEngineExample.mk (Some (startup [] [Sepia]).1) true 1) ∧
    m_effectOrder m'
      = filter (fun d => d ∉ cleared_effects)
               (m_effectOrder (startup [] [Sepia]).1)
        ++ setup_effects
             (m_currentEffectSetup
                (BasicEngineExample.mk (Some (startup [] [Sepia]).1) true 1)) ∧
    extends (startup [] [Sepia]).2
      (SetupPostProcessing (BasicEngineExample.mk (Some (startup [] [Sepia]).1) true 1)
                           (startup [] [Sepia]).2).2 evs.
Proof.
  destruct (SetupPostProcessing_chain
              (BasicEngineExample.mk (Some (startup [] [Sepia]).1) true 1)
              (startup [] [Sepia]).1 (startup [] [Sepia]).2)
    as (m' & evs & H1 & H2 & H3 & _ & _ & _ & _ & _ & H4 & _).
  - reflexivity.
  - apply startup_consistent.
  - intros d e; destruct d; vm_compute; intros H; simplify_eq;
      repeat split; eexists; reflexivity.
  - vm_compute. eexists. reflexivity.
  - vm_compute. constructor.
  - exists m', evs. split_and!; [exact H1|exact H2|exact H3|exact H4].
Defined.


Lemma filter_cleared_setup k (l : list PostProcessEffect) :
  filter (fun d => d ∉ cleared_effects)
         (filter (fun d => d ∉ cleared_effects) l ++ setup_effects k)
  = filter (fun d => d ∉ cleared_effects) l.
Proof.
  rewrite filter_app, list_filter_filter.
  destruct (setup_effects_cleared k) as [_ Hsub].
  replace (filter (fun d => d ∉ cleared_effects) (setup_effects k))
    with (@nil PostProcessEffect).
  - rewrite app_nil_r. apply list_filter_iff. tauto.
  - symmetry. apply filter_none. intros d Hd H. by apply H, Hsub.
Qed.

Lemma NextPostProcessEffect_spec a m s :
  m_postProcessor a = Some m → example_ready a s →
  0 ≤ m_currentEffectSetup a < 4 →
  ∃ a' s' m',
    NextPostProcessEffect a s = Some (a', s') ∧
    m_postProcessor a' = Some m' ∧
    m_currentEffectSetup a' = (m_currentEffectSetup a + 1) mod 4 ∧
    m_postProcessingEnabled a' = m_postProcessingEnabled a ∧
    m_effectOrder m'
      = filter (fun d => d ∉ cleared_effects) (m_effectOrder m)
        ++ setup_effects ((m_currentEffectSetup a + 1) mod 4) ∧
    example_ready a' s'.
Proof.
  intros Hm (m0 & Hm0 & Hc & Hall & Hdev & Hrel) Hk.
  rewrite Hm in Hm0. injection Hm0 as <-.
  unfold NextPostProcessEffect.
  rewrite decide_True by (unfold INT_MAX; lia).
  rewrite Z.rem_mod_nonneg by lia.
  set (a1 := set_currentEffectSetup _ a).
  destruct (SetupPostProcessing_spec a1 m s Hm Hc Hall Hdev Hrel)
    as (m' & Hm' & Hk' & Hen & Ho & _ & _ & Hready & _).
  exists (SetupPostProcessing a1 s).1, (SetupPostProcessing a1 s).2, m'.
  split_and!; try done. by destruct (SetupPostProcessing a1 s).
Qed.

(** Pressing the key of [NextPostProcessEffect] any number of times, on
    a device that does not fail: no call overflows, the setup index
    advances modulo four, and the chain is the effects of other kinds
    followed by the effects of the setup reached, so four presses bring
    back the same setup and the same chain. *)
Theorem NextPostProcessEffect_cycle n a m s :
  m_postProcessor a = Some m → example_ready a s →
  0 ≤ m_currentEffectSetup a < 4 →
  ∃ a' s' m',
    presses (S n) a s = Some (a', s') ∧
    m_postProcessor a' = Some m' ∧
    m_currentEffectSetup a' = (m_currentEffectSetup a + Z.of_nat (S n)) mod 4 ∧
    m_postProcessingEnabled a' = m_postProcessingEnabled a ∧
    m_effectOrder m'
      = filter (fun d => d ∉ cleared_effects) (m_effectOrder m)
        ++ setup_effects ((m_currentEffectSetup a + Z.of_nat (S n)) mod 4) ∧
    example_ready a' s'.
Proof.
  revert a m s. induction n as [|n IH]; intros a m s Hm Hready Hk.
  - destruct (NextPostProcessEffect_spec a m s Hm Hready Hk)
      as (a' & s' & m' & HN & Hm' & Hk' & Hen & Ho & Hr).
    exists a', s', m'. cbn [presses]. rewrite HN. by split_and!.
  - destruct (NextPostProcessEffect_spec a m s Hm Hready Hk)
      as (a1 & s1 & m1 & HN & Hm1 & Hk1 & Hen1 & Ho1 & Hr1).
    assert (0 ≤ m_currentEffectSetup a1 < 4) as Hk1'.
    { rewrite Hk1. apply Z.mod_pos_bound. lia. }
    destruct (IH a1 m1 s1 Hm1 Hr1 Hk1')
      as (a' & s' & m' & HP & Hm' & Hk' & Hen & Ho & Hr).
    exists a', s', m'.
    assert ((m_currentEffectSetup a1 + Z.of_nat (S n)) mod 4
            = (m_currentEffectSetup a + Z.of_nat (S (S n))) mod 4) as Hidx.
    { rewrite Hk1, Zplus_mod_idemp_l. f_equal. lia. }
    split_and!; try done.
    + change (presses (S (S n)) a s)
        with (as' ← NextPostProcessEffect a s; presses (S n) as'.1 as'.2).
      by rewrite HN.
    + by rewrite Hk', Hidx.
    + congruence.
    + by rewrite Ho, Ho1, filter_cleared_setup, Hidx.
Qed.

Lemma NextPostProcessEffect_cycle_witness :
  ∃ a' s' m',
    presses 4 (BasicEngineExample.mk (Some (startup [] [Bloom; ToneMapping; Vignette]).1) true 1)
            (startup [] [Bloom; ToneMapping; Vignette]).2 = Some (a', s') ∧
    m_postProcessor a' = Some m' ∧
    m_currentEffectSetup a' = 1 ∧
    m_effectOrder m' = [Bloom; ToneMapping; Vignette].
Proof.
  destruct (NextPostProcessEffect_cycle 3
              (BasicEngineExample.mk
                 (Some (startup [] [Bloom; ToneMapping; Vignette]).1) true 1)
              (startup [] [Bloom; ToneMapping; Vignette]).1
              (startup [] [Bloom; ToneMapping; Vignette]).2)
    as (a' & s' & m' & H1 & H2 & H3 & _ & H4 & _).
  - reflexivity.
  - exists (startup [] [Bloom; ToneMapping; Vignette]).1. split_and!.
    + reflexivity.
    + apply startup_consistent.
    + intros d e; destruct d; vm_compute; intros H; simplify_eq;
        repeat split; eexists; reflexivity.
    + vm_compute. eexists. reflexivity.
    + vm_compute. constructor.
  - cbn. lia.
  - exists a', s', m'. split_and!; [exact H1|exact H2|exact H3|].
    rewrite H4. vm_compute. reflexivity.
Defined.

End ExampleFacts.

(** ** The shader class *)

Module ShaderFacts.
Import D3D ShaderDevice Shader ShaderSpec.

Lemma shader_creations_app l1 l2 : creations (l1 ++ l2) = creations l1 ++ creations l2.
Proof. apply omap_app. Qed.

Lemma shader_releases_app l1 l2 : releases (l1 ++ l2) = releases l1 ++ releases l2.
Proof. apply omap_app. Qed.

Lemma appended_refl s : appended s s [].
Proof. unfold appended. by rewrite app_nil_r. Qed.

Lemma appended_trans s1 s2 s3 e1 e2 :
  appended s1 s2 e1 → appended s2 s3 e2 → appended s1 s3 (e1 ++ e2).
Proof. unfold appended. intros -> ->. by rewrite app_assoc. Qed.

Lemma accounts_refl sh s : accounts sh s sh s.
Proof. exists []. split; [apply appended_refl|done]. Qed.

Lemma accounts_trans sh1 s1 sh2 s2 sh3 s3 :
  accounts sh1 s1 sh2 s2 → accounts sh2 s2 sh3 s3 → accounts sh1 s1 sh3 s3.
Proof.
  intros (e1 & H1 & P1) (e2 & H2 & P2). exists (e1 ++ e2).
  split; [by eapply appended_trans|].
  rewrite shader_creations_app, shader_releases_app, map_app.
  rewrite <- (assoc (++)), (comm (++) (map fst (creations e2))).
  rewrite (assoc (++)), P1. rewrite <- (assoc (++)).
  rewrite (comm (++) (shader_objects sh2)), P2. solve_Permutation.
Qed.

Lemma shader_SafeRelease_log p s :
  log (SafeRelease p s) = log s ++ omap (fun p : option handle => Released <$> p) [p].
Proof. destruct p; [done|]. cbn. by rewrite app_nil_r. Qed.

Lemma Shader_Shutdown_result sh s :
  (Shutdown sh s).1
  = mk (m_type sh) "" "" None None None None None None None None false.
Proof. done. Qed.

(** [Shutdown] releases every object the shader holds, once, and leaves
    a shader that holds nothing. *)
Lemma Shader_Shutdown_released sh s :
  ∃ evs, appended s (Shutdown sh s).2 evs ∧ creations evs = [] ∧
         releases evs = shader_objects sh.
Proof.
  unfold Shutdown, ReleaseShaderResources, appended, shader_objects.
  cbn [fst snd m_inputLayout m_shaderBlob].
  rewrite !shader_SafeRelease_log, <- !app_assoc.
  eexists. split; [reflexivity|].
  destruct (m_vertexShader sh), (m_pixelShader sh), (m_geometryShader sh),
    (m_hullShader sh), (m_domainShader sh), (m_computeShader sh),
    (m_inputLayout sh), (m_shaderBlob sh); by cbn.
Qed.

Lemma Shader_Shutdown_accounts sh s : accounts sh s (Shutdown sh s).1 (Shutdown sh s).2.
Proof.
  destruct (Shader_Shutdown_released sh s) as (evs & Hext & Hcr & Hrel).
  exists evs. split; [done|]. rewrite Hcr, Hrel, Shader_Shutdown_result. cbn.
  by rewrite app_nil_r.
Qed.


Ltac script_cases oc n :=
  lazymatch n with
  | O => idtac
  | S ?k => destruct oc as [|[] oc]; [|script_cases oc k|]
  end.

(** [CompileFromString] once the argument checks have passed: the shader
    is shut down first, whatever the outcome; the objects created
    afterwards are the ones the shader holds on return; and [IsValid]
    is the value returned. *)
Lemma CompileFromString_spec device code entry type layout sh s :
  device ≠ None → code ≠ "" → entry ≠ "" →
  ∃ ok sh' s' evs,
    CompileFromString device code entry type layout sh s = (ok, sh', s') ∧
    appended (Shutdown sh s).2 s' evs ∧ releases evs = [] ∧
    map fst (creations evs) ≡ₚ shader_objects sh' ∧
    IsValid sh' = ok ∧ m_isCompiled sh' = ok ∧
    m_type sh' = type ∧ m_entryPoint sh' = entry ∧ m_filepath sh' = "" ∧
    (ok = true →
       is_Some (m_shaderBlob sh') ∧
       (type = Vertex ∧ is_Some (m_vertexShader sh') ∧
          (layout = [] ↔ m_inputLayout sh' = None) ∨
        type = Pixel ∧ is_Some (m_pixelShader sh'))) ∧
    (bindings s' = bindings s).
Proof.
  intros Hdev Hcode Hentry. unfold CompileFromString.
  rewrite bool_decide_eq_false_2 by tauto.
  assert (bindings (Shutdown sh s).2 = bindings s) as Hb.
  { unfold Shutdown, ReleaseShaderResources. cbn [fst snd].
    by destruct (m_vertexShader sh), (m_pixelShader sh), (m_geometryShader sh),
      (m_hullShader sh), (m_domainShader sh), (m_computeShader sh),
      (m_inputLayout sh), (m_shaderBlob sh). }
  pose proof (Shader_Shutdown_result sh s) as Hsh.
  destruct (Shutdown sh s) as [sh0 s0]. cbn [fst snd] in *. subst sh0.
  rewrite <- Hb. clear Hb.
  destruct s0 as [nh oc b lg]. destruct device as [dev|]; [|done].
  unfold D3DCompile, CreateVertexShader, CreatePixelShader, CreateInputLayout,
    ShaderDevice.CreateInputLayout, create, appended, IsValid, shader_objects.
  destruct type, layout as [|el layout]; script_cases oc 3%nat; cbn;
    do 4 eexists; (split; [reflexivity|]); cbn;
    (split; [rewrite <- ?app_assoc; cbn [app]; try reflexivity;
             by rewrite ?app_nil_r|]);
    cbn; split_and!; try done; try solve_Permutation;
    intros _; (split; [by eexists|]);
    first [ left; split_and!; [done|by eexists|done]
          | right; split; [done|by eexists] ].
Qed.


Lemma CompileFromString_rejected device code entry type layout sh s :
  device = None ∨ code = "" ∨ entry = "" →
  CompileFromString device code entry type layout sh s = (false, sh, s).
Proof. intros H. unfold CompileFromString. by rewrite bool_decide_eq_true_2. Qed.

Lemma CompileFromString_accounts device code entry type layout sh s :
  accounts sh s
    (CompileFromString device code entry type layout sh s).1.2
    (CompileFromString device code entry type layout sh s).2.
Proof.
  destruct (decide (device = None ∨ code = "" ∨ entry = "")) as [H|H].
  - rewrite CompileFromString_rejected by done. apply accounts_refl.
  - destruct (CompileFromString_spec device code entry type layout sh s)
      as (ok & sh' & s' & evs & -> & Hext & Hrel & Hcr & _); [tauto..|].
    eapply accounts_trans; [apply Shader_Shutdown_accounts|].
    exists evs. split; [done|]. rewrite Hrel, Hcr, Shader_Shutdown_result. cbn.
    by rewrite app_nil_r.
Qed.

Lemma call_accounts op x : accounts x.1 x.2 (call op x).1 (call op x).2.
Proof.
  destruct op as [device code entry type layout
                 |files device path entry type layout|]; cbn [call].
  - pose proof (CompileFromString_accounts device code entry type layout x.1 x.2) as H.
    by destruct (CompileFromString _ _ _ _ _ _ _) as [[ok sh'] s'].
  - unfold CompileFromFile. destruct (files !! path) as [content|].
    + pose proof (CompileFromString_accounts device content entry type layout
                    (set_filepath path x.1) x.2) as H.
      by destruct (CompileFromString _ _ _ _ _ _ _) as [[ok sh'] s'].
    + apply accounts_refl.
  - apply Shader_Shutdown_accounts.
Qed.

Lemma calls_accounts ops : ∀ x, accounts x.1 x.2 (calls ops x).1 (calls ops x).2.
Proof.
  induction ops as [|op ops IH]; intros x; [apply accounts_refl|].
  eapply accounts_trans; [apply (call_accounts op)|apply IH].
Qed.

(** A failed compilation is not harmless.  When the arguments are
    rejected (null device, empty source or empty entry point) the
    shader, even a compiled and valid one, and the device are left as
    they were.  Once the arguments are accepted the shader is shut down
    before anything is compiled, so afterwards [IsValid] is exactly the
    value returned: a failed recompilation destroys the shader that was
    there.  Only vertex and pixel shaders can succeed, and a vertex
    shader has an input layout exactly when layout elements were
    given. *)
Theorem CompileFromString_valid device code entry type layout sh s :
  (device = None ∨ code = "" ∨ entry = "" →
     CompileFromString device code entry type layout sh s = (false, sh, s)) ∧
  (device ≠ None → code ≠ "" → entry ≠ "" →
     ∃ ok sh' s' evs,
       CompileFromString device code entry type layout sh s = (ok, sh', s') ∧
       IsValid sh' = ok ∧ m_type sh' = type ∧ m_entryPoint sh' = entry ∧
       appended s s' evs ∧
       (∀ h, h ∈ shader_objects sh → h ∈ releases evs) ∧
       (ok = true →
          is_Some (m_shaderBlob sh') ∧
          (type = Vertex ∧ is_Some (m_vertexShader sh') ∧
             (layout = [] ↔ m_inputLayout sh' = None) ∨
           type = Pixel ∧ is_Some (m_pixelShader sh')))).
Proof.
  split; [apply CompileFromString_rejected|].
  intros Hdev Hcode Hentry.
  destruct (CompileFromString_spec device code entry type layout sh s
              Hdev Hcode Hentry)
    as (ok & sh' & s' & evs & HC & Hext & _ & _ & Hv & _ & Ht & He & _ & Hok & _).
  destruct (Shader_Shutdown_released sh s) as (evs0 & Hext0 & _ & Hrel0).
  exists ok, sh', s', (evs0 ++ evs). split_and!; try done.
  - by eapply appended_trans.
  - intros h Hh. rewrite shader_releases_app, Hrel0. apply elem_of_app. by left.
Qed.

Lemma CompileFromString_valid_witness :
  ∃ ok sh' s' evs,
    CompileFromString (Some TheDevice) "float4 main() {}" "main" Geometry []
                      Shader.new (State_initial [])
      = (ok, sh', s') ∧
    IsValid sh' = ok ∧ m_type sh' = Geometry ∧ m_entryPoint sh' = "main" ∧
    appended (State_initial []) s' evs.
Proof.
  destruct (CompileFromString_valid (Some TheDevice) "float4 main() {}" "main"
              Geometry [] Shader.new (State_initial [])) as [_ H].
  destruct H as (ok & sh' & s' & evs & H1 & H2 & H3 & H4 & H5 & _);
    [done|done|done|].
  exists ok, sh', s', evs. split_and!; [exact H1|exact H2|exact H3|exact H4|exact H5].
Defined.

(** No sequence of compilations, from strings or from files, with any
    arguments and any outcomes, followed by the shutdown that the
    destructor performs, leaves a device object behind or releases one
    twice: what was released is what was created. *)
Theorem Shader_lifecycle_balanced ops s :
  ∃ evs,
    appended s (Shutdown (calls ops (Shader.new, s)).1
                         (calls ops (Shader.new, s)).2).2 evs ∧
    releases evs ≡ₚ map fst (creations evs).
Proof.
  destruct (accounts_trans _ _ _ _ _ _
              (calls_accounts ops (Shader.new, s))
              (Shader_Shutdown_accounts (calls ops (Shader.new, s)).1
                                 (calls ops (Shader.new, s)).2))
    as (evs & Hext & Hperm).
  exists evs. split; [done|].
  rewrite Shader_Shutdown_result in Hperm. cbn in Hperm.
  by rewrite !app_nil_r in Hperm.
Qed.

(** [CompileFromFile] does not keep the path of what it compiled.  A
    file that cannot be opened leaves the shader as it was.  Otherwise
    the path is stored, but the [Shutdown] inside [CompileFromString]
    clears it again: after a compilation that got past the argument
    checks, successful or not, [m_filepath] is empty; the path survives
    only when the arguments were rejected and nothing was compiled. *)
Theorem CompileFromFile_forgets_path files device path entry type layout sh s :
  (files !! path = None →
     CompileFromFile files device path entry type layout sh s = (false, sh, s)) ∧
  (∀ content, files !! path = Some content →
     (device = None ∨ content = "" ∨ entry = "" →
        CompileFromFile files device path entry type layout sh s
          = (false, set_filepath path sh, s)) ∧
     (device ≠ None → content ≠ "" → entry ≠ "" →
        m_filepath (CompileFromFile files device path entry type layout sh s).1.2
          = "" ∧
        IsValid (CompileFromFile files device path entry type layout sh s).1.2
          = (CompileFromFile files device path entry type layout sh s).1.1)).
Proof.
  unfold CompileFromFile. split.
  - by intros ->.
  - intros content ->. split.
    + apply CompileFromString_rejected.
    + intros Hdev Hcode Hentry.
      destruct (CompileFromString_spec device content entry type layout
                  (set_filepath path sh) s Hdev Hcode Hentry)
        as (ok & sh' & s' & evs & -> & _ & _ & _ & Hv & _ & _ & _ & Hp & _).
      done.
Qed.

Lemma CompileFromFile_forgets_path_witness :
  m_filepath
    (CompileFromFile {[ "quad.hlsl" := "float4 main() {}" ]} (Some TheDevice)
       "quad.hlsl" "main" Pixel [] Shader.new (State_initial [])).1.2 = "" ∧
  IsValid
    (CompileFromFile {[ "quad.hlsl" := "float4 main() {}" ]} (Some TheDevice)
       "quad.hlsl" "main" Pixel [] Shader.new (State_initial [])).1.2
  = (CompileFromFile {[ "quad.hlsl" := "float4 main() {}" ]} (Some TheDevice)
       "quad.hlsl" "main" Pixel [] Shader.new (State_initial [])).1.1.
Proof.
  destruct (CompileFromFile_forgets_path {[ "quad.hlsl" := "float4 main() {}" ]}
              (Some TheDevice) "quad.hlsl" "main" Pixel [] Shader.new
              (State_initial [])) as [_ H].
  apply (H "float4 main() {}").
  - vm_compute. reflexivity.
  - discriminate.
  - discriminate.
  - discriminate.
Defined.


Lemma Shader_Shutdown_outcomes sh s : outcomes (Shutdown sh s).2 = outcomes s.
Proof.
  unfold Shutdown, ReleaseShaderResources. cbn [fst snd].
  by destruct (m_vertexShader sh), (m_pixelShader sh), (m_geometryShader sh),
    (m_hullShader sh), (m_domainShader sh), (m_computeShader sh),
    (m_inputLayout sh), (m_shaderBlob sh).
Qed.

(** On a device that does not fail, a vertex or pixel shader whose
    arguments are accepted compiles. *)
Lemma CompileFromString_reliable device code entry type layout sh s :
  device ≠ None → code ≠ "" → entry ≠ "" → type = Vertex ∨ type = Pixel →
  Forall (fun b => b = true) (outcomes s) →
  (CompileFromString device code entry type layout sh s).1.1 = true.
Proof.
  intros Hdev Hcode Hentry Htype Hrel. unfold CompileFromString.
  rewrite bool_decide_eq_false_2 by tauto.
  rewrite <- (Shader_Shutdown_outcomes sh) in Hrel.
  destruct (Shutdown sh s) as [sh0 s0]. cbn [fst snd] in *.
  destruct s0 as [nh oc b lg]. cbn [outcomes] in Hrel.
  destruct device as [dev|]; [|done].
  unfold D3DCompile, CreateVertexShader, CreatePixelShader, CreateInputLayout,
    ShaderDevice.CreateInputLayout, create.
  destruct Htype as [-> | ->], layout as [|el layout];
    script_cases oc 3%nat; cbn; try done;
    repeat match goal with
      | H : Forall _ (_ :: _) |- _ => inversion H; clear H; subst
      end; done.
Qed.

(** The shaders handed out by [ShaderUtils].  A null result leaves
    nothing behind: every object created on the way was released when
    the only owner was destroyed.  A non-null result is a valid shader of
    the right kind that holds exactly the objects created, none of them
    released; a vertex shader has an input layout exactly when layout
    elements were given.  With a device, a non-empty source and a device
    that does not fail, the result is not null. *)
Theorem ShaderUtils_owns_what_it_creates device code layout s :
  (∃ evs,
     appended s
       (ShaderUtilsImpl.CreateVertexShaderFromString device code layout s).2 evs ∧
     match (ShaderUtilsImpl.CreateVertexShaderFromString device code layout s).1 with
     | Some sh =>
       IsValid sh = true ∧ m_type sh = Vertex ∧ releases evs = [] ∧
       map fst (creations evs) ≡ₚ shader_objects sh ∧
       is_Some (m_vertexShader sh) ∧
       (layout = [] ↔ m_inputLayout sh = None)
     | None => releases evs ≡ₚ map fst (creations evs)
     end) ∧
  (∃ evs,
     appended s (ShaderUtilsImpl.CreatePixelShaderFromString device code s).2 evs ∧
     match (ShaderUtilsImpl.CreatePixelShaderFromString device code s).1 with
     | Some sh =>
       IsValid sh = true ∧ m_type sh = Pixel ∧ releases evs = [] ∧
       map fst (creations evs) ≡ₚ shader_objects sh ∧
       is_Some (m_pixelShader sh)
     | None => releases evs ≡ₚ map fst (creations evs)
     end) ∧
  (device ≠ None → code ≠ "" → Forall (fun b => b = true) (outcomes s) →
     is_Some (ShaderUtilsImpl.CreateVertexShaderFromString device code layout s).1 ∧
     is_Some (ShaderUtilsImpl.CreatePixelShaderFromString device code s).1).
Proof.
  assert (∀ type lay,
    ∃ evs ok sh s',
      CompileFromString device code "main" type lay Shader.new s = (ok, sh, s') ∧
      appended s (if ok then s' else (Shutdown sh s').2) evs ∧
      if ok then
        IsValid sh = true ∧ m_type sh = type ∧ releases evs = [] ∧
        map fst (creations evs) ≡ₚ shader_objects sh ∧
        (type = Vertex ∧ is_Some (m_vertexShader sh) ∧
           (lay = [] ↔ m_inputLayout sh = None) ∨
         type = Pixel ∧ is_Some (m_pixelShader sh))
      else releases evs ≡ₚ map fst (creations evs)) as Hgen.
  { intros type lay.
    destruct (decide (device = None ∨ code = "" ∨ "main" = "")) as [H|H].
    - rewrite CompileFromString_rejected by done.
      exists [], false, Shader.new, s. split_and!; try done. apply appended_refl.
    - destruct (CompileFromString_spec device code "main" type lay Shader.new s)
        as (ok & sh & s' & evs & -> & Hext & Hrel & Hcr & Hv & _ & Ht & _ & _ & Hok & _);
        [tauto..|].
      change (Shutdown Shader.new s).2 with s in Hext.
      destruct ok.
      + exists evs, true, sh, s'. split_and!; try done.
        by destruct (Hok eq_refl) as [_ H'].
      + destruct (Shader_Shutdown_released sh s') as (evs2 & Hext2 & Hcr2 & Hrel2).
        exists (evs ++ evs2), false, sh, s'. split_and!; try done.
        * by eapply appended_trans.
        * by rewrite shader_releases_app, shader_creations_app, Hrel, Hcr2, Hrel2, app_nil_r, Hcr. }
  split_and!.
  - destruct (Hgen Vertex layout) as (evs & ok & sh & s' & HC & Hext & H).
    unfold ShaderUtilsImpl.CreateVertexShaderFromString. rewrite HC.
    exists evs. destruct ok; cbn [fst snd]; [|done].
    destruct H as (Hv & Ht & Hrel & Hcr & [(_ & Hvs & Hl)|(Hp & _)]); [|done].
    by split_and!.
  - destruct (Hgen Pixel []) as (evs & ok & sh & s' & HC & Hext & H).
    unfold ShaderUtilsImpl.CreatePixelShaderFromString. rewrite HC.
    exists evs. destruct ok; cbn [fst snd]; [|done].
    destruct H as (Hv & Ht & Hrel & Hcr & [(Hp & _)|(_ & Hps)]); [done|].
    by split_and!.
  - intros Hdev Hcode Hrel.
    unfold ShaderUtilsImpl.CreateVertexShaderFromString,
      ShaderUtilsImpl.CreatePixelShaderFromString.
    pose proof (CompileFromString_reliable device code "main" Vertex layout
                  Shader.new s Hdev Hcode) as H1.
    pose proof (CompileFromString_reliable device code "main" Pixel []
                  Shader.new s Hdev Hcode) as H2.
    destruct (CompileFromString device code "main" Vertex layout Shader.new s)
      as [[ok1 sh1] s1].
    destruct (CompileFromString device code "main" Pixel [] Shader.new s)
      as [[ok2 sh2] s2].
    cbn [fst snd] in *. rewrite H1, H2; try done; try (by left); try (by right).
Qed.

Lemma ShaderUtils_owns_what_it_creates_witness :
  is_Some (ShaderUtilsImpl.CreateVertexShaderFromString (Some TheDevice)
             "float4 main() {}" ShaderUtilsImpl.CreatePositionColorLayout
             (State_initial [])).1 ∧
  is_Some (ShaderUtilsImpl.CreatePixelShaderFromString (Some TheDevice)
             "float4 main() {}" (State_initial [])).1.
Proof.
  apply (ShaderUtils_owns_what_it_creates (Some TheDevice) "float4 main() {}"
           ShaderUtilsImpl.CreatePositionColorLayout (State_initial [])).
  - discriminate.
  - discriminate.
  - vm_compute. constructor.
Defined.


Lemma Shader_Shutdown_well_formed sh s : well_formed (Shutdown sh s).1.
Proof. rewrite Shader_Shutdown_result. split; [done|]. by intros [? ?]. Qed.

Lemma CompileFromString_well_formed device code entry type layout sh s :
  well_formed sh →
  well_formed (CompileFromString device code entry type layout sh s).1.2.
Proof.
  intros Hwf.
  destruct (decide (device = None ∨ code = "" ∨ entry = "")) as [H|H].
  { by rewrite CompileFromString_rejected. }
  assert (device ≠ None ∧ code ≠ "" ∧ entry ≠ "") as (Hdev & Hcode & Hentry)
    by tauto.
  clear H Hwf. unfold CompileFromString.
  rewrite bool_decide_eq_false_2 by tauto.
  pose proof (Shader_Shutdown_result sh s) as Hsh.
  destruct (Shutdown sh s) as [sh0 s0]. cbn [fst snd] in *. subst sh0.
  destruct s0 as [nh oc b lg]. destruct device as [dev|]; [|done].
  unfold D3DCompile, CreateVertexShader, CreatePixelShader, CreateInputLayout,
    ShaderDevice.CreateInputLayout, create, well_formed.
  destruct type, layout as [|el layout]; script_cases oc 3%nat; cbn;
    (split; [|by (intros [? ?] || done)]); try done; intros _;
    first [left; split; [done|by eexists] | right; split; [done|by eexists]].
Qed.

Lemma calls_well_formed ops : ∀ x, well_formed x.1 → well_formed (calls ops x).1.
Proof.
  induction ops as [|op ops IH]; intros x Hx; [done|].
  apply IH. destruct op as [device code entry type layout
                           |files device path entry type layout|]; cbn [call].
  - pose proof (CompileFromString_well_formed device code entry type layout
                  x.1 x.2 Hx) as H.
    by destruct (CompileFromString _ _ _ _ _ _ _) as [[ok sh'] s'].
  - unfold CompileFromFile. destruct (files !! path) as [content|].
    + pose proof (CompileFromString_well_formed device content entry type layout
                    (set_filepath path x.1) x.2 Hx) as H.
      by destruct (CompileFromString _ _ _ _ _ _ _) as [[ok sh'] s'].
    + done.
  - apply Shader_Shutdown_well_formed.
Qed.

(** Binding a shader, whatever compilations and shutdowns it went
    through.  A shader that is not compiled binds nothing.  A compiled
    one is valid and puts a non-null shader object into the stage of its
    kind; a vertex shader also sets its input layout if it has one, and
    otherwise leaves the layout that was bound.  [Unbind] afterwards
    clears the stage, and for a vertex shader the layout slot too,
    whether this shader had set it or not.  Neither call creates or
    releases anything. *)
Theorem Bind_after_any_calls ops s0 ctx s :
  let sh := (calls ops (Shader.new, s0)).1 in
  IsValid sh = m_isCompiled sh ∧
  log (Bind (Some ctx) sh s) = log s ∧
  log (Unbind (Some ctx) sh s) = log s ∧
  (m_isCompiled sh = false → Bind (Some ctx) sh s = s) ∧
  (m_isCompiled sh = true →
     (m_type sh = Vertex ∧
      is_Some (VS (bindings (Bind (Some ctx) sh s))) ∧
      VS (bindings (Bind (Some ctx) sh s)) = m_vertexShader sh ∧
      PS (bindings (Bind (Some ctx) sh s)) = PS (bindings s) ∧
      IAInputLayout (bindings (Bind (Some ctx) sh s))
        = match m_inputLayout sh with
          | Some layout => Some layout
          | None => IAInputLayout (bindings s)
          end ∧
      bindings (Unbind (Some ctx) sh (Bind (Some ctx) sh s))
        = mkBindings None (PS (bindings s)) None) ∨
     (m_type sh = Pixel ∧
      is_Some (PS (bindings (Bind (Some ctx) sh s))) ∧
      PS (bindings (Bind (Some ctx) sh s)) = m_pixelShader sh ∧
      VS (bindings (Bind (Some ctx) sh s)) = VS (bindings s) ∧
      IAInputLayout (bindings (Bind (Some ctx) sh s))
        = IAInputLayout (bindings s) ∧
      bindings (Unbind (Some ctx) sh (Bind (Some ctx) sh s))
        = mkBindings (VS (bindings s)) None (IAInputLayout (bindings s)))).
Proof.
  intros sh.
  assert (well_formed sh) as [Hwf Hlay].
  { apply (calls_well_formed ops (Shader.new, s0)). split; [done|].
    by intros [? ?]. }
  unfold IsValid, Bind, Unbind. split_and!.
  - destruct (m_isCompiled sh); [|done].
    destruct (Hwf eq_refl) as [[_ [v ->]]|[_ [p ->]]]; cbn;
      [done|]. by rewrite orb_true_r.
  - destruct (m_isCompiled sh); [|done]. cbn.
    destruct (m_type sh); try done. by destruct (m_inputLayout sh).
  - by destruct (m_type sh).
  - by intros ->.
  - intros Hc. rewrite Hc. cbn [negb].
    destruct (Hwf Hc) as [[Ht [v Hv]]|[Ht [p Hp]]]; rewrite Ht.
    + left. rewrite Hv. destruct (m_inputLayout sh); by split_and!.
    + right. rewrite Hp. by split_and!.
Qed.


Lemma Bind_after_any_calls_witness :
  is_Some
    (VS (bindings
       (Bind (Some ImmediateContext)
          (calls [DoCompileFromString (Some TheDevice) "float4 main() {}"
                    "main" Vertex []]
                 (Shader.new, State_initial [])).1
          (State_initial [])))).
Proof.
  destruct (Bind_after_any_calls
              [DoCompileFromString (Some TheDevice) "float4 main() {}"
                 "main" Vertex []]
              (State_initial []) ImmediateContext (State_initial []))
    as (_ & _ & _ & _ & H).
  destruct H as [(_ & H & _)|(H & _)].
  - vm_compute. reflexivity.
  - exact H.
  - vm_compute in H. discriminate H.
Defined.

End ShaderFacts.

(** ** The shader program *)

Module ProgramFacts.
Import D3D ShaderDevice ShaderSpec ShaderFacts ShaderProgram.

Lemma unshare_spec a sh n h :
  shaders h !! a = Some (sh, n) →
  ∃ evs,
    appended (device h) (device (unshare (Some a) h)) evs ∧
    creations evs = [] ∧
    releases evs = (if decide (n ≤ 1)%nat then shader_objects sh else []) ∧
    shaders (unshare (Some a) h)
      = (if decide (n ≤ 1)%nat then delete a (shaders h)
         else <[a := (sh, pred n)]> (shaders h)).
Proof.
  intros Ha. unfold unshare. rewrite Ha.
  destruct (Shader_Shutdown_released sh (device h)) as (evs & Hext & Hcr & Hrel).
  destruct n as [|[|n]].
  - exists evs. rewrite decide_True by lia. by split_and!.
  - exists evs. rewrite decide_True by lia. by split_and!.
  - exists []. rewrite decide_False by lia. split_and!; try done.
    apply appended_refl.
Qed.

Lemma valid_compiled sh :
  well_formed sh → Shader.IsValid sh = true →
  Shader.m_isCompiled sh = true ∧
  (Shader.m_type sh = Vertex ∧ is_Some (Shader.m_vertexShader sh) ∨
   Shader.m_type sh = Pixel ∧ is_Some (Shader.m_pixelShader sh)).
Proof.
  intros [Hwf _]. unfold Shader.IsValid.
  destruct (Shader.m_isCompiled sh); [|done]. intros _. split; [done|].
  by apply Hwf.
Qed.

(** [Bind] on a program that [IsValid].  The two shaders are bound, and
    nothing is created, released or changed on the heap.  When the slots
    hold a vertex and a pixel shader, both stages end with a non-null
    shader object, and [Unbind] clears both stages and the input layout.
    [IsValid] does not look at the kinds: when the vertex slot holds a
    pixel shader the program is valid all the same, and [Bind] leaves
    the vertex stage as it was. *)
Theorem ShaderProgram_Bind_valid ctx p h a b vs ps n k :
  m_vertexShader p = Some a → m_pixelShader p = Some b →
  shaders h !! a = Some (vs, n) → shaders h !! b = Some (ps, k) →
  well_formed vs → well_formed ps → IsValid p h = true →
  shaders (Bind (Some ctx) p h) = shaders h ∧
  log (device (Bind (Some ctx) p h)) = log (device h) ∧
  (Shader.m_type vs = Vertex → Shader.m_type ps = Pixel →
     VS (bindings (device (Bind (Some ctx) p h))) = Shader.m_vertexShader vs ∧
     is_Some (Shader.m_vertexShader vs) ∧
     PS (bindings (device (Bind (Some ctx) p h))) = Shader.m_pixelShader ps ∧
     is_Some (Shader.m_pixelShader ps) ∧
     bindings (device (Unbind (Some ctx) p (Bind (Some ctx) p h)))
       = mkBindings None None None) ∧
  (Shader.m_type vs = Pixel → Shader.m_type ps = Pixel →
     VS (bindings (device (Bind (Some ctx) p h))) = VS (bindings (device h))).
Proof.
  intros Hp1 Hp2 Ha Hb Hwf1 Hwf2. unfold IsValid, valid_at.
  rewrite Hp1, Hp2, Ha, Hb. intros Hv. apply andb_true_iff in Hv.
  destruct Hv as [Hv1 Hv2].
  destruct (valid_compiled vs Hwf1 Hv1) as [Hc1 Hk1].
  destruct (valid_compiled ps Hwf2 Hv2) as [Hc2 Hk2].
  unfold Bind, Unbind, through. rewrite Hp1, Hp2.
  cbn [shaders device]. rewrite Ha. cbn [shaders device]. rewrite Hb.
  cbn [shaders device]. rewrite Ha. cbn [shaders device]. rewrite Hb.
  cbn [shaders device].
  unfold Shader.Bind, Shader.Unbind. rewrite Hc1, Hc2. cbn [negb].
  split_and!.
  - done.
  - by destruct (Shader.m_type vs), (Shader.m_type ps),
      (Shader.m_inputLayout vs), (Shader.m_inputLayout ps).
  - intros Ht1 Ht2. rewrite Ht1, Ht2.
    destruct Hk1 as [[_ Hs1]|[Hk1 _]]; [|congruence].
    destruct Hk2 as [[Hk2 _]|[_ Hs2]]; [congruence|].
    by destruct (Shader.m_inputLayout vs).
  - intros Ht1 Ht2. by rewrite Ht1, Ht2.
Qed.

Lemma ShaderProgram_Bind_valid_witness :
  shaders
    (Bind (Some ImmediateContext) (mk (Some 1%positive) (Some 2%positive))
       (mkHeap
          {[ 1%positive :=
               (Shader.mk Vertex "main" "" (Some 2%positive) None None None
                          None None None (Some 1%positive) true, 1%nat);
             2%positive :=
               (Shader.mk Pixel "main" "" None (Some 4%positive) None None
                          None None None (Some 3%positive) true, 1%nat) ]}
          (State_initial [])))
  = {[ 1%positive :=
         (Shader.mk Vertex "main" "" (Some 2%positive) None None None
                    None None None (Some 1%positive) true, 1%nat);
       2%positive :=
         (Shader.mk Pixel "main" "" None (Some 4%positive) None None
                    None None None (Some 3%positive) true, 1%nat) ]}.
Proof.
  refine (proj1 (ShaderProgram_Bind_valid ImmediateContext
            (mk (Some 1%positive) (Some 2%positive))
            (mkHeap
               {[ 1%positive :=
                    (Shader.mk Vertex "main" "" (Some 2%positive) None None None
                               None None None (Some 1%positive) true, 1%nat);
                  2%positive :=
                    (Shader.mk Pixel "main" "" None (Some 4%positive) None None
                               None None None (Some 3%positive) true, 1%nat) ]}
               (State_initial []))
            1%positive 2%positive
            (Shader.mk Vertex "main" "" (Some 2%positive) None None None
                       None None None (Some 1%positive) true)
            (Shader.mk Pixel "main" "" None (Some 4%positive) None None
                       None None None (Some 3%positive) true)
            1%nat 1%nat _ _ _ _ _ _ _)).
  - reflexivity.
  - reflexivity.
  - vm_compute. reflexivity.
  - vm_compute. reflexivity.
  - split; [intros _; left; split; [reflexivity|eexists; reflexivity]|].
    intros [? H]. discriminate H.
  - split; [intros _; right; split; [reflexivity|eexists; reflexivity]|].
    intros [? H]. discriminate H.
  - vm_compute. reflexivity.
Defined.

(** [Shutdown] of a program that holds two different shaders: both
    pointers become null; a shader that had no other owner is deleted and
    each of its device objects is released once; a shader that others
    still own stays on the heap with one owner less, and none of its
    objects is released; no other shader is touched and nothing is
    created. *)
Theorem ShaderProgram_Shutdown_ownership p h a b vs ps n k :
  m_vertexShader p = Some a → m_pixelShader p = Some b → a ≠ b →
  shaders h !! a = Some (vs, n) → shaders h !! b = Some (ps, k) →
  ∃ evs,
    (Shutdown p h).1 = new ∧
    IsValid (Shutdown p h).1 (Shutdown p h).2 = false ∧
    appended (device h) (device (Shutdown p h).2) evs ∧
    creations evs = [] ∧
    releases evs
      = (if decide (n ≤ 1)%nat then shader_objects vs else [])
        ++ (if decide (k ≤ 1)%nat then shader_objects ps else []) ∧
    shaders (Shutdown p h).2 !! a
      = (if decide (n ≤ 1)%nat then None else Some (vs, pred n)) ∧
    shaders (Shutdown p h).2 !! b
      = (if decide (k ≤ 1)%nat then None else Some (ps, pred k)) ∧
    (∀ c, c ≠ a → c ≠ b →
       shaders (Shutdown p h).2 !! c = shaders h !! c).
Proof.
  intros Hp1 Hp2 Hne Ha Hb. unfold Shutdown. rewrite Hp1, Hp2. cbn [fst snd].
  destruct (unshare_spec a vs n h Ha) as (e1 & Hext1 & Hcr1 & Hrel1 & Hs1).
  assert (shaders (unshare (Some a) h) !! b = Some (ps, k)) as Hb'.
  { rewrite Hs1. destruct (decide (n ≤ 1)%nat).
    - by rewrite lookup_delete_ne.
    - by rewrite lookup_insert_ne. }
  destruct (unshare_spec b ps k _ Hb') as (e2 & Hext2 & Hcr2 & Hrel2 & Hs2).
  assert (b ≠ a) as Hne' by congruence.
  exists (e1 ++ e2). split_and!.
  - done.
  - done.
  - by eapply appended_trans.
  - by rewrite shader_creations_app, Hcr1, Hcr2.
  - by rewrite shader_releases_app, Hrel1, Hrel2.
  - rewrite Hs2, Hs1.
    destruct (decide (k ≤ 1)%nat), (decide (n ≤ 1)%nat).
    + rewrite lookup_delete_ne by done. apply lookup_delete_eq.
    + rewrite lookup_delete_ne by done. apply lookup_insert_eq.
    + rewrite lookup_insert_ne by done. apply lookup_delete_eq.
    + rewrite lookup_insert_ne by done. apply lookup_insert_eq.
  - rewrite Hs2.
    destruct (decide (k ≤ 1)%nat); [apply lookup_delete_eq|apply lookup_insert_eq].
  - intros c Hca Hcb. rewrite Hs2, Hs1.
    assert (a ≠ c ∧ b ≠ c) as [Hac Hbc] by (split; congruence).
    destruct (decide (k ≤ 1)%nat), (decide (n ≤ 1)%nat).
    + rewrite lookup_delete_ne by done. by apply lookup_delete_ne.
    + rewrite lookup_delete_ne by done. by apply lookup_insert_ne.
    + rewrite lookup_insert_ne by done. by apply lookup_delete_ne.
    + rewrite lookup_insert_ne by done. by apply lookup_insert_ne.
Qed.


Lemma ShaderProgram_Shutdown_ownership_witness :
  ∃ evs,
    (Shutdown (mk (Some 1%positive) (Some 2%positive))
       (mkHeap
          {[ 1%positive :=
               (Shader.mk Vertex "main" "" (Some 2%positive) None None None
                          None None None (Some 1%positive) true, 1%nat);
             2%positive :=
               (Shader.mk Pixel "main" "" None (Some 4%positive) None None
                          None None None (Some 3%positive) true, 2%nat) ]}
          (State_initial []))).1 = new ∧
    releases evs
      = (if decide (1 ≤ 1)%nat
         then shader_objects
                (Shader.mk Vertex "main" "" (Some 2%positive) None None None
                           None None None (Some 1%positive) true)
         else [])
        ++ (if decide (2 ≤ 1)%nat
            then shader_objects
                   (Shader.mk Pixel "main" "" None (Some 4%positive) None None
                              None None None (Some 3%positive) true)
            else []).
Proof.
  destruct (ShaderProgram_Shutdown_ownership
              (mk (Some 1%positive) (Some 2%positive))
              (mkHeap
                 {[ 1%positive :=
                      (Shader.mk Vertex "main" "" (Some 2%positive) None None None
                                 None None None (Some 1%positive) true, 1%nat);
                    2%positive :=
                      (Shader.mk Pixel "main" "" None (Some 4%positive) None None
                                 None None None (Some 3%positive) true, 2%nat) ]}
                 (State_initial []))
              1%positive 2%positive
              (Shader.mk Vertex "main" "" (Some 2%positive) None None None
                         None None None (Some 1%positive) true)
              (Shader.mk Pixel "main" "" None (Some 4%positive) None None
                         None None None (Some 3%positive) true)
              1%nat 2%nat)
    as (evs & H1 & _ & _ & _ & H2 & _).
  - reflexivity.
  - reflexivity.
  - discriminate.
  - vm_compute. reflexivity.
  - vm_compute. reflexivity.
  - exists evs. split; [exact H1|exact H2].
Defined.

Lemma share_spec a sh n h :
  shaders h !! a = Some (sh, n) →
  share (Some a) h = mkHeap (<[a := (sh, S n)]> (shaders h)) (device h).
Proof. intros Ha. unfold share. by rewrite Ha. Qed.

Lemma unshare_shared a sh n h :
  shaders h !! a = Some (sh, S (S n)) →
  unshare (Some a) h = mkHeap (<[a := (sh, S n)]> (shaders h)) (device h).
Proof. intros Ha. unfold unshare. by rewrite Ha. Qed.

(** [SetVertexShader] and [SetPixelShader] with a shader that has an
    owner already.  Setting the shader the slot holds changes nothing.
    Setting another one makes the program one more owner of it and takes
    the program away from the owners of the shader the slot held: that
    shader is deleted, and its device objects released, exactly when the
    program was its last owner.  The other slot is not touched. *)
Theorem ShaderProgram_Set_ownership p h a sh n :
  shaders h !! a = Some (sh, S n) →
  (m_vertexShader p = Some a → SetVertexShader (Some a) p h = (p, h)) ∧
  (m_pixelShader p = Some a → SetPixelShader (Some a) p h = (p, h)) ∧
  (∀ b old k,
     m_vertexShader p = Some b → a ≠ b → shaders h !! b = Some (old, k) →
     ∃ evs,
       (SetVertexShader (Some a) p h).1 = mk (Some a) (m_pixelShader p) ∧
       appended (device h) (device (SetVertexShader (Some a) p h).2) evs ∧
       creations evs = [] ∧
       releases evs = (if decide (k ≤ 1)%nat then shader_objects old else []) ∧
       shaders (SetVertexShader (Some a) p h).2 !! a = Some (sh, S (S n)) ∧
       shaders (SetVertexShader (Some a) p h).2 !! b
         = (if decide (k ≤ 1)%nat then None else Some (old, pred k))) ∧
  (∀ b old k,
     m_pixelShader p = Some b → a ≠ b → shaders h !! b = Some (old, k) →
     ∃ evs,
       (SetPixelShader (Some a) p h).1 = mk (m_vertexShader p) (Some a) ∧
       appended (device h) (device (SetPixelShader (Some a) p h).2) evs ∧
       creations evs = [] ∧
       releases evs = (if decide (k ≤ 1)%nat then shader_objects old else []) ∧
       shaders (SetPixelShader (Some a) p h).2 !! a = Some (sh, S (S n)) ∧
       shaders (SetPixelShader (Some a) p h).2 !! b
         = (if decide (k ≤ 1)%nat then None else Some (old, pred k))).
Proof.
  intros Ha.
  assert (unshare (Some a) (unshare (Some a) (share (Some a) (share (Some a) h)))
          = h) as Hself.
  { rewrite (share_spec a sh (S n) h Ha).
    erewrite share_spec by apply lookup_insert_eq.
    unfold unshare. cbn [shaders device]. rewrite lookup_insert_eq.
    cbn [shaders device]. rewrite lookup_insert_eq. cbn [shaders device].
    rewrite !insert_insert_eq, insert_id by done. by destruct h. }
  assert (∀ b old k, a ≠ b → shaders h !! b = Some (old, k) →
    ∃ evs h',
      unshare (Some a) (unshare (Some b) (share (Some a) (share (Some a) h)))
        = h' ∧
      appended (device h) (device h') evs ∧ creations evs = [] ∧
      releases evs = (if decide (k ≤ 1)%nat then shader_objects old else []) ∧
      shaders h' !! a = Some (sh, S (S n)) ∧
      shaders h' !! b = (if decide (k ≤ 1)%nat then None else Some (old, pred k)))
    as Hother.
  { intros b old k Hne Hb. assert (b ≠ a) as Hne' by congruence.
    rewrite (share_spec a sh (S n) h Ha).
    erewrite share_spec by apply lookup_insert_eq.
    cbn [shaders device]. rewrite insert_insert_eq.
    set (h2 := mkHeap (<[a := (sh, S (S (S n)))]> (shaders h)) (device h)).
    assert (shaders h2 !! b = Some (old, k)) as Hb2.
    { cbn. by rewrite lookup_insert_ne. }
    destruct (unshare_spec b old k h2 Hb2) as (evs & Hext & Hcr & Hrel & Hs).
    assert (shaders (unshare (Some b) h2) !! a = Some (sh, S (S (S n)))) as Ha3.
    { rewrite Hs. destruct (decide (k ≤ 1)%nat).
      - rewrite lookup_delete_ne by done. apply lookup_insert_eq.
      - rewrite lookup_insert_ne by done. apply lookup_insert_eq. }
    exists evs. eexists. split; [apply (unshare_shared a sh (S n) _ Ha3)|].
    cbn [shaders device]. split_and!; try done.
    - apply lookup_insert_eq.
    - rewrite lookup_insert_ne by done. rewrite Hs.
      destruct (decide (k ≤ 1)%nat);
        [apply lookup_delete_eq|apply lookup_insert_eq]. }
  split_and!.
  - intros Hp. unfold SetVertexShader. rewrite Hp, Hself. by destruct p; simplify_eq/=.
  - intros Hp. unfold SetPixelShader. rewrite Hp, Hself. by destruct p; simplify_eq/=.
  - intros b old k Hp Hne Hb.
    destruct (Hother b old k Hne Hb) as (evs & h' & Hh & H).
    exists evs. unfold SetVertexShader. rewrite Hp, Hh. cbn [fst snd]. by split.
  - intros b old k Hp Hne Hb.
    destruct (Hother b old k Hne Hb) as (evs & h' & Hh & H).
    exists evs. unfold SetPixelShader. rewrite Hp, Hh. cbn [fst snd]. by split.
Qed.

Lemma ShaderProgram_Set_ownership_witness :
  SetVertexShader (Some 1%positive) (mk (Some 1%positive) None)
    (mkHeap
       {[ 1%positive :=
            (Shader.mk Vertex "main" "" (Some 2%positive) None None None
                       None None None (Some 1%positive) true, 1%nat) ]}
       (State_initial []))
  = (mk (Some 1%positive) None,
     mkHeap
       {[ 1%positive :=
            (Shader.mk Vertex "main" "" (Some 2%positive) None None None
                       None None None (Some 1%positive) true, 1%nat) ]}
       (State_initial [])).
Proof.
  refine (proj1 (ShaderProgram_Set_ownership (mk (Some 1%positive) None)
            (mkHeap
               {[ 1%positive :=
                    (Shader.mk Vertex "main" "" (Some 2%positive) None None None
                               None None None (Some 1%positive) true, 1%nat) ]}
               (State_initial []))
            1%positive
            (Shader.mk Vertex "main" "" (Some 2%positive) None None None
                       None None None (Some 1%positive) true)
            0%nat _) _).
  - vm_compute. reflexivity.
  - reflexivity.
Defined.

End ProgramFacts.
